(** * lmd: query execution and response assembly (response.go)

    A shallow embedding of [src/lmd/response.go] and the properties its
    specification states about it.  Go values are modelled as follows:

    - [int] is [Z] (no arithmetic here can leave the 64-bit range: the only
      sums are lengths plus one);
    - [float64] is the primitive binary64 type [float];
    - [string] and [[]byte] are [string] (a list of bytes);
    - [interface{}] cells are the tagged union [Cell];
    - a row [[]interface{}] is a [list Cell]; the result matrix
      [[][]interface{}] is a [slice] with an explicit capacity, because
      post-processing re-slices it;
    - [map[string]T] is [gmap string T];
    - a run-time panic is the [Panic] outcome. *)

From Stdlib Require Import ZArith Floats Uint63 Ascii String List Bool Lia.
From Stdlib Require Import DecimalString.
From stdpp Require Import base option list strings gmap.

Local Open Scope string_scope.
Local Open Scope list_scope.
Local Open Scope Z_scope.

(** ** Go run-time: outcomes, slices, formatting *)

Inductive outcome (A : Type) : Type :=
| Ok (a : A)
| Panic (msg : string).
Arguments Ok {A} a.
Arguments Panic {A} msg.

#[global] Instance outcome_ret : MRet outcome := fun A a => Ok a.
#[global] Instance outcome_bind : MBind outcome := fun A B f m =>
  match m with
  | Ok a => f a
  | Panic msg => Panic msg
  end.

(** [s[i]] on a list seen as a Go slice: a negative or too large index
    panics. *)
Definition index {A} (l : list A) (i : Z) : outcome A :=
  if i <? 0 then Panic "index out of range"
  else match l !! Z.to_nat i with
       | Some a => Ok a
       | None => Panic "index out of range"
       end.

(** [len(s)] as a Go [int]. *)
Definition len {A} (l : list A) : Z := Z.of_nat (length l).

(** A Go slice of rows: [backing] is the underlying array from the slice's
    first element to the end of its capacity, [slen] the slice's length.
    The nil slice is kept apart, as the code tests for it. *)
Inductive slice (A : Type) : Type :=
| NilSlice
| Slice (backing : list A) (slen : nat).
Arguments NilSlice {A}.
Arguments Slice {A} backing slen.

Definition elems {A} (s : slice A) : list A :=
  match s with
  | NilSlice => []
  | Slice b n => take n b
  end.

Definition slice_len {A} (s : slice A) : Z := len (elems s).

Definition slice_cap {A} (s : slice A) : Z :=
  match s with
  | NilSlice => 0
  | Slice b _ => len b
  end.

Definition slice_wf {A} (s : slice A) : Prop :=
  match s with
  | NilSlice => True
  | Slice b n => (n <= length b)%nat
  end.

Definition is_nil {A} (s : slice A) : bool :=
  match s with NilSlice => true | Slice _ _ => false end.

(** [make([]T, 0)]. *)
Definition make_empty {A} : slice A := Slice [] 0.

(** The slice expression [s[lo:hi]]: Go checks [0 <= lo <= hi <= cap(s)],
    so [hi] may exceed [len(s)] and expose the array behind it. *)
Definition reslice {A} (s : slice A) (lo hi : Z) : outcome (slice A) :=
  if (0 <=? lo) && (lo <=? hi) && (hi <=? slice_cap s) then
    match s with
    | NilSlice => Ok NilSlice
    | Slice b _ => Ok (Slice (drop (Z.to_nat lo) b) (Z.to_nat (hi - lo)))
    end
  else Panic "slice bounds out of range".

(** [s[lo:]] is [s[lo:len(s)]]. *)
Definition reslice_from {A} (s : slice A) (lo : Z) : outcome (slice A) :=
  reslice s lo (slice_len s).

(** Decimal rendering of an [int], as the verb [%d] prints it. *)
Definition itoa (z : Z) : string := NilZero.string_of_int (Z.to_int z).

(** Left padding with spaces to a minimal width, as the verb [%11d] does. *)
Fixpoint spaces (n : nat) : string :=
  match n with
  | O => ""
  | S k => String " "%char (spaces k)
  end.

Definition pad_left (width : nat) (s : string) : string :=
  spaces (width - String.length s) +:+ s.

(** The conversion [float64(n)] of an [int]. *)
Definition float64_of_int (z : Z) : float :=
  if z =? - 2 ^ 63 then PrimFloat.ldshiftexp (PrimFloat.opp PrimFloat.one)
                          (Uint63.of_Z (63 + FloatOps.shift))
  else if z <? 0 then PrimFloat.opp (PrimFloat.of_uint63 (Uint63.of_Z (- z)))
  else PrimFloat.of_uint63 (Uint63.of_Z z).

(** ** Data model *)

(** The column types.  The enumeration is declared outside this file; these
    are the constants this file names, [VirtCol] marking virtual columns. *)
Inductive ColumnType : Type :=
| StringCol | StringListCol | IntCol | IntListCol | FloatCol | TimeCol | VirtCol.

(** The update policies of a column (declared outside this file). *)
Inductive UpdateType : Type :=
| StaticUpdate | DynamicUpdate | RefUpdate | RefNoUpdate | VirtUpdate.

Inductive SortDirection : Type := Asc | Desc.

Inductive StatsType : Type :=
| NoStats | Counter | Min | Max | Sum | Average.

Inductive PeerStatus : Type :=
| PeerStatusUp | PeerStatusWarning | PeerStatusDown.

#[global] Instance ColumnType_eq_dec : EqDecision ColumnType.
Proof. solve_decision. Defined.
#[global] Instance UpdateType_eq_dec : EqDecision UpdateType.
Proof. solve_decision. Defined.
#[global] Instance SortDirection_eq_dec : EqDecision SortDirection.
Proof. solve_decision. Defined.
#[global] Instance PeerStatus_eq_dec : EqDecision PeerStatus.
Proof. solve_decision. Defined.

(** A cell of a row: the dynamic values an [interface{}] holds here. *)
Inductive Cell : Type :=
| VNil
| VInt (z : Z)
| VFloat (f : float)
| VString (s : string)
| VStringList (l : list string)
| VIntList (l : list Z).

Abbreviation Row := (list Cell).

Record Column : Type := mkColumn {
  Name : string;
  Type_ : ColumnType;
  Index : Z;
  RefIndex : Z;
  Update : UpdateType
}.

Record Table : Type := mkTable {
  TName : string;
  Columns : list Column;
  ColumnsIndex : gmap string Z;
  PassthroughOnly : bool;
  DynamicColCacheIndexes : list Z
}.

(** The zero [Table], which a failed lookup in [Objects.Tables] yields. *)
Definition zeroTable : Table :=
  {| TName := ""; Columns := []; ColumnsIndex := ∅;
     PassthroughOnly := false; DynamicColCacheIndexes := [] |}.

Record SortField : Type := mkSortField {
  SName : string;
  SDirection : SortDirection;
  SIndex : Z
}.

(** The fields of [Filter] this file reads: a stats query keeps its running
    accumulator and sample count in them. *)
Record Filter : Type := mkFilter {
  StatsType_ : StatsType;
  Stats : float;
  StatsCount : Z
}.

Record Request : Type := mkRequest {
  RTable : string;
  RColumns : list string;
  RFilter : list Filter;
  RStats : list Filter;
  RLimit : Z;
  ROffset : Z;
  RSort : list SortField;
  RBackends : list string;
  OutputFormat : string;
  ResponseFixed16 : bool;
  SendColumnsHeader : bool
}.

Record Response : Type := mkResponse {
  Code : Z;
  Result : slice Row;
  ResultTotal : Z;
  Req : Request;
  Error : option string;
  Failed : gmap string string;
  RespColumns : list Column
}.

Definition set_Result (res : Response) (r : slice Row) : Response :=
  {| Code := Code res; Result := r; ResultTotal := ResultTotal res;
     Req := Req res; Error := Error res; Failed := Failed res;
     RespColumns := RespColumns res |}.

Definition set_ResultTotal (res : Response) (n : Z) : Response :=
  {| Code := Code res; Result := Result res; ResultTotal := n;
     Req := Req res; Error := Error res; Failed := Failed res;
     RespColumns := RespColumns res |}.

Definition set_Failed (res : Response) (f : gmap string string) : Response :=
  {| Code := Code res; Result := Result res; ResultTotal := ResultTotal res;
     Req := Req res; Error := Error res; Failed := f;
     RespColumns := RespColumns res |}.

Definition set_RespColumns (res : Response) (c : list Column) : Response :=
  {| Code := Code res; Result := Result res; ResultTotal := ResultTotal res;
     Req := Req res; Error := Error res; Failed := Failed res;
     RespColumns := c |}.

Definition set_Req (res : Response) (r : Request) : Response :=
  {| Code := Code res; Result := Result res; ResultTotal := ResultTotal res;
     Req := r; Error := Error res; Failed := Failed res;
     RespColumns := RespColumns res |}.

(** ** The comparator and the post-processor *)

Section PostProcessor.

(** [NumberToFloat] (declared outside this file) turns a numeric cell
    into a [float64]. *)
Variable NumberToFloat : Cell -> float.

(** [sort.Sort] of Go's library: given the comparator (which reads the
    rows as they currently stand) it permutes the rows in place. *)
Variable sort_Sort :
  (list Row -> Z -> Z -> outcome bool) -> list Row -> outcome (list Row).

(** [res.Result[i][k]]. *)
Definition cell_at (rows : list Row) (i k : Z) : outcome Cell :=
  row ← index rows i; index row k.

(** [Less]: the loop over [res.Request.Sort], one key per iteration;
    [continue] is the recursive call. *)
Fixpoint less_keys (cols : list Column) (rows : list Row) (i j : Z)
    (keys : list SortField) : outcome bool :=
  match keys with
  | [] => Ok true
  | s :: rest =>
      col ← index cols (SIndex s);
      match Type_ col with
      | TimeCol | IntCol | FloatCol =>
          a ← cell_at rows i (SIndex s);
          b ← cell_at rows j (SIndex s);
          let valueA := NumberToFloat a in
          let valueB := NumberToFloat b in
          if PrimFloat.eqb valueA valueB then less_keys cols rows i j rest
          else if bool_decide (SDirection s = Asc)
               then Ok (PrimFloat.ltb valueA valueB)
               else Ok (PrimFloat.ltb valueB valueA)
      | StringCol =>
          a ← cell_at rows i (SIndex s);
          match a with
          | VString s1 =>
              b ← cell_at rows j (SIndex s);
              match b with
              | VString s2 =>
                  if String.eqb s1 s2 then less_keys cols rows i j rest
                  else if bool_decide (SDirection s = Asc)
                       then Ok (String.ltb s1 s2)
                       else Ok (String.ltb s2 s1)
              | _ => Ok (bool_decide (SDirection s = Asc))
              end
          | _ => Ok (bool_decide (SDirection s = Asc))
          end
      | StringListCol => Ok (bool_decide (SDirection s = Asc))
      | IntListCol => Ok (bool_decide (SDirection s = Asc))
      | VirtCol => Panic "sorting not implemented for type"
      end
  end.

Definition Less_rows (res : Response) (rows : list Row) (i j : Z)
    : outcome bool :=
  less_keys (RespColumns res) rows i j (RSort (Req res)).

Definition Less (res : Response) (i j : Z) : outcome bool :=
  Less_rows res (elems (Result res)) i j.

(** The rows of a slice replaced in place, the array behind them kept. *)
Definition with_elems {A} (s : slice A) (rows : list A) : slice A :=
  match s with
  | NilSlice => NilSlice
  | Slice b n => Slice (rows ++ drop n b) (length rows)
  end.

(** The cell a stats specification contributes to the summary row. *)
Definition stats_cell (s : Filter) : outcome Cell :=
  c ← match StatsType_ s with
      | Counter => Ok (VFloat (Stats s))
      | Min => Ok (VFloat (Stats s))
      | Max => Ok (VFloat (Stats s))
      | Sum => Ok (VFloat (Stats s))
      | Average =>
          if 0 <? StatsCount s
          then Ok (VFloat (PrimFloat.div (Stats s)
                                         (float64_of_int (StatsCount s))))
          else Ok (VInt 0)
      | NoStats => Panic "not implemented"
      end;
  Ok (if StatsCount s =? 0 then VInt 0 else c).

(** [for i, s := range res.Request.Stats { res.Result[0][i] = ... }]. *)
Fixpoint stats_loop (i : nat) (stats : list Filter) (row : Row)
    : outcome Row :=
  match stats with
  | [] => Ok row
  | s :: rest => c ← stats_cell s; stats_loop (S i) rest (<[i:=c]> row)
  end.

Definition sort_step (res : Response) : outcome Response :=
  if 0 <? len (RSort (Req res)) then
    rows ← sort_Sort (Less_rows res) (elems (Result res));
    Ok (set_Result res (with_elems (Result res) rows))
  else Ok res.

Definition total_step (res : Response) : Response :=
  if ResultTotal res =? 0 then set_ResultTotal res (slice_len (Result res))
  else res.

Definition offset_step (res : Response) : outcome Response :=
  if 0 <? ROffset (Req res) then
    if ResultTotal res <? ROffset (Req res) then
      Ok (set_Result res make_empty)
    else
      r ← reslice_from (Result res) (ROffset (Req res));
      Ok (set_Result res r)
  else Ok res.

Definition limit_step (res : Response) : outcome Response :=
  if 0 <? RLimit (Req res) then
    if RLimit (Req res) <? ResultTotal res then
      r ← reslice (Result res) 0 (RLimit (Req res));
      Ok (set_Result res r)
    else Ok res
  else Ok res.

Definition stats_step (res : Response) : outcome Response :=
  if 0 <? len (RStats (Req res)) then
    row ← stats_loop 0 (RStats (Req res))
                     (replicate (length (RStats (Req res))) VNil);
    Ok (set_Result res (Slice [row] 1))
  else Ok res.

Definition BuildResponsePostProcessing (res : Response) : outcome Response :=
  res ← sort_step res;
  res ← offset_step (total_step res);
  res ← limit_step res;
  stats_step res.

End PostProcessor.

(** ** Sample externals and inputs used by the closed examples *)

(** A sort that leaves the rows as they are: enough for examples whose
    requests carry no sort key. *)
Definition sort_none (less : list Row -> Z -> Z -> outcome bool)
    (rows : list Row) : outcome (list Row) := Ok rows.

(** A number conversion for integer and float cells. *)
Definition number_of_cell (c : Cell) : float :=
  match c with
  | VInt z => float64_of_int z
  | VFloat f => f
  | _ => PrimFloat.zero
  end.

Definition plain_request (limit offset : Z) : Request :=
  {| RTable := "hosts"; RColumns := ["name"]; RFilter := []; RStats := [];
     RLimit := limit; ROffset := offset; RSort := []; RBackends := [];
     OutputFormat := "json"; ResponseFixed16 := false;
     SendColumnsHeader := false |}.

Definition response_of (req : Request) (rows : slice Row) : Response :=
  {| Code := 200; Result := rows; ResultTotal := 0; Req := req;
     Error := None; Failed := ∅; RespColumns := [] |}.

Definition five_rows : list Row :=
  [[VString "a"]; [VString "b"]; [VString "c"]; [VString "d"]; [VString "e"]].

(** ** Properties of the run-time helpers *)

Lemma slice_len_wf {A} (s : slice A) :
  slice_wf s -> slice_len s <= slice_cap s.
Proof.
  destruct s as [|b n]; simpl; [unfold slice_len, len; simpl; lia|].
  intros Hn. unfold slice_len, len. simpl. rewrite length_take. lia.
Qed.

Lemma slice_len_Slice {A} (b : list A) (n : nat) :
  (n <= length b)%nat -> slice_len (Slice b n) = Z.of_nat n.
Proof.
  intros Hn. unfold slice_len, len. simpl. rewrite length_take. lia.
Qed.

Lemma reslice_ok {A} (s : slice A) (lo hi : Z) :
  0 <= lo -> lo <= hi -> hi <= slice_cap s ->
  exists r, reslice s lo hi = Ok r /\
            (is_nil s = false ->
             r = Slice (drop (Z.to_nat lo)
                             (match s with NilSlice => [] | Slice b _ => b end))
                       (Z.to_nat (hi - lo))).
Proof.
  intros H0 H1 H2. unfold reslice.
  assert ((0 <=? lo) && (lo <=? hi) && (hi <=? slice_cap s) = true) as ->.
  { rewrite !andb_true_iff. repeat split; apply Z.leb_le; lia. }
  destruct s as [|b n]; simpl; eexists; (split; [reflexivity|]);
    [discriminate | reflexivity].
Qed.

Lemma reslice_elems {A} (s r : slice A) (lo hi : Z) :
  slice_wf s -> reslice s lo hi = Ok r -> hi <= slice_len s ->
  elems r = take (Z.to_nat (hi - lo)) (drop (Z.to_nat lo) (elems s)) /\
  slice_wf r.
Proof.
  unfold reslice. intros Hwf.
  destruct ((0 <=? lo) && (lo <=? hi) && (hi <=? slice_cap s)) eqn:E;
    [|discriminate].
  rewrite !andb_true_iff in E. destruct E as [[E0 E1] E2].
  apply Z.leb_le in E0, E1, E2.
  destruct s as [|b n]; simpl; intros Heq Hhi; inversion Heq; subst r; simpl.
  - unfold slice_len, len in Hhi. simpl in Hhi.
    rewrite drop_nil, take_nil. split; [reflexivity | exact I].
  - simpl in Hwf. rewrite slice_len_Slice in Hhi by assumption.
    rewrite length_drop. split; [|unfold len in E2; lia].
    rewrite !take_drop_commute, take_take.
    f_equal. f_equal. lia.
Qed.

(** ** Pagination: offset and limit *)

Section Pagination.

Variable NumberToFloat : Cell -> float.
Variable sort_Sort :
  (list Row -> Z -> Z -> outcome bool) -> list Row -> outcome (list Row).

Local Abbreviation post := (BuildResponsePostProcessing NumberToFloat sort_Sort).

Lemma sort_step_no_keys (res : Response) :
  RSort (Req res) = [] -> sort_step NumberToFloat sort_Sort res = Ok res.
Proof. unfold sort_step. intros ->. reflexivity. Qed.

Lemma stats_step_no_stats (res : Response) :
  RStats (Req res) = [] -> stats_step res = Ok res.
Proof. unfold stats_step. intros ->. reflexivity. Qed.

(** X1.  Where the limit does not reach past the rows left by the offset,
    the rows kept are those from [Offset] on, cut to [Limit] when it is
    set. *)
Lemma pagination_in_range (res : Response) :
  let n := slice_len (Result res) in
  let off := ROffset (Req res) in
  let lim := RLimit (Req res) in
  slice_wf (Result res) ->
  RSort (Req res) = [] -> RStats (Req res) = [] ->
  ResultTotal res = 0 \/ ResultTotal res = n ->
  0 <= off ->
  lim <= 0 \/ n <= lim \/ lim <= n - off ->
  exists r, post res = Ok r /\
    elems (Result r) =
      (if 0 <? lim then take (Z.to_nat lim) else id)
        (drop (Z.to_nat off) (elems (Result res))) /\
    slice_len (Result r) =
      (if 0 <? lim then Z.min (Z.max (n - off) 0) lim
       else Z.max (n - off) 0).
Proof.
  intros n off lim Hwf Hsort Hstats Htot Hoff Hrange.
  assert (exists r, post res = Ok r /\
    elems (Result r) =
      (if 0 <? lim then take (Z.to_nat lim) else id)
        (drop (Z.to_nat off) (elems (Result res)))) as (r & Hr & Hel).
  { unfold BuildResponsePostProcessing.
    rewrite sort_step_no_keys by assumption. simpl.
    assert (ResultTotal (total_step res) = n) as Htot'.
    { unfold total_step. destruct (ResultTotal res =? 0) eqn:E; simpl; [reflexivity|].
      apply Z.eqb_neq in E. destruct Htot; [contradiction | assumption]. }
    assert (Result (total_step res) = Result res) as HR
      by (unfold total_step; destruct (ResultTotal res =? 0); reflexivity).
    assert (Req (total_step res) = Req res) as HQ
      by (unfold total_step; destruct (ResultTotal res =? 0); reflexivity).
    set (res1 := total_step res) in *.
    assert (exists r1, offset_step res1 = Ok r1 /\ Req r1 = Req res /\
              ResultTotal r1 = n /\ slice_wf (Result r1) /\
              elems (Result r1) = drop (Z.to_nat off) (elems (Result res)))
      as (r1 & -> & HQ1 & HT1 & Hwf1 & He1).
    { unfold offset_step. rewrite HQ, Htot'. fold off.
      destruct (0 <? off) eqn:E0.
      - destruct (n <? off) eqn:E1.
        + eexists; split; [reflexivity|]. simpl. repeat split; try assumption; try lia.
          apply Z.ltb_lt in E1. symmetry. apply drop_ge.
          fold (len (elems (Result res))) in n. unfold n, slice_len, len in E1. lia.
        + apply Z.ltb_ge in E1. unfold reslice_from. rewrite HR.
          destruct (reslice (Result res) off (slice_len (Result res))) as [r1|] eqn:Er.
          * destruct (reslice_elems _ _ _ _ Hwf Er ltac:(lia)) as [He Hw].
            eexists; split; [reflexivity|]. simpl. repeat split; try assumption.
            rewrite He. apply take_ge. rewrite length_drop.
            unfold slice_len, len. lia.
          * pose proof (slice_len_wf _ Hwf).
            destruct (reslice_ok (Result res) off (slice_len (Result res)))
              as (r1 & Hr1 & _); [lia | fold n; lia | lia | congruence].
      - apply Z.ltb_ge in E0. assert (off = 0) as -> by lia.
        eexists; split; [reflexivity|]. rewrite HQ, Htot', HR. auto. }
    simpl. unfold limit_step. rewrite HQ1, HT1. fold lim.
    assert (slice_len (Result r1) = Z.max (n - off) 0) as Hlen1.
    { unfold slice_len, len. rewrite He1, length_drop.
      unfold n, slice_len, len. lia. }
    destruct (0 <? lim) eqn:E0.
    - destruct (lim <? n) eqn:E1.
      + apply Z.ltb_lt in E0, E1.
        assert (lim <= n - off) as Hl by lia.
        pose proof (slice_len_wf _ Hwf1) as Hcap.
        destruct (reslice (Result r1) 0 lim) as [r2|] eqn:Er.
        * destruct (reslice_elems _ _ _ _ Hwf1 Er ltac:(lia)) as [He Hw].
          simpl. rewrite stats_step_no_stats by (simpl; congruence).
          eexists; split; [reflexivity|]. simpl.
          rewrite He, He1. simpl. f_equal. lia.
        * destruct (reslice_ok (Result r1) 0 lim) as (r2 & Hr2 & _);
            [lia | lia | lia | congruence].
      + apply Z.ltb_ge in E1. apply Z.ltb_lt in E0. simpl.
        rewrite stats_step_no_stats by congruence.
        eexists; split; [reflexivity|]. rewrite He1.
        symmetry. apply take_ge. rewrite length_drop.
        unfold n, slice_len, len in E1. lia.
    - simpl. rewrite stats_step_no_stats by congruence.
      eexists; split; [reflexivity|]. rewrite He1. reflexivity. }
  exists r. split; [assumption|]. split; [assumption|].
  unfold slice_len at 1. unfold len. rewrite Hel.
  destruct (0 <? lim) eqn:E0; simpl.
  - apply Z.ltb_lt in E0. rewrite length_take, length_drop.
    unfold n, slice_len, len. lia.
  - rewrite length_drop. unfold n, slice_len, len. lia.
Qed.

End Pagination.

(** A stats query: a counter and an average that have seen samples. *)
Definition stats_request (limit offset : Z) : Request :=
  {| RTable := "hosts"; RColumns := []; RFilter := [];
     RStats := [ {| StatsType_ := Counter; Stats := 3%float; StatsCount := 3 |};
                 {| StatsType_ := Average; Stats := 7%float; StatsCount := 2 |} ];
     RLimit := limit; ROffset := offset; RSort := []; RBackends := [];
     OutputFormat := "json"; ResponseFixed16 := false;
     SendColumnsHeader := false |}.

(** C1 (code defect).  The claim: after post-processing the result holds
    [min (max (N - Offset) 0) Limit] rows when [Limit > 0], and no row when
    [Offset > N].  The code compares [Limit] with [ResultTotal], not with
    the rows the offset left, so [res.Result[0:Limit]] reaches past them.
    With five rows, [Offset = 3] and [Limit = 4] the claim promises two
    rows: on an exactly sized matrix the code panics, and with spare
    capacity it returns four rows, two of them never filled.  With
    [Offset = 6] and [Limit = 2] the claim promises the empty result and
    the code panics. *)
Theorem C1_limit_reaches_past_offset :
  BuildResponsePostProcessing number_of_cell sort_none
      (response_of (plain_request 4 3) (Slice five_rows 5))
    = Panic "slice bounds out of range"
  /\ (exists r,
        BuildResponsePostProcessing number_of_cell sort_none
          (response_of (plain_request 4 3)
                       (Slice (five_rows ++ [[]; []; []]) 5)) = Ok r
        /\ elems (Result r) = [[VString "d"]; [VString "e"]; []; []]
        /\ slice_len (Result r) <> Z.min (Z.max (5 - 3) 0) 4)
  /\ BuildResponsePostProcessing number_of_cell sort_none
       (response_of (plain_request 2 6) (Slice five_rows 5))
     = Panic "slice bounds out of range".
Proof.
  split; [reflexivity|]. split; [|reflexivity].
  eexists. split; [reflexivity|]. split; [reflexivity|].
  vm_compute. discriminate.
Qed.

(** ** Stats reduction *)

(** The cell the specification promises for a stats entry. *)
Definition stats_value (s : Filter) : Cell :=
  if StatsCount s =? 0 then VInt 0
  else match StatsType_ s with
       | Average =>
           if 0 <? StatsCount s
           then VFloat (PrimFloat.div (Stats s) (float64_of_int (StatsCount s)))
           else VInt 0
       | _ => VFloat (Stats s)
       end.

Definition recognised (s : Filter) : Prop := StatsType_ s <> NoStats.

Lemma stats_cell_value (s : Filter) :
  recognised s -> stats_cell s = Ok (stats_value s).
Proof.
  unfold recognised, stats_cell, stats_value.
  destruct (StatsType_ s); intros H; try congruence; simpl;
    try reflexivity.
  destruct (0 <? StatsCount s); reflexivity.
Qed.

Lemma stats_loop_fills (stats : list Filter) :
  Forall recognised stats ->
  forall (i : nat) (row : Row),
    (i + length stats <= length row)%nat ->
    stats_loop i stats row =
      Ok (take i row ++ map stats_value stats ++ drop (i + length stats) row).
Proof.
  induction 1 as [|s stats Hs _ IH]; intros i row Hlen; simpl in *.
  - rewrite Nat.add_0_r, take_drop. reflexivity.
  - rewrite (stats_cell_value s Hs). simpl.
    rewrite IH by (rewrite length_insert; lia). f_equal.
    rewrite (take_S_r _ _ (stats_value s))
      by (apply list_lookup_insert_eq; lia).
    rewrite take_insert_ge by lia. rewrite drop_insert_lt by lia.
    rewrite <- app_assoc. simpl.
    replace (S (i + length stats)) with (i + S (length stats))%nat by lia.
    reflexivity.
Qed.

Lemma stats_step_summary (res : Response) :
  RStats (Req res) <> [] ->
  Forall recognised (RStats (Req res)) ->
  stats_step res =
    Ok (set_Result res (Slice [map stats_value (RStats (Req res))] 1)).
Proof.
  intros Hne Hrec. unfold stats_step.
  destruct (RStats (Req res)) as [|s stats] eqn:E; [congruence|].
  assert ((0 <? len (s :: stats)) = true) as ->
    by (apply Z.ltb_lt; unfold len; simpl; lia).
  rewrite stats_loop_fills; [|assumption|rewrite length_replicate; lia].
  simpl. rewrite drop_replicate, Nat.sub_diag. simpl.
  rewrite app_nil_r. reflexivity.
Qed.

Section StatsReduction.

Variable NumberToFloat : Cell -> float.
Variable sort_Sort :
  (list Row -> Z -> Z -> outcome bool) -> list Row -> outcome (list Row).

(** The steps that run before the stats reduction. *)
Definition paginate (res : Response) : outcome Response :=
  res ← sort_step NumberToFloat sort_Sort res;
  res ← offset_step (total_step res);
  limit_step res.

Lemma post_paginate_stats (res : Response) :
  BuildResponsePostProcessing NumberToFloat sort_Sort res
  = paginate res ≫= stats_step.
Proof.
  unfold BuildResponsePostProcessing, paginate.
  destruct (sort_step NumberToFloat sort_Sort res) as [r1|]; simpl; [|reflexivity].
  destruct (offset_step (total_step r1)); reflexivity.
Qed.

Lemma sort_step_Req (res r : Response) :
  sort_step NumberToFloat sort_Sort res = Ok r -> Req r = Req res.
Proof.
  unfold sort_step. destruct (0 <? len (RSort (Req res))).
  - destruct (sort_Sort _ _); simpl; intros Heq; inversion Heq; reflexivity.
  - intros Heq; inversion Heq; reflexivity.
Qed.

Lemma total_step_Req (res : Response) : Req (total_step res) = Req res.
Proof. unfold total_step. destruct (ResultTotal res =? 0); reflexivity. Qed.

Lemma offset_step_Req (res r : Response) :
  offset_step res = Ok r -> Req r = Req res.
Proof.
  unfold offset_step.
  destruct (0 <? ROffset (Req res)); [destruct (ResultTotal res <? _)|];
    try destruct (reslice_from _ _); simpl;
    intros Heq; inversion Heq; reflexivity.
Qed.

Lemma limit_step_Req (res r : Response) :
  limit_step res = Ok r -> Req r = Req res.
Proof.
  unfold limit_step.
  destruct (0 <? RLimit (Req res)); [destruct (RLimit (Req res) <? _)|];
    try destruct (reslice _ _ _); simpl;
    intros Heq; inversion Heq; reflexivity.
Qed.

Lemma paginate_Req (res r : Response) :
  paginate res = Ok r -> Req r = Req res.
Proof.
  unfold paginate.
  destruct (sort_step NumberToFloat sort_Sort res) as [r1|] eqn:E1;
    simpl; [|discriminate].
  destruct (offset_step (total_step r1)) as [r2|] eqn:E2;
    simpl; [|discriminate].
  intros E3.
  rewrite (limit_step_Req _ _ E3), (offset_step_Req _ _ E2), total_step_Req.
  exact (sort_step_Req _ _ E1).
Qed.

(** X2.  Once the earlier steps have completed, the matrix is replaced by
    the one summary row, whatever rows they left. *)
Lemma stats_summary_after_pagination (res r0 : Response) :
  RStats (Req res) <> [] ->
  Forall recognised (RStats (Req res)) ->
  paginate res = Ok r0 ->
  BuildResponsePostProcessing NumberToFloat sort_Sort res
  = Ok (set_Result r0 (Slice [map stats_value (RStats (Req res))] 1)).
Proof.
  intros Hne Hrec Hp. rewrite post_paginate_stats, Hp. simpl.
  pose proof (paginate_Req _ _ Hp) as HQ.
  rewrite stats_step_summary; rewrite HQ; auto.
Qed.

End StatsReduction.

(** C2 (code defect, the one of C1).  The claim: with stats present the
    result is the one summary row, whatever the limit and offset.  The
    summary is built after the offset and limit steps, and those panic when
    the limit reaches past the rows the offset left: with five collected
    rows, [Offset = 3] and [Limit = 4] no summary row is produced.  Without
    limit and offset the same request yields the row the claim describes. *)
Theorem C2_summary_lost_to_pagination :
  BuildResponsePostProcessing number_of_cell sort_none
      (response_of (stats_request 4 3) (Slice five_rows 5))
    = Panic "slice bounds out of range"
  /\ (exists r,
        BuildResponsePostProcessing number_of_cell sort_none
          (response_of (stats_request 0 0) (Slice five_rows 5)) = Ok r
        /\ elems (Result r) = [[VFloat 3%float; VFloat 3.5%float]]).
Proof.
  split; [reflexivity|].
  eexists. split; reflexivity.
Qed.

(** ** The comparator: keys that tie and the key that decides *)

(** Byte-wise lexicographic order on strings, the order of Go's [<]: a
    proper prefix comes first, otherwise the first differing byte decides. *)
Inductive lex_lt : string -> string -> Prop :=
| lex_lt_prefix (c : ascii) (s : string) : lex_lt "" (String c s)
| lex_lt_byte (c1 c2 : ascii) (s1 s2 : string) :
    (N_of_ascii c1 < N_of_ascii c2)%N -> lex_lt (String c1 s1) (String c2 s2)
| lex_lt_rest (c : ascii) (s1 s2 : string) :
    lex_lt s1 s2 -> lex_lt (String c s1) (String c s2).

Lemma string_ltb_lex (s1 s2 : string) :
  String.ltb s1 s2 = true <-> lex_lt s1 s2.
Proof.
  unfold String.ltb. revert s2.
  induction s1 as [|c1 s1 IH]; intros [|c2 s2]; simpl.
  - split; [discriminate | inversion 1].
  - split; [constructor | reflexivity].
  - split; [discriminate | inversion 1].
  - destruct (Ascii.compare c1 c2) eqn:E.
    + apply Ascii.compare_eq_iff in E. subst c2. rewrite IH. split.
      * apply lex_lt_rest.
      * inversion 1; subst; [lia | assumption].
    + unfold Ascii.compare in E. apply N.compare_lt_iff in E.
      split; [intros _; apply lex_lt_byte; assumption | reflexivity].
    + unfold Ascii.compare in E. apply N.compare_gt_iff in E.
      split; [discriminate|]. inversion 1; subst; lia.
Qed.

Definition numeric (ty : ColumnType) : bool :=
  match ty with
  | TimeCol | IntCol | FloatCol => true
  | _ => false
  end.

Section Comparator.

Variable NumberToFloat : Cell -> float.

(** The column type and the two cells a sort key looks at. *)
Definition key_cells (cols : list Column) (rows : list Row) (i j : Z)
    (s : SortField) : outcome (ColumnType * Cell * Cell) :=
  col ← index cols (SIndex s);
  a ← cell_at rows i (SIndex s);
  b ← cell_at rows j (SIndex s);
  Ok (Type_ col, a, b).

(** The comparison is defined: a numeric column, or a string column
    holding strings. *)
Definition comparable (ty : ColumnType) (a b : Cell) : bool :=
  match ty, a, b with
  | StringCol, VString _, VString _ => true
  | StringCol, _, _ => false
  | _, _, _ => numeric ty
  end.

(** The two cells compare equal. *)
Definition cells_tie (ty : ColumnType) (a b : Cell) : bool :=
  match ty, a, b with
  | StringCol, VString s1, VString s2 => String.eqb s1 s2
  | StringCol, _, _ => false
  | _, _, _ =>
      numeric ty && PrimFloat.eqb (NumberToFloat a) (NumberToFloat b)
  end.

(** [a] orders strictly before [b]: by value for numbers, byte-wise for
    strings. *)
Definition cell_before (ty : ColumnType) (a b : Cell) : bool :=
  match ty, a, b with
  | StringCol, VString s1, VString s2 => String.ltb s1 s2
  | StringCol, _, _ => false
  | _, _, _ =>
      numeric ty && PrimFloat.ltb (NumberToFloat a) (NumberToFloat b)
  end.

Definition key_ties (cols : list Column) (rows : list Row) (i j : Z)
    (s : SortField) : Prop :=
  exists ty a b,
    key_cells cols rows i j s = Ok (ty, a, b) /\ cells_tie ty a b = true.

Lemma key_cells_inv cols rows i j s ty a b :
  key_cells cols rows i j s = Ok (ty, a, b) ->
  exists col, index cols (SIndex s) = Ok col /\ Type_ col = ty /\
              cell_at rows i (SIndex s) = Ok a /\
              cell_at rows j (SIndex s) = Ok b.
Proof.
  unfold key_cells.
  destruct (index cols (SIndex s)) as [col|]; simpl; [|discriminate].
  destruct (cell_at rows i (SIndex s)) as [a'|]; simpl; [|discriminate].
  destruct (cell_at rows j (SIndex s)) as [b'|]; simpl; [|discriminate].
  intros Heq; inversion Heq; subst. eauto.
Qed.

(** A key whose cells tie hands the decision to the keys after it. *)
Lemma less_keys_tie cols rows i j s rest :
  key_ties cols rows i j s ->
  less_keys NumberToFloat cols rows i j (s :: rest)
  = less_keys NumberToFloat cols rows i j rest.
Proof.
  intros (ty & a & b & Hk & Htie).
  apply key_cells_inv in Hk as (col & Hc & Hty & Ha & Hb).
  simpl. rewrite Hc. simpl. rewrite Hty.
  destruct ty; simpl in Htie; try discriminate;
    rewrite Ha; simpl.
  - destruct a; try discriminate. rewrite Hb. simpl.
    destruct b; try discriminate. rewrite Htie. reflexivity.
  - rewrite Hb. simpl. rewrite Htie. reflexivity.
  - rewrite Hb. simpl. rewrite Htie. reflexivity.
  - rewrite Hb. simpl. rewrite Htie. reflexivity.
Qed.

Lemma less_keys_ties_prefix cols rows i j pre rest :
  Forall (key_ties cols rows i j) pre ->
  less_keys NumberToFloat cols rows i j (pre ++ rest)
  = less_keys NumberToFloat cols rows i j rest.
Proof.
  induction 1 as [|s pre Hs _ IH]; [reflexivity|].
  rewrite <- app_comm_cons, less_keys_tie by assumption. exact IH.
Qed.

(** A key whose cells differ decides, in the direction it asks for. *)
Lemma less_keys_decides cols rows i j s rest ty a b :
  key_cells cols rows i j s = Ok (ty, a, b) ->
  comparable ty a b = true ->
  cells_tie ty a b = false ->
  less_keys NumberToFloat cols rows i j (s :: rest)
  = Ok (match SDirection s with
        | Asc => cell_before ty a b
        | Desc => cell_before ty b a
        end).
Proof.
  intros Hk Hcmp Htie.
  apply key_cells_inv in Hk as (col & Hc & Hty & Ha & Hb).
  simpl. rewrite Hc. simpl. rewrite Hty.
  destruct ty; simpl in Hcmp, Htie; try discriminate;
    rewrite Ha; simpl.
  - destruct a; try discriminate. rewrite Hb. simpl.
    destruct b; try discriminate. rewrite Htie.
    destruct (SDirection s); reflexivity.
  - rewrite Hb. simpl. rewrite Htie. destruct (SDirection s); reflexivity.
  - rewrite Hb. simpl. rewrite Htie. destruct (SDirection s); reflexivity.
  - rewrite Hb. simpl. rewrite Htie. destruct (SDirection s); reflexivity.
Qed.

End Comparator.

(** Two sorted columns over three rows: the first two rows share their
    name, the third does not. *)
Definition sorted_columns : list Column :=
  [ {| Name := "name"; Type_ := StringCol; Index := 0; RefIndex := 0;
       Update := StaticUpdate |};
    {| Name := "state"; Type_ := IntCol; Index := 1; RefIndex := 0;
       Update := DynamicUpdate |} ].

Definition sorted_rows : list Row :=
  [ [VString "alpha"; VInt 2]; [VString "alpha"; VInt 1];
    [VString "beta"; VInt 1] ].

Definition by_name : SortField :=
  {| SName := "name"; SDirection := Asc; SIndex := 0 |}.

Definition by_state_desc : SortField :=
  {| SName := "state"; SDirection := Desc; SIndex := 1 |}.

Definition sorted_response (keys : list SortField) : Response :=
  {| Code := 200; Result := Slice sorted_rows 3; ResultTotal := 0;
     Req := {| RTable := "hosts"; RColumns := ["name"; "state"];
               RFilter := []; RStats := []; RLimit := 0; ROffset := 0;
               RSort := keys; RBackends := []; OutputFormat := "json";
               ResponseFixed16 := false; SendColumnsHeader := false |};
     Error := None; Failed := ∅; RespColumns := sorted_columns |}.



(** A response sorted on a list-typed column, descending. *)
Definition list_sorted_response : Response :=
  {| Code := 200; Result := Slice [[VStringList ["a"; "b"]]] 1;
     ResultTotal := 0;
     Req := {| RTable := "hosts"; RColumns := ["contacts"];
               RFilter := []; RStats := []; RLimit := 0; ROffset := 0;
               RSort := [ {| SName := "contacts"; SDirection := Desc;
                             SIndex := 0 |} ];
               RBackends := []; OutputFormat := "json";
               ResponseFixed16 := false; SendColumnsHeader := false |};
     Error := None; Failed := ∅;
     RespColumns := [ {| Name := "contacts"; Type_ := StringListCol;
                         Index := 0; RefIndex := 0;
                         Update := StaticUpdate |} ] |}.

(** C10, as stated, fails: a row compared with itself does not always give
    [true].  On a list-typed sort column the comparator answers with the
    direction alone, so a descending key makes [Less 0 0] false. *)
Lemma C10_self_comparison_counterexample :
  Less number_of_cell list_sorted_response 0 0 = Ok false.
Proof. reflexivity. Qed.

(** C10, amended.  When every sort key looks at two cells that compare
    equal (a Time, Int or Float column with equal values, or a String
    column with equal strings), [Less] runs out of keys and returns [true]:
    it is not irreflexive on such rows. *)
Theorem C10_less_true_on_ties
    (NumberToFloat : Cell -> float) (res : Response) (i j : Z) :
  Forall (key_ties NumberToFloat (RespColumns res) (elems (Result res)) i j)
         (RSort (Req res)) ->
  Less NumberToFloat res i j = Ok true.
Proof.
  intros Hties. unfold Less, Less_rows.
  rewrite <- (app_nil_r (RSort (Req res))).
  rewrite less_keys_ties_prefix by assumption. reflexivity.
Qed.

(** Row 1 compared with itself, on both keys. *)
Lemma C10_less_true_on_ties_witness :
  Less number_of_cell (sorted_response [by_name; by_state_desc]) 1 1 = Ok true.
Proof.
  apply (C10_less_true_on_ties number_of_cell
           (sorted_response [by_name; by_state_desc]) 1 1).
  constructor; [|constructor; [|constructor]].
  - exists StringCol, (VString "alpha"), (VString "alpha"). split; reflexivity.
  - exists IntCol, (VInt 1), (VInt 1). split; reflexivity.
Defined.

(** ** The column resolver and the backend selector *)

Record VirtKeyMapTupel : Type := mkVirtKey {
  VIndex : Z;
  VKey : string;
  VType : ColumnType
}.

(** [VirtKeyMap]: the virtual columns and the peer status entries behind
    them. *)
Definition VirtKeyMap : gmap string VirtKeyMapTupel :=
  list_to_map
    [ ("key", mkVirtKey (-1) "PeerKey" StringCol);
      ("name", mkVirtKey (-2) "PeerName" StringCol);
      ("addr", mkVirtKey (-4) "PeerAddr" StringCol);
      ("status", mkVirtKey (-5) "PeerStatus" IntCol);
      ("bytes_send", mkVirtKey (-6) "BytesSend" IntCol);
      ("bytes_received", mkVirtKey (-7) "BytesReceived" IntCol);
      ("queries", mkVirtKey (-8) "Querys" IntCol);
      ("last_error", mkVirtKey (-9) "LastError" StringCol);
      ("last_online", mkVirtKey (-10) "LastOnline" TimeCol);
      ("last_update", mkVirtKey (-11) "LastUpdate" TimeCol);
      ("response_time", mkVirtKey (-12) "ReponseTime" FloatCol);
      ("state_order", mkVirtKey (-13) "" IntCol);
      ("last_state_change_order", mkVirtKey (-14) "" IntCol) ].

Definition set_Columns_header (req : Request) (cols : list string)
    (header : bool) : Request :=
  {| RTable := RTable req; RColumns := cols; RFilter := RFilter req;
     RStats := RStats req; RLimit := RLimit req; ROffset := ROffset req;
     RSort := RSort req; RBackends := RBackends req;
     OutputFormat := OutputFormat req;
     ResponseFixed16 := ResponseFixed16 req; SendColumnsHeader := header |}.

Definition set_Sort (req : Request) (sort : list SortField) : Request :=
  {| RTable := RTable req; RColumns := RColumns req; RFilter := RFilter req;
     RStats := RStats req; RLimit := RLimit req; ROffset := ROffset req;
     RSort := sort; RBackends := RBackends req;
     OutputFormat := OutputFormat req;
     ResponseFixed16 := ResponseFixed16 req;
     SendColumnsHeader := SendColumnsHeader req |}.

Definition set_SIndex (s : SortField) (i : Z) : SortField :=
  {| SName := SName s; SDirection := SDirection s; SIndex := i |}.

(** The test of the expansion loop: which table columns a request without
    columns and stats asks for. *)
Definition default_column (col : Column) : bool :=
  bool_decide (Update col = StaticUpdate)
  || bool_decide (Update col = DynamicUpdate)
  || bool_decide (Update col = VirtUpdate)
  || bool_decide (Type_ col = VirtCol).

(** [for _, col := range table.Columns { if ... { req.Columns =
    append(req.Columns, col.Name) } }]. *)
Fixpoint expand_loop (cols : list Column) (acc : list string) : list string :=
  match cols with
  | [] => acc
  | col :: rest =>
      expand_loop rest (if default_column col then acc ++ [Name col] else acc)
  end.

Definition expand_columns (req : Request) (table : Table) : Request :=
  if (len (RColumns req) =? 0) && (len (RStats req) =? 0)
  then set_Columns_header req (expand_loop (Columns table) (RColumns req)) true
  else req.

Section Resolver.

(** [strings.ToLower] of Go's library. *)
Variable ToLower : string -> string.

(** The zero value of [ColumnType], which a failed lookup in [VirtKeyMap]
    yields; the enumeration is declared outside this file. *)
Variable ColumnType_zero : ColumnType.

(** The zero value of [UpdateType], which the resolved columns carry. *)
Variable UpdateType_zero : UpdateType.

Definition virt_key (col : string) : VirtKeyMapTupel :=
  default (mkVirtKey 0 "" ColumnType_zero) (VirtKeyMap !! col).

Record Resolved : Type := mkResolved {
  r_indexes : list Z;
  r_columns : list Column;
  r_map : gmap string Z
}.

(** The loop over the requested columns; [j] is the output position.  It
    stops at the first name the table does not know. *)
Fixpoint resolve_loop (tname : string) (table : Table) (j : Z)
    (cols : list string) (acc : Resolved)
    : outcome (Resolved * option string) :=
  match cols with
  | [] => Ok (acc, None)
  | col :: rest =>
      let col := ToLower col in
      match ColumnsIndex table !! col with
      | None =>
          Ok (acc, Some ("bad request: table " +:+ tname +:+
                         " has no column " +:+ col))
      | Some i =>
          tcol ← index (Columns table) i;
          if bool_decide (Type_ tcol = VirtCol) then
            resolve_loop tname table (j + 1) rest
              {| r_indexes := r_indexes acc ++ [VIndex (virt_key col)];
                 r_columns := r_columns acc ++
                   [ {| Name := col; Type_ := VType (virt_key col);
                        Index := j; RefIndex := i;
                        Update := UpdateType_zero |} ];
                 r_map := <[col := j]> (r_map acc) |}
          else
            resolve_loop tname table (j + 1) rest
              {| r_indexes := r_indexes acc ++ [i];
                 r_columns := r_columns acc ++
                   [ {| Name := col; Type_ := Type_ tcol;
                        Index := j; RefIndex := 0;
                        Update := UpdateType_zero |} ];
                 r_map := <[col := j]> (r_map acc) |}
      end
  end.

(** The loop over the sort fields: each must name a table column that is
    part of the output, and is given its output position ([req.Sort] holds
    pointers, so the assignment reaches the request).  [done] collects the
    fields already visited. *)
Fixpoint sort_loop (tname : string) (table : Table) (rmap : gmap string Z)
    (sort done : list SortField) : list SortField * option string :=
  match sort with
  | [] => (done, None)
  | s :: rest =>
      match ColumnsIndex table !! SName s with
      | None =>
          (done ++ s :: rest,
           Some ("bad request: table " +:+ tname +:+ " has no column " +:+
                 SName s +:+ " to sort"))
      | Some _ =>
          match rmap !! SName s with
          | None =>
              (done ++ s :: rest,
               Some ("bad request: sort column " +:+ SName s +:+
                     " not in result set"))
          | Some i => sort_loop tname table rmap rest (done ++ [set_SIndex s i])
          end
      end
  end.

(** [BuildResponseIndexes]: the request as the call leaves it, the indexes,
    the columns and the error. *)
Definition BuildResponseIndexes (req : Request) (table : Table)
    : outcome (Request * list Z * list Column * option string) :=
  let req := expand_columns req table in
  '(acc, err) ← resolve_loop (RTable req) table 0 (RColumns req)
                   (mkResolved [] [] ∅);
  match err with
  | Some e => Ok (req, r_indexes acc, r_columns acc, Some e)
  | None =>
      let '(sort, err) :=
        sort_loop (RTable req) table (r_map acc) (RSort req) [] in
      Ok (set_Sort req sort, r_indexes acc, r_columns acc, err)
  end.

End Resolver.

(** The columns the specification lists for a request that names none. *)
Definition default_output (col : Column) : Prop :=
  Update col = StaticUpdate \/ Update col = DynamicUpdate \/
  Update col = VirtUpdate \/ Type_ col = VirtCol.

#[global] Instance default_output_dec (col : Column) :
  Decision (default_output col).
Proof. unfold default_output. apply _. Defined.

Lemma default_column_spec (col : Column) :
  default_column col = true <-> default_output col.
Proof.
  unfold default_column, default_output.
  rewrite !orb_true_iff, !bool_decide_eq_true. tauto.
Qed.

Lemma expand_loop_filter (cols : list Column) (acc : list string) :
  expand_loop cols acc = acc ++ (Name <$> filter default_output cols).
Proof.
  revert acc. induction cols as [|col cols IH]; intros acc; simpl.
  - rewrite app_nil_r. reflexivity.
  - rewrite IH, filter_cons.
    destruct (default_column col) eqn:E.
    + apply default_column_spec in E. rewrite decide_True by assumption.
      rewrite fmap_cons, <- app_assoc. reflexivity.
    + rewrite decide_False; [reflexivity|].
      intros H. apply default_column_spec in H. congruence.
Qed.

Section ResolverFacts.

Variable ToLower : string -> string.
Variable ColumnType_zero : ColumnType.
Variable UpdateType_zero : UpdateType.

Local Abbreviation resolve :=
  (BuildResponseIndexes ToLower ColumnType_zero UpdateType_zero).

(** Whatever else the resolver does, the request it leaves behind is the
    expanded one, up to the sort fields. *)
Lemma BuildResponseIndexes_request (req : Request) (table : Table)
    (req' : Request) (idx : list Z) (cols : list Column)
    (err : option string) :
  resolve req table = Ok (req', idx, cols, err) ->
  RColumns req' = RColumns (expand_columns req table) /\
  SendColumnsHeader req' = SendColumnsHeader (expand_columns req table).
Proof.
  unfold BuildResponseIndexes.
  destruct (resolve_loop _ _ _ _ _ _ _ _) as [[acc [e|]]|]; simpl;
    try discriminate.
  - intros Heq; inversion Heq; subst. split; reflexivity.
  - destruct (sort_loop _ _ _ _ _) as [sort e].
    intros Heq; inversion Heq; subst. split; reflexivity.
Qed.

End ResolverFacts.

(** C7.  A request with neither columns nor stats is expanded to the names
    of the table columns whose update policy is Static, Dynamic or
    Virtual-Update or whose type is Virtual, in schema order, and its
    column-header flag is set; this is the request the resolver leaves. *)
Theorem C7_default_columns
    (ToLower : string -> string) (ColumnType_zero : ColumnType)
    (UpdateType_zero : UpdateType) (req : Request) (table : Table) :
  RColumns req = [] -> RStats req = [] ->
  (RColumns (expand_columns req table)
     = (Name <$> filter default_output (Columns table))
   /\ SendColumnsHeader (expand_columns req table) = true)
  /\ forall req' idx cols err,
       BuildResponseIndexes ToLower ColumnType_zero UpdateType_zero req table
         = Ok (req', idx, cols, err) ->
       RColumns req' = (Name <$> filter default_output (Columns table))
       /\ SendColumnsHeader req' = true.
Proof.
  intros Hc Hs.
  assert (RColumns (expand_columns req table)
            = (Name <$> filter default_output (Columns table))
          /\ SendColumnsHeader (expand_columns req table) = true) as Hexp.
  { unfold expand_columns. rewrite Hc, Hs. simpl.
    rewrite expand_loop_filter. split; reflexivity. }
  split; [exact Hexp|].
  intros req' idx cols err Hres.
  apply BuildResponseIndexes_request in Hres as [-> ->]. exact Hexp.
Qed.

(** ** Peers and the passthrough collector *)

(** The values kept in a peer's status map. *)
Inductive StatusValue : Type :=
| SVStatus (s : PeerStatus)
| SVBool (b : bool)
| SVString (s : string)
| SVInt (z : Z)
| SVFloat (f : float).

Record Peer : Type := mkPeer {
  ID : string;
  PName : string;
  Status : gmap string StatusValue
}.

(** The zero [Peer], which a failed lookup in [DataStore] yields. *)
Definition zeroPeer : Peer := {| ID := ""; PName := ""; Status := ∅ |}.

(** The type assertions [p.Status[k].(PeerStatus)] and
    [p.Status[k].(bool)]. *)
Definition status_PeerStatus (p : Peer) : outcome PeerStatus :=
  match Status p !! "PeerStatus" with
  | Some (SVStatus s) => Ok s
  | _ => Panic "interface conversion"
  end.

Definition status_bool (p : Peer) (k : string) : outcome bool :=
  match Status p !! k with
  | Some (SVBool b) => Ok b
  | _ => Panic "interface conversion"
  end.

(** What the engine is seen to do to its collaborators. *)
Inductive Event : Type :=
| EvSpinUp (ids : list string)
| EvLocalData (id : string)
| EvQuery (id : string)
| EvPostProcessing.

(** [append(s, xs...)]: in place while the capacity lasts, otherwise into a
    new array; [spare n] is the room the run-time leaves behind [n]
    elements, filled with the zero value. *)
Definition append_slice {A} (spare : nat -> nat) (zero : A)
    (s : slice A) (xs : list A) : slice A :=
  let n := (length (elems s) + length xs)%nat in
  match s with
  | NilSlice =>
      match xs with
      | [] => NilSlice
      | _ => Slice (xs ++ replicate (spare n) zero) n
      end
  | Slice b l =>
      if (n <=? length b)%nat
      then Slice (take l b ++ xs ++ drop n b) n
      else Slice (take l b ++ xs ++ replicate (spare n) zero) n
  end.

(** [copy(row[d:], row[s:])] within one array: the overlapping move. *)
Definition copy_within {A} (row : list A) (d s : nat) : list A :=
  let dst := drop d row in
  let src := drop s row in
  let n := Nat.min (length dst) (length src) in
  take d row ++ take n src ++ drop n dst.

(** [row[i] = v]. *)
Definition set_index {A} (row : list A) (i : Z) (v : A) : outcome (list A) :=
  if (0 <=? i) && (i <? len row) then Ok (<[Z.to_nat i := v]> row)
  else Panic "index out of range".


(** The body of the loop over the virtual columns, for one column at
    output position [i] whose value is computed by [value]. *)
Definition splice_one (value : Row -> Cell) (i : Z) (row : Row)
    : outcome Row :=
  let row := row ++ [VInt 0] in
  if (0 <=? i) && (i + 1 <=? len row) then
    let row := copy_within row (Z.to_nat (i + 1)) (Z.to_nat i) in
    set_index row i (value row)
  else Panic "slice bounds out of range".

Section Collector.

(** [peer.Query] and [peer.GetRowValue] of the peer layer. *)
Variable Query : Peer -> Request -> list Row * option string.
Variable GetRowValue : Peer -> Z -> Row -> Z -> Table -> Z -> Cell.

(** [fmt.Sprintf("%v", v)] on status values other than strings. *)
Variable fmt_other : StatusValue -> string.

Variable spare : nat -> nat.

Variable DataStore : gmap string Peer.

Definition Sprintf_v (v : option StatusValue) : string :=
  match v with
  | None => "<nil>"
  | Some (SVString s) => s
  | Some x => fmt_other x
  end.

Definition peer_of (id : string) : Peer := default zeroPeer (DataStore !! id).

(** [for _, col := range virtColumns { ... }] on one row. *)
Fixpoint splice_row (peer : Peer) (table : Table) (numPerRow : Z) (j : Z)
    (virtColumns : list Column) (row : Row) : outcome Row :=
  match virtColumns with
  | [] => Ok row
  | col :: rest =>
      row ← splice_one
              (fun r => GetRowValue peer (RefIndex col) r j table numPerRow)
              (Index col) row;
      splice_row peer table numPerRow j rest row
  end.

(** [for j, row := range result { ...; result[j] = row }]. *)
Fixpoint splice_rows (peer : Peer) (table : Table) (numPerRow : Z) (j : Z)
    (virtColumns : list Column) (result : list Row) : outcome (list Row) :=
  match result with
  | [] => Ok []
  | row :: rest =>
      row ← splice_row peer table numPerRow j virtColumns row;
      rest ← splice_rows peer table numPerRow (j + 1) virtColumns rest;
      Ok (row :: rest)
  end.

Definition insert_virtual (peer : Peer) (table : Table) (numPerRow : Z)
    (virtColumns : list Column) (result : list Row) : outcome (list Row) :=
  if 0 <? len virtColumns
  then splice_rows peer table numPerRow 0 virtColumns result
  else Ok result.

(** The columns asked of the backend and the virtual ones filled in here. *)
Definition backendColumns (columns : list Column) : list string :=
  Name <$> filter (fun col => ¬ (0 < RefIndex col)) columns.

Definition virtColumns (columns : list Column) : list Column :=
  filter (fun col => 0 < RefIndex col) columns.

Definition passthroughRequest (req : Request) (columns : list Column)
    : Request :=
  {| RTable := RTable req; RColumns := backendColumns columns;
     RFilter := RFilter req; RStats := RStats req; RLimit := RLimit req;
     ROffset := 0; RSort := []; RBackends := [];
     OutputFormat := "json"; ResponseFixed16 := true;
     SendColumnsHeader := false |}.

(** Where one concurrent unit stands.  The steps are cut at the accesses
    to what the units share: the enclosing function's result [err], which
    every unit assigns and tests, [res.Failed] and [res.Result].  The
    append to [res.Result] is taken as one step, as the lock around it
    intends, although every iteration creates a lock of its own. *)
Inductive PC : Type :=
| AtQuery
| AtCheck (result : list Row)
| AtFail
| AtMerge (result : list Row)
| Finished.

Record Unit : Type := mkUnit { u_peer : Peer; u_pc : PC }.

Record PTState : Type := mkPT {
  pt_res : Response;
  pt_err : option string;
  pt_todo : list string;
  pt_units : list Unit;
  pt_trace : list Event
}.

Definition pt_with_res (st : PTState) (res : Response) : PTState :=
  {| pt_res := res; pt_err := pt_err st; pt_todo := pt_todo st;
     pt_units := pt_units st; pt_trace := pt_trace st |}.

Definition pt_with_unit (st : PTState) (k : nat) (pc : PC) : PTState :=
  {| pt_res := pt_res st; pt_err := pt_err st; pt_todo := pt_todo st;
     pt_units := alter (fun u => mkUnit (u_peer u) pc) k (pt_units st);
     pt_trace := pt_trace st |}.

(** One iteration of the loop over the peers, run by the caller: a peer
    that is down is recorded and skipped, any other gets its unit. *)
Definition launcher_step (st : PTState) : outcome PTState :=
  match pt_todo st with
  | [] => Ok st
  | id :: rest =>
      let p := peer_of id in
      status ← status_PeerStatus p;
      if bool_decide (status = PeerStatusDown) then
        Ok {| pt_res := set_Failed (pt_res st)
                          (<[ID p := Sprintf_v (Status p !! "LastError")]>
                             (Failed (pt_res st)));
              pt_err := pt_err st; pt_todo := rest;
              pt_units := pt_units st; pt_trace := pt_trace st |}
      else
        Ok {| pt_res := pt_res st; pt_err := pt_err st; pt_todo := rest;
              pt_units := pt_units st ++ [mkUnit p AtQuery];
              pt_trace := pt_trace st |}
  end.

(** One step of unit [k]. *)
Definition unit_step (table : Table) (columns : list Column) (numPerRow : Z)
    (st : PTState) (k : nat) : outcome PTState :=
  match pt_units st !! k with
  | None => Ok st
  | Some u =>
      let p := u_peer u in
      match u_pc u with
      | AtQuery =>
          let '(result, e) :=
            Query p (passthroughRequest (Req (pt_res st)) columns) in
          Ok (pt_with_unit
                {| pt_res := pt_res st; pt_err := e; pt_todo := pt_todo st;
                   pt_units := pt_units st;
                   pt_trace := pt_trace st ++ [EvQuery (ID p)] |}
                k (AtCheck result))
      | AtCheck result =>
          match pt_err st with
          | Some _ => Ok (pt_with_unit st k AtFail)
          | None => Ok (pt_with_unit st k (AtMerge result))
          end
      | AtFail =>
          match pt_err st with
          | Some msg =>
              Ok (pt_with_unit
                    (pt_with_res st
                       (set_Failed (pt_res st)
                          (<[ID p := msg]> (Failed (pt_res st)))))
                    k Finished)
          | None => Panic "nil pointer dereference"
          end
      | AtMerge result =>
          result ← insert_virtual p table numPerRow (virtColumns columns)
                     result;
          Ok (pt_with_unit
                (pt_with_res st
                   (set_Result (pt_res st)
                      (append_slice spare [] (Result (pt_res st)) result)))
                k Finished)
      | Finished => Ok st
      end
  end.

(** A schedule names who moves next: [0] the caller's loop, [S k] unit
    [k]. *)
Definition sched_step (table : Table) (columns : list Column) (numPerRow : Z)
    (st : PTState) (who : nat) : outcome PTState :=
  match who with
  | O => launcher_step st
  | S k => unit_step table columns numPerRow st k
  end.

Fixpoint run_sched (table : Table) (columns : list Column) (numPerRow : Z)
    (sched : list nat) (st : PTState) : outcome PTState :=
  match sched with
  | [] => Ok st
  | who :: rest =>
      st ← sched_step table columns numPerRow st who;
      run_sched table columns numPerRow rest st
  end.

(** What is left once the schedule is used up: the caller finishes its
    loop, then waits while every unit runs to its end (a unit has at most
    three steps). *)
Definition drain (st : PTState) : list nat :=
  replicate (length (pt_todo st)) O ++
  flat_map (fun k => [S k; S k; S k])
           (seq 0 (length (pt_units st) + length (pt_todo st))).

(** [BuildPassThroughResult] under a schedule: the response and the
    function's result [err] when the wait returns. *)
Definition BuildPassThroughResult (sched : list nat) (res : Response)
    (peers : list string) (table : Table) (columns : list Column)
    (numPerRow : Z) (trace : list Event) : outcome PTState :=
  let st := {| pt_res := set_Result res make_empty; pt_err := None;
               pt_todo := peers; pt_units := []; pt_trace := trace |} in
  st ← run_sched table columns numPerRow sched st;
  run_sched table columns numPerRow (drain st) st.

End Collector.

(** ** A passthrough scenario: three peers, one down, one failing *)

Definition peer_up (id : string) : Peer :=
  {| ID := id; PName := id;
     Status := {[ "PeerStatus" := SVStatus PeerStatusUp;
                  "Idling" := SVBool false;
                  "LastError" := SVString "" ]} |}.

Definition peer_down (id err : string) : Peer :=
  {| ID := id; PName := id;
     Status := {[ "PeerStatus" := SVStatus PeerStatusDown;
                  "Idling" := SVBool false;
                  "LastError" := SVString err ]} |}.

Definition three_peers : gmap string Peer :=
  {[ "A" := peer_up "A"; "B" := peer_down "B" "connection refused";
     "C" := peer_up "C" ]}.

Definition rows_of_A : list Row := [[VString "host1"]; [VString "host2"]].

(** A answers with two rows, C's call fails. *)
Definition scenario_Query (p : Peer) (req : Request)
    : list Row * option string :=
  if String.eqb (ID p) "A" then (rows_of_A, None)
  else if String.eqb (ID p) "C" then ([], Some "read timeout")
  else ([], None).

Definition no_virtual_value (p : Peer) (ref : Z) (row : Row) (j : Z)
    (t : Table) (n : Z) : Cell := VNil.

Definition fmt_none (v : StatusValue) : string := "".

Definition exact_fit (n : nat) : nat := 0%nat.

Definition log_table : Table :=
  {| TName := "log";
     Columns := [ {| Name := "message"; Type_ := StringCol; Index := 0;
                     RefIndex := 0; Update := DynamicUpdate |} ];
     ColumnsIndex := {[ "message" := 0 ]};
     PassthroughOnly := true; DynamicColCacheIndexes := [] |}.

Definition log_columns : list Column :=
  [ {| Name := "message"; Type_ := StringCol; Index := 0; RefIndex := 0;
       Update := StaticUpdate |} ].

Definition log_request : Request :=
  {| RTable := "log"; RColumns := ["message"]; RFilter := []; RStats := [];
     RLimit := 0; ROffset := 0; RSort := []; RBackends := [];
     OutputFormat := "wrapped_json"; ResponseFixed16 := true;
     SendColumnsHeader := false |}.

Definition log_response : Response :=
  {| Code := 200; Result := NilSlice; ResultTotal := 0; Req := log_request;
     Error := None; Failed := ∅; RespColumns := log_columns |}.

Definition scenario (sched : list nat) : outcome PTState :=
  BuildPassThroughResult scenario_Query no_virtual_value fmt_none exact_fit
    three_peers sched log_response ["A"; "B"; "C"] log_table log_columns 1 [].

(** What the caller sees when the collector returns. *)
Definition collected (o : outcome PTState)
    : option (list Row * gmap string string * option string * list Event) :=
  match o with
  | Ok st => Some (elems (Result (pt_res st)), Failed (pt_res st),
                   Error (pt_res st), pt_trace st)
  | Panic _ => None
  end.

(** C3 (code defect).  The claim: with peers A, B (down) and C (failing)
    the result holds exactly A's rows and [Failed] names B and C.  That is
    what happens when the units run one after the other.  But the units
    assign the outcome of their call to the one [err] of the enclosing
    function and test it afterwards: when C's call fails after A's call
    has returned and before A tests [err], A finds C's error, records it
    under its own id and drops its rows.  In neither run is B queried or
    [Response.Error] set. *)
Theorem C3_shared_err_drops_rows :
  collected (scenario [])
    = Some (rows_of_A,
            {[ "B" := "connection refused"; "C" := "read timeout" ]},
            None, [EvQuery "A"; EvQuery "C"])
  /\ collected (scenario [0; 0; 0; 1; 2; 1; 1]%nat)
    = Some ([],
            {[ "A" := "read timeout"; "B" := "connection refused";
               "C" := "read timeout" ]},
            None, [EvQuery "A"; EvQuery "C"]).
Proof. split; vm_compute; reflexivity. Qed.

(** ** Splicing virtual columns into a row *)





Section Splice.

Variable GetRowValue : Peer -> Z -> Row -> Z -> Table -> Z -> Cell.
Variable peer : Peer.
Variable table : Table.
Variable numPerRow : Z.
Variable j : Z.

Local Abbreviation splice := (splice_row GetRowValue peer table numPerRow j).









End Splice.





(** ** The wire encoder *)

(** The double quote, as a string. *)
Definition dq : string := String "034"%char "".

(** A line feed, as a string. *)
Definition nl : string := String "010"%char "".

(** [fmt.Sprintf("%d %11d\n", code, size)]. *)
Definition status_line (code size : Z) : string :=
  itoa code +:+ " " +:+ pad_left 11 (itoa size) +:+ nl.

(** [for i, v := range res.Request.Columns { cols[i] = v }]. *)
Fixpoint fill_names (i : nat) (names : list string) (cols : Row) : Row :=
  match names with
  | [] => cols
  | v :: rest => fill_names (S i) rest (<[i := VString v]> cols)
  end.

(** The header row: a cell per column and per stats entry, the columns'
    cells set to their names. *)
Definition header_row (req : Request) : Row :=
  fill_names 0 (RColumns req)
    (replicate (Z.to_nat (len (RColumns req) + len (RStats req))) VNil).

Section Sender.

(** [json.Marshal] of Go's library, on a row and on the failure map:
    the bytes, or the error. *)
Variable json_Marshal : Row -> string + string.
Variable json_Marshal_map : gmap string string -> string.

Variable spare : nat -> nat.

(** The connection: [Write] hands back the connection, the number of
    bytes written and the error. *)
Variable Conn : Type.
Variable Write : Conn -> string -> Conn * (Z * option string).

Definition add_header (res : Response) : Response :=
  if SendColumnsHeader (Req res) then
    let result := append_slice spare [] NilSlice [header_row (Req res)] in
    set_Result res (append_slice spare [] result (elems (Result res)))
  else res.

(** [for i, row := range res.Result { ... }]: the rows, separated by a
    comma and a line feed; the first row that cannot be encoded ends it. *)
Fixpoint marshal_rows (i : nat) (rows : list Row) (resBytes : string)
    : string + string :=
  match rows with
  | [] => inl resBytes
  | row :: rest =>
      match json_Marshal row with
      | inr jerr => inr jerr
      | inl rowBytes =>
          let resBytes :=
            match i with
            | O => resBytes
            | S _ => resBytes +:+ "," +:+ nl
            end in
          marshal_rows (S i) rest (resBytes +:+ rowBytes)
      end
  end.

Definition is_json (fmt : string) : bool :=
  String.eqb fmt "json" || String.eqb fmt "".

Definition is_wrapped (fmt : string) : bool := String.eqb fmt "wrapped_json".

(** The body: the error text, or the rows in the requested format. *)
Definition body (res : Response) : string + string :=
  match Error res with
  | Some e => inl e
  | None =>
      if is_nil (Result res) then inl ""
      else
        let fmt := OutputFormat (Req res) in
        let resBytes := "" in
        let resBytes :=
          if is_wrapped fmt
          then resBytes +:+ "{" +:+ dq +:+ "data" +:+ dq +:+ ":["
          else resBytes in
        let resBytes := if is_json fmt then resBytes +:+ "[" else resBytes in
        match (if is_wrapped fmt || is_json fmt
               then match marshal_rows 0 (elems (Result res)) resBytes with
                    | inl b => inl (b +:+ "]")
                    | inr e => inr e
                    end
               else inl resBytes) with
        | inr e => inr e
        | inl resBytes =>
            inl (if is_wrapped fmt
                 then resBytes +:+ nl +:+ "," +:+ dq +:+ "failed" +:+ dq +:+
                      ":" +:+ json_Marshal_map (Failed res) +:+
                      nl +:+ "," +:+ dq +:+ "total" +:+ dq +:+ ":" +:+
                      itoa (ResultTotal res) +:+ "}"
                 else resBytes)
        end
  end.

Record Sent : Type := mkSent {
  s_res : Response;
  s_conn : Conn;
  s_writes : list string;
  s_size : Z;
  s_err : option string;
  s_counted : option Z
}.

(** [Send]: the response as it is left, the connection, the payloads
    handed to [Write] in order, the results [size] and [err], and the
    amount given to the bytes-sent counter. *)
Definition Send (res : Response) (c : Conn) : Sent :=
  let res := add_header res in
  match body res with
  | inr jerr =>
      {| s_res := res; s_conn := c; s_writes := []; s_size := 0;
         s_err := Some jerr; s_counted := None |}
  | inl resBytes =>
      let size := Z.of_nat (String.length resBytes) + 1 in
      let '(c, writes) :=
        if ResponseFixed16 (Req res)
        then (fst (Write c (status_line (Code res) size)),
              [status_line (Code res) size])
        else (c, []) in
      let '(c, _) := Write c resBytes in
      let '(c, (_, err)) := Write c nl in
      {| s_res := res; s_conn := c; s_writes := writes ++ [resBytes; nl];
         s_size := size; s_err := err;
         s_counted := Some (Z.of_nat (String.length resBytes)) |}
  end.

Lemma add_header_Req (res : Response) : Req (add_header res) = Req res.
Proof. unfold add_header. destruct (SendColumnsHeader (Req res)); reflexivity. Qed.

Lemma add_header_Code (res : Response) : Code (add_header res) = Code res.
Proof. unfold add_header. destruct (SendColumnsHeader (Req res)); reflexivity. Qed.

(** What goes out once the body is encoded: the status line when fixed
    framing is asked for, the body, a line feed. *)
Lemma Send_writes (res : Response) (c : Conn) (b : string) :
  body (add_header res) = inl b ->
  s_writes (Send res c)
  = (if ResponseFixed16 (Req res)
     then [status_line (Code res) (Z.of_nat (String.length b) + 1)]
     else []) ++ [b; nl].
Proof.
  intros Hb. unfold Send. rewrite Hb, add_header_Req, add_header_Code.
  destruct (ResponseFixed16 (Req res)); simpl;
    repeat match goal with
           | |- context [Write ?c ?s] => destruct (Write c s) as [? [? ?]]
           end; reflexivity.
Qed.

(** A row that cannot be encoded: nothing is written. *)
Lemma Send_aborts (res : Response) (c : Conn) (e : string) :
  body (add_header res) = inr e ->
  s_writes (Send res c) = [] /\ s_err (Send res c) = Some e.
Proof. intros Hb. unfold Send. rewrite Hb. split; reflexivity. Qed.

End Sender.

Arguments s_res {Conn} _.
Arguments s_conn {Conn} _.
Arguments s_writes {Conn} _.
Arguments s_size {Conn} _.
Arguments s_err {Conn} _.
Arguments s_counted {Conn} _.

Lemma elems_append_slice {A} (spare : nat -> nat) (zero : A)
    (s : slice A) (xs : list A) :
  slice_wf s ->
  elems (append_slice spare zero s xs) = elems s ++ xs /\
  slice_wf (append_slice spare zero s xs).
Proof.
  destruct s as [|b l]; simpl.
  - intros _. destruct xs as [|x xs]; simpl; [split; [reflexivity|exact I]|].
    split.
    + rewrite take_app_length'; [reflexivity | simpl; lia].
    + rewrite length_app. simpl. lia.
  - intros Hl. rewrite length_take.
    replace (Nat.min l (length b)) with l by lia.
    destruct (l + length xs <=? length b)%nat eqn:E; simpl.
    + apply Nat.leb_le in E. split.
      * rewrite app_assoc.
        rewrite take_app_length'; [reflexivity|].
        rewrite length_app, length_take. lia.
      * rewrite !length_app, length_take, length_drop. lia.
    + split.
      * rewrite app_assoc.
        rewrite take_app_length'; [reflexivity|].
        rewrite length_app, length_take. lia.
      * rewrite !length_app, length_take. lia.
Qed.

Lemma fill_names_fills (names : list string) :
  forall (i : nat) (cols : Row),
    (i + length names <= length cols)%nat ->
    fill_names i names cols
    = take i cols ++ (VString <$> names) ++ drop (i + length names) cols.
Proof.
  induction names as [|v names IH]; intros i cols Hlen; simpl in *.
  - rewrite Nat.add_0_r, take_drop. reflexivity.
  - rewrite IH by (rewrite length_insert; lia).
    rewrite (take_S_r _ _ (VString v))
      by (apply list_lookup_insert_eq; lia).
    rewrite take_insert_ge by lia. rewrite drop_insert_lt by lia.
    rewrite <- app_assoc. simpl.
    replace (S (i + length names)) with (i + S (length names))%nat by lia.
    reflexivity.
Qed.

(** The header row read off: the column names, then one empty cell for
    every stats entry. *)
Lemma header_row_cells (req : Request) :
  header_row req
  = (VString <$> RColumns req) ++ replicate (length (RStats req)) VNil.
Proof.
  unfold header_row, len.
  replace (Z.to_nat (Z.of_nat (length (RColumns req)) +
                     Z.of_nat (length (RStats req))))
    with (length (RColumns req) + length (RStats req))%nat by lia.
  rewrite fill_names_fills by (rewrite length_replicate; lia).
  simpl. rewrite drop_replicate. f_equal. f_equal. lia.
Qed.

Lemma string_length_app (s1 s2 : string) :
  String.length (s1 +:+ s2) = (String.length s1 + String.length s2)%nat.
Proof. induction s1 as [|c s1 IH]; simpl; [reflexivity | rewrite IH; reflexivity]. Qed.

Lemma spaces_length (n : nat) : String.length (spaces n) = n.
Proof. induction n as [|n IH]; simpl; [reflexivity | rewrite IH; reflexivity]. Qed.

(** Right-justified: the text at the end, spaces before it up to the
    width. *)
Lemma pad_left_length (width : nat) (s : string) :
  String.length (pad_left width s) = Nat.max width (String.length s).
Proof. unfold pad_left. rewrite string_length_app, spaces_length. lia. Qed.

(** C8.  An encoded body [b] goes out as: the status line (the code, a
    space, the length of [b] plus one right-justified in eleven columns,
    a line feed) when fixed framing is asked for; then [b]; then a line
    feed, with or without framing.  The size returned is that length. *)
Theorem C8_fixed_framing
    (json_Marshal : Row -> string + string)
    (json_Marshal_map : gmap string string -> string)
    (spare : nat -> nat) (Conn : Type)
    (Write : Conn -> string -> Conn * (Z * option string))
    (res : Response) (c : Conn) (b : string) :
  body json_Marshal json_Marshal_map (add_header spare res) = inl b ->
  let size := Z.of_nat (String.length b) + 1 in
  let field := spaces (11 - String.length (itoa size)) +:+ itoa size in
  let sent := Send json_Marshal json_Marshal_map spare Conn Write res c in
  s_writes sent
  = (if ResponseFixed16 (Req res)
     then [itoa (Code res) +:+ " " +:+ field +:+ nl]
     else []) ++ [b; nl]
  /\ s_size sent = size
  /\ String.length field = Nat.max 11 (String.length (itoa size)).
Proof.
  intros Hb size field sent. split; [|split].
  - apply Send_writes. exact Hb.
  - unfold sent, Send. rewrite Hb, add_header_Req.
    destruct (ResponseFixed16 (Req res)); simpl;
      repeat match goal with
             | |- context [Write ?c ?s] => destruct (Write c s) as [? [? ?]]
             end; reflexivity.
  - apply (pad_left_length 11 (itoa size)).
Qed.

(** A connection that records what it is given. *)
Definition record_Write (c : list string) (s : string)
    : list string * (Z * option string) :=
  (c ++ [s], (Z.of_nat (String.length s), None)).

Definition no_rows_Marshal (row : Row) : string + string := inl "[]".

Definition no_map_Marshal (m : gmap string string) : string := "{}".

(** A response whose body is the 42 bytes of an error text. *)
Definition error_response : Response :=
  {| Code := 200; Result := NilSlice; ResultTotal := 0;
     Req := {| RTable := "hosts"; RColumns := ["foo"]; RFilter := [];
               RStats := []; RLimit := 0; ROffset := 0; RSort := [];
               RBackends := []; OutputFormat := "json";
               ResponseFixed16 := true; SendColumnsHeader := false |};
     Error := Some "bad request: table hosts has no column foo";
     Failed := ∅; RespColumns := [] |}.

(** A body of 42 bytes under code 200: the status line is
    [200          43] and a line feed. *)
Lemma C8_fixed_framing_witness :
  String.length "bad request: table hosts has no column foo" = 42%nat
  /\ s_writes (Send no_rows_Marshal no_map_Marshal exact_fit (list string)
                 record_Write error_response [])
     = [ "200          43" +:+ nl;
         "bad request: table hosts has no column foo"; nl ]
  /\ s_size (Send no_rows_Marshal no_map_Marshal exact_fit (list string)
                record_Write error_response []) = 43.
Proof.
  split; [reflexivity|].
  destruct (C8_fixed_framing no_rows_Marshal no_map_Marshal exact_fit
              (list string) record_Write error_response []
              "bad request: table hosts has no column foo" eq_refl)
    as (Hw & Hs & _).
  split; [rewrite Hw | rewrite Hs]; reflexivity.
Defined.

(** A stats query that also names a column and asks for the header. *)
Definition header_stats_response : Response :=
  {| Code := 200; Result := Slice [[VString "alpha"; VFloat 3%float]] 1;
     ResultTotal := 1;
     Req := {| RTable := "hosts"; RColumns := ["name"]; RFilter := [];
               RStats := [ {| StatsType_ := Counter; Stats := 3%float;
                              StatsCount := 3 |} ];
               RLimit := 0; ROffset := 0; RSort := []; RBackends := [];
               OutputFormat := "json"; ResponseFixed16 := false;
               SendColumnsHeader := true |};
     Error := None; Failed := ∅; RespColumns := [] |}.

(** C9, as stated, fails: the header row holds no label for a stats
    entry.  Its cell is allocated and never assigned, so it stays empty. *)
Lemma C9_stats_cell_counterexample :
  elems (Result (s_res (Send no_rows_Marshal no_map_Marshal exact_fit
                          (list string) record_Write
                          header_stats_response [])))
  = [ [VString "name"; VNil]; [VString "alpha"; VFloat 3%float] ].
Proof. reflexivity. Qed.

(** C9, amended.  With the header flag set, [Send] puts exactly one row in
    front of the result: the requested column names followed by one empty
    cell for every stats entry, so one cell per column and per stats
    entry. *)
Theorem C9_header_row
    (json_Marshal : Row -> string + string)
    (json_Marshal_map : gmap string string -> string)
    (spare : nat -> nat) (Conn : Type)
    (Write : Conn -> string -> Conn * (Z * option string))
    (res : Response) (c : Conn) :
  SendColumnsHeader (Req res) = true ->
  let header := (VString <$> RColumns (Req res)) ++
                replicate (length (RStats (Req res))) VNil in
  elems (Result (s_res (Send json_Marshal json_Marshal_map spare Conn Write
                          res c)))
  = header :: elems (Result res)
  /\ len header = len (RColumns (Req res)) + len (RStats (Req res)).
Proof.
  intros Hflag header. split.
  - assert (Result (s_res (Send json_Marshal json_Marshal_map spare Conn
                             Write res c))
            = Result (add_header spare res)) as ->.
    { unfold Send. destruct (body _ _ _) as [b|e]; [|reflexivity].
      destruct (ResponseFixed16 _); simpl;
        repeat match goal with
               | |- context [Write ?c ?s] => destruct (Write c s) as [? [? ?]]
               end; reflexivity. }
    unfold add_header. rewrite Hflag. unfold set_Result. cbn [Result].
    destruct (elems_append_slice spare ([] : Row) NilSlice
                [header_row (Req res)] I) as [He Hwf].
    destruct (elems_append_slice spare ([] : Row) _ (elems (Result res)) Hwf)
      as [-> _].
    rewrite He, header_row_cells. reflexivity.
  - unfold header, len. rewrite length_app, length_fmap, length_replicate.
    lia.
Qed.

Lemma C9_header_row_witness :
  elems (Result (s_res (Send no_rows_Marshal no_map_Marshal exact_fit
                          (list string) record_Write
                          header_stats_response [])))
  = ([VString "name"] ++ [VNil]) :: [[VString "alpha"; VFloat 3%float]]
  /\ len ([VString "name"] ++ [VNil]) = 2.
Proof.
  exact (C9_header_row no_rows_Marshal no_map_Marshal exact_fit
           (list string) record_Write header_stats_response [] eq_refl).
Defined.

(** ** Building the response *)

Section Builder.

Variable ToLower : string -> string.
Variable ColumnType_zero : ColumnType.
Variable UpdateType_zero : UpdateType.
Variable NumberToFloat : Cell -> float.
Variable sort_Sort :
  (list Row -> Z -> Z -> outcome bool) -> list Row -> outcome (list Row).
Variable Query : Peer -> Request -> list Row * option string.
Variable GetRowValue : Peer -> Z -> Row -> Z -> Table -> Z -> Cell.
Variable fmt_other : StatusValue -> string.
Variable spare : nat -> nat.

(** The registries [Objects.Tables], [DataStore] and [DataStoreOrder]. *)
Variable Tables : gmap string Table.
Variable DataStore : gmap string Peer.
Variable DataStoreOrder : list string.

(** [BuildLocalResponseData] of the peer layer: the response with the
    peer's cached rows added. *)
Variable BuildLocalResponseData :
  Peer -> Response -> Z -> list Z -> Response.

(** The loop of [ExpandRequestBackends]; it stops at the first backend the
    registry does not know. *)
Fixpoint backends_loop (backends : list string) (m : gmap string string)
    : gmap string string * option string :=
  match backends with
  | [] => (m, None)
  | b :: rest =>
      match DataStore !! b with
      | None => (m, Some ("bad request: backend " +:+ b +:+
                          " does not exist"))
      | Some _ => backends_loop rest (<[b := b]> m)
      end
  end.

Definition ExpandRequestBackends (req : Request)
    : option (gmap string string) * Z * option string :=
  let numBackendsReq := len (RBackends req) in
  if 0 <? numBackendsReq then
    let '(m, err) := backends_loop (RBackends req) ∅ in
    (Some m, numBackendsReq, err)
  else (None, numBackendsReq, None).

(** [!table.PassthroughOnly && p.Status["Idling"].(bool) &&
    len(table.DynamicColCacheIndexes) > 0], evaluated left to right. *)
Definition spin_up_required (table : Table) (p : Peer) : outcome bool :=
  if negb (PassthroughOnly table) then
    idling ← status_bool p "Idling";
    Ok (idling && (0 <? len (DynamicColCacheIndexes table)))
  else Ok false.

(** The loop over [DataStoreOrder]: the peers the request addresses and,
    among them, those to wake. *)
Fixpoint select_loop (table : Table) (backendsMap : option (gmap string string))
    (numBackendsReq : Z) (order : list string)
    (selectedPeers spinUpPeers : list string)
    : outcome (list string * list string) :=
  match order with
  | [] => Ok (selectedPeers, spinUpPeers)
  | id :: rest =>
      let p := peer_of DataStore id in
      if (0 <? numBackendsReq)
         && negb (bool_decide (is_Some (default ∅ backendsMap !! ID p)))
      then select_loop table backendsMap numBackendsReq rest
             selectedPeers spinUpPeers
      else
        spin_up_required table p ≫= fun spin : bool =>
        select_loop table backendsMap numBackendsReq rest
          (selectedPeers ++ [id])
          (if spin then spinUpPeers ++ [id] else spinUpPeers)
  end.

Definition is_meta (table : Table) : bool :=
  String.eqb (TName table) "tables" || String.eqb (TName table) "columns".

(** The loop of the aggregation mode. *)
Fixpoint local_loop (table : Table) (numPerRow : Z) (indexes : list Z)
    (ids : list string) (res : Response) (trace : list Event)
    : Response * list Event :=
  match ids with
  | [] => (res, trace)
  | id :: rest =>
      let res := BuildLocalResponseData (peer_of DataStore id) res
                   numPerRow indexes in
      let trace := trace ++ [EvLocalData id] in
      if is_meta table then (res, trace)
      else local_loop table numPerRow indexes rest res trace
  end.

(** The two meta tables are answered by the first registered peer. *)
Definition meta_peers (table : Table) (selectedPeers : list string)
    : outcome (list string) :=
  if is_meta table then first ← index DataStoreOrder 0; Ok [first]
  else Ok selectedPeers.

(** The collector, in the mode the table asks for. *)
Definition collect (sched : list nat) (table : Table) (indexes : list Z)
    (columns : list Column) (numPerRow : Z) (selectedPeers : list string)
    (res : Response) (trace : list Event)
    : outcome (Response * list Event) :=
  if PassthroughOnly table then
    st ← BuildPassThroughResult Query GetRowValue fmt_other spare DataStore
           sched res selectedPeers table columns numPerRow trace;
    Ok (pt_res st, pt_trace st)
  else Ok (local_loop table numPerRow indexes selectedPeers res trace).

(** [BuildResponse], the units of a passthrough table running under
    [sched]: the response, the error, and what was done to the peers. *)
Definition BuildResponse (sched : list nat) (req : Request)
    : outcome (Response * option string * list Event) :=
  let res := {| Code := 200; Result := NilSlice; ResultTotal := 0;
                Req := req; Error := None; Failed := ∅;
                RespColumns := [] |} in
  let table := default zeroTable (Tables !! RTable req) in
  '(req, indexes, columns, err) ←
    BuildResponseIndexes ToLower ColumnType_zero UpdateType_zero req table;
  let res := set_Req res req in
  match err with
  | Some e => Ok (res, Some e, [])
  | None =>
      let res := set_RespColumns res columns in
      let numPerRow := len indexes in
      let '(backendsMap, numBackendsReq, err) := ExpandRequestBackends req in
      match err with
      | Some e => Ok (res, Some e, [])
      | None =>
          '(selectedPeers, spinUpPeers) ←
            select_loop table backendsMap numBackendsReq DataStoreOrder [] [];
          let trace :=
            if 0 <? len spinUpPeers then [EvSpinUp spinUpPeers] else [] in
          selectedPeers ← meta_peers table selectedPeers;
          '(res, trace) ←
            collect sched table indexes columns numPerRow selectedPeers
              res trace;
          let res := if is_nil (Result res) then set_Result res make_empty
                     else res in
          res ← BuildResponsePostProcessing NumberToFloat sort_Sort res;
          Ok (res, None, trace ++ [EvPostProcessing])
      end
  end.

End Builder.

(** ** Bad requests *)

(** The schema is consistent: the name index points into the column
    list. *)
Definition table_wf (table : Table) : Prop :=
  forall name i, ColumnsIndex table !! name = Some i ->
                 0 <= i < len (Columns table).

Lemma zeroTable_wf : table_wf zeroTable.
Proof. intros name i H. simpl in H. rewrite lookup_empty in H. discriminate. Qed.

Section BadRequest.

Variable ToLower : string -> string.
Variable ColumnType_zero : ColumnType.
Variable UpdateType_zero : UpdateType.
Variable DataStore : gmap string Peer.

(** What an error message names: a requested column the table lacks, a
    sort column the table or the output lacks, a backend the registry
    lacks. *)
Inductive names_offender (req : Request) (table : Table) : string -> Prop :=
| offending_column (c : string) :
    c ∈ RColumns req ->
    ColumnsIndex table !! ToLower c = None ->
    names_offender req table
      ("bad request: table " +:+ RTable req +:+ " has no column " +:+
       ToLower c)
| offending_sort_schema (s : SortField) :
    s ∈ RSort req ->
    ColumnsIndex table !! SName s = None ->
    names_offender req table
      ("bad request: table " +:+ RTable req +:+ " has no column " +:+
       SName s +:+ " to sort")
| offending_sort_output (s : SortField) :
    s ∈ RSort req ->
    SName s ∉ (ToLower <$> RColumns req) ->
    names_offender req table
      ("bad request: sort column " +:+ SName s +:+ " not in result set")
| offending_backend (b : string) :
    b ∈ RBackends req ->
    DataStore !! b = None ->
    names_offender req table
      ("bad request: backend " +:+ b +:+ " does not exist").

Lemma index_in_range {A} (l : list A) (i : Z) :
  0 <= i < len l -> exists a, index l i = Ok a.
Proof.
  unfold len, index. intros Hi.
  assert ((i <? 0) = false) as -> by (apply Z.ltb_ge; lia).
  destruct (lookup_lt_is_Some_2 l (Z.to_nat i)) as [a ->]; [lia|].
  eauto.
Qed.

Lemma resolve_loop_result (tname : string) (table : Table) :
  table_wf table ->
  forall (cols : list string) (j : Z) (acc : Resolved),
  exists acc' err,
    resolve_loop ToLower ColumnType_zero UpdateType_zero tname table j cols acc
      = Ok (acc', err) /\
    match err with
    | Some msg =>
        exists c, c ∈ cols /\ ColumnsIndex table !! ToLower c = None /\
                  msg = "bad request: table " +:+ tname +:+
                        " has no column " +:+ ToLower c
    | None =>
        (forall c, c ∈ cols -> is_Some (ColumnsIndex table !! ToLower c)) /\
        forall k, is_Some (r_map acc' !! k) <->
                  is_Some (r_map acc !! k) \/ k ∈ (ToLower <$> cols)
    end.
Proof.
  intros Hwf. induction cols as [|c cols IH]; intros j acc; simpl.
  - exists acc, None. split; [reflexivity|]. split.
    + intros c Hc. apply elem_of_nil in Hc. contradiction.
    + intros k. rewrite elem_of_nil. tauto.
  - destruct (ColumnsIndex table !! ToLower c) as [i|] eqn:Ei.
    + destruct (index_in_range (Columns table) i (Hwf _ _ Ei)) as [tcol ->].
      simpl.
      destruct (bool_decide (Type_ tcol = VirtCol));
        match goal with
        | |- context [resolve_loop _ _ _ _ _ ?j' _ ?a] =>
            destruct (IH j' a) as (acc' & err & -> & Herr)
        end;
        exists acc', err; (split; [reflexivity|]);
        (destruct err as [msg|];
         [ destruct Herr as (c' & Hin & Hun & ->);
           exists c'; split; [right; exact Hin | auto]
         | destruct Herr as [Hall Herr]; split;
           [ intros c' Hc'; apply elem_of_cons in Hc' as [->|Hc'];
             [rewrite Ei; eauto | auto] |];
           intros k; rewrite Herr; simpl;
           rewrite ?fmap_cons, elem_of_cons, lookup_insert_is_Some;
           change (list_fmap string string ToLower cols)
             with (ToLower <$> cols);
           destruct (decide (ToLower c = k)); subst; intuition congruence ]).
    + exists acc, (Some ("bad request: table " +:+ tname +:+
                          " has no column " +:+ ToLower c)).
      split; [reflexivity|]. exists c. split; [left|]; auto.
Qed.

Lemma sort_loop_result (tname : string) (table : Table)
    (rmap : gmap string Z) (sort : list SortField) :
  forall done : list SortField,
    match snd (sort_loop tname table rmap sort done) with
    | Some msg =>
        exists s, s ∈ sort /\
          ((ColumnsIndex table !! SName s = None /\
            msg = "bad request: table " +:+ tname +:+ " has no column " +:+
                  SName s +:+ " to sort") \/
           (rmap !! SName s = None /\
            msg = "bad request: sort column " +:+ SName s +:+
                  " not in result set"))
    | None =>
        forall s, s ∈ sort ->
          is_Some (ColumnsIndex table !! SName s) /\
          is_Some (rmap !! SName s)
    end.
Proof.
  induction sort as [|s sort IH]; intros done; simpl.
  - intros s Hs. apply elem_of_nil in Hs. contradiction.
  - destruct (ColumnsIndex table !! SName s) as [i|] eqn:Ei; simpl.
    + destruct (rmap !! SName s) as [o|] eqn:Eo; simpl.
      * specialize (IH (done ++ [set_SIndex s o])).
        destruct (snd (sort_loop tname table rmap sort _)) as [msg|].
        -- destruct IH as (s' & Hin & H). exists s'. split; [right|]; auto.
        -- intros s' Hs'. apply elem_of_cons in Hs' as [->|Hs'];
             [split; eauto | auto].
      * exists s. split; [left|]; auto.
    + exists s. split; [left|]; auto.
Qed.

Lemma backends_loop_result (backends : list string) :
  forall m : gmap string string,
    match snd (backends_loop DataStore backends m) with
    | Some msg =>
        exists b, b ∈ backends /\ DataStore !! b = None /\
                  msg = "bad request: backend " +:+ b +:+ " does not exist"
    | None => forall b, b ∈ backends -> is_Some (DataStore !! b)
    end.
Proof.
  induction backends as [|b backends IH]; intros m; simpl.
  - intros b Hb. apply elem_of_nil in Hb. contradiction.
  - destruct (DataStore !! b) as [p|] eqn:Eb; simpl.
    + specialize (IH (<[b := b]> m)).
      destruct (snd (backends_loop DataStore backends _)) as [msg|].
      * destruct IH as (b' & Hin & H). exists b'. split; [right|]; auto.
      * intros b' Hb'. apply elem_of_cons in Hb' as [->|Hb']; eauto.
    + exists b. split; [left|]; auto.
Qed.

End BadRequest.

Lemma expand_columns_fields (req : Request) (table : Table) :
  RTable (expand_columns req table) = RTable req /\
  RSort (expand_columns req table) = RSort req /\
  RBackends (expand_columns req table) = RBackends req.
Proof.
  unfold expand_columns.
  destruct ((len (RColumns req) =? 0) && (len (RStats req) =? 0));
    repeat split; reflexivity.
Qed.

(** C5.  When the request names a column the table does not have, a sort
    column missing from the table or from the resolved output, or a
    backend that is not registered, [BuildResponse] returns an error that
    starts [bad request:] and names an offending table, column or backend;
    nothing has been done to any peer, and the response is as it was
    created: no collector and no post-processor has run. *)
Theorem C5_bad_request_before_peers
    (ToLower : string -> string) (ColumnType_zero : ColumnType)
    (UpdateType_zero : UpdateType) (NumberToFloat : Cell -> float)
    (sort_Sort : (list Row -> Z -> Z -> outcome bool) ->
                 list Row -> outcome (list Row))
    (Query : Peer -> Request -> list Row * option string)
    (GetRowValue : Peer -> Z -> Row -> Z -> Table -> Z -> Cell)
    (fmt_other : StatusValue -> string) (spare : nat -> nat)
    (Tables : gmap string Table) (DataStore : gmap string Peer)
    (DataStoreOrder : list string)
    (BuildLocalResponseData : Peer -> Response -> Z -> list Z -> Response)
    (sched : list nat) (req : Request) :
  let table := default zeroTable (Tables !! RTable req) in
  let req' := expand_columns req table in
  table_wf table ->
  (exists c, c ∈ RColumns req' /\ ColumnsIndex table !! ToLower c = None)
  \/ (exists s, s ∈ RSort req /\
        (ColumnsIndex table !! SName s = None \/
         SName s ∉ (ToLower <$> RColumns req')))
  \/ (exists b, b ∈ RBackends req /\ DataStore !! b = None) ->
  exists res msg,
    BuildResponse ToLower ColumnType_zero UpdateType_zero NumberToFloat
      sort_Sort Query GetRowValue fmt_other spare Tables DataStore
      DataStoreOrder BuildLocalResponseData sched req
    = Ok (res, Some msg, [])
    /\ names_offender ToLower DataStore req' table msg
    /\ (exists rest, msg = "bad request: " +:+ rest)
    /\ Result res = NilSlice /\ ResultTotal res = 0 /\ Failed res = ∅.
Proof.
  intros table req' Hwf Hbad.
  destruct (expand_columns_fields req table) as (HT & HS & HB).
  fold req' in HT, HS, HB.
  assert (forall msg, names_offender ToLower DataStore req' table msg ->
                      exists rest, msg = "bad request: " +:+ rest) as Hpre.
  { intros msg [c _ _|s _ _|s _ _|b _ _]; eexists; reflexivity. }
  unfold BuildResponse, BuildResponseIndexes. fold table. fold req'.
  destruct (resolve_loop_result ToLower ColumnType_zero UpdateType_zero
              (RTable req') table Hwf (RColumns req') 0 (mkResolved [] [] ∅))
    as (acc & err & -> & Herr).
  simpl. destruct err as [msg|]; simpl.
  { destruct Herr as (c & Hin & Hun & ->).
    assert (names_offender ToLower DataStore req' table
              ("bad request: table " +:+ RTable req' +:+ " has no column "
               +:+ ToLower c)) as Hn by (constructor; assumption).
    eexists _, _. split; [reflexivity|].
    split; [exact Hn|]. split; [exact (Hpre _ Hn)|]. auto. }
  destruct Herr as [Hcols Hmap].
  assert (forall k, is_Some (r_map acc !! k) <-> k ∈ (ToLower <$> RColumns req'))
    as Hmap'.
  { intros k. rewrite Hmap. simpl. rewrite lookup_empty.
    split; [intros [[? H]|H]; [discriminate | exact H] | auto]. }
  pose proof (sort_loop_result (RTable req') table (r_map acc) (RSort req') [])
    as Hsort.
  destruct (sort_loop (RTable req') table (r_map acc) (RSort req') [])
    as [sort serr]. simpl in Hsort. destruct serr as [msg|]; simpl.
  { destruct Hsort as (s & Hin & Hs).
    assert (names_offender ToLower DataStore req' table msg) as Hn.
    { destruct Hs as [[Hun ->]|[Hun ->]].
      - apply offending_sort_schema; assumption.
      - apply offending_sort_output; [assumption|].
        intros Hk. apply Hmap' in Hk. rewrite Hun in Hk.
        destruct Hk; discriminate. }
    eexists _, _. split; [reflexivity|].
    split; [exact Hn|]. split; [exact (Hpre _ Hn)|]. auto. }
  unfold ExpandRequestBackends. simpl. rewrite HB.
  pose proof (backends_loop_result DataStore (RBackends req) ∅) as Hback.
  destruct (0 <? len (RBackends req)) eqn:En.
  - destruct (backends_loop DataStore (RBackends req) ∅) as [m berr].
    simpl in Hback. destruct berr as [msg|]; simpl.
    + destruct Hback as (b & Hin & Hun & ->).
      assert (names_offender ToLower DataStore req' table
                ("bad request: backend " +:+ b +:+ " does not exist")) as Hn
        by (apply offending_backend; [rewrite HB|]; assumption).
      eexists _, _. split; [reflexivity|].
      split; [exact Hn|]. split; [exact (Hpre _ Hn)|]. auto.
    + exfalso. destruct Hbad as [(c & Hin & Hun)|[(s & Hin & Hs)|(b & Hin & Hun)]].
      * destruct (Hcols c Hin) as [? H]. congruence.
      * rewrite <- HS in Hin. destruct (Hsort s Hin) as [[? H1] H2].
        destruct Hs as [Hs|Hs]; [congruence|].
        apply Hs, Hmap', H2.
      * destruct (Hback b Hin) as [? H]. congruence.
  - exfalso. apply Z.ltb_ge in En.
    assert (RBackends req = []) as Hnil.
    { unfold len in En. destruct (RBackends req); [reflexivity|].
      simpl in En. lia. }
    destruct Hbad as [(c & Hin & Hun)|[(s & Hin & Hs)|(b & Hin & Hun)]].
    * destruct (Hcols c Hin) as [? H]. congruence.
    * rewrite <- HS in Hin. destruct (Hsort s Hin) as [[? H1] H2].
      destruct Hs as [Hs|Hs]; [congruence|].
      apply Hs, Hmap', H2.
    * rewrite Hnil in Hin. apply elem_of_nil in Hin. contradiction.
Qed.

(** ** A sample schema and registry *)

(** ASCII lower-casing, as [strings.ToLower] acts on ASCII names. *)
Definition lower_ascii (c : ascii) : ascii :=
  let n := nat_of_ascii c in
  if (65 <=? n)%nat && (n <=? 90)%nat then ascii_of_nat (n + 32) else c.

Fixpoint lower (s : string) : string :=
  match s with
  | EmptyString => EmptyString
  | String c rest => String (lower_ascii c) (lower rest)
  end.

Definition hosts_table : Table :=
  {| TName := "hosts";
     Columns :=
       [ {| Name := "name"; Type_ := StringCol; Index := 0; RefIndex := 0;
            Update := StaticUpdate |};
         {| Name := "state"; Type_ := IntCol; Index := 1; RefIndex := 0;
            Update := DynamicUpdate |};
         {| Name := "services"; Type_ := StringListCol; Index := 2;
            RefIndex := 0; Update := RefNoUpdate |};
         {| Name := "last_update"; Type_ := VirtCol; Index := 3;
            RefIndex := 0; Update := RefUpdate |} ];
     ColumnsIndex := {[ "name" := 0; "state" := 1; "services" := 2;
                        "last_update" := 3 ]};
     PassthroughOnly := false; DynamicColCacheIndexes := [1] |}.

Definition sample_Tables : gmap string Table :=
  {[ "hosts" := hosts_table; "log" := log_table ]}.

Definition keep_response (p : Peer) (res : Response) (n : Z)
    (indexes : list Z) : Response := res.

Definition request_for (columns : list string) (sort : list SortField)
    (backends : list string) : Request :=
  {| RTable := "hosts"; RColumns := columns; RFilter := []; RStats := [];
     RLimit := 0; ROffset := 0; RSort := sort; RBackends := backends;
     OutputFormat := "json"; ResponseFixed16 := true;
     SendColumnsHeader := false |}.

Lemma table_wf_decide (table : Table) :
  bool_decide (map_Forall (fun _ i => 0 <= i < len (Columns table))
                          (ColumnsIndex table)) = true ->
  table_wf table.
Proof. intros H. apply bool_decide_eq_true in H. exact H. Qed.

Lemma hosts_table_wf : table_wf hosts_table.
Proof. apply table_wf_decide. vm_compute. reflexivity. Qed.

(** A request for the unknown column [foo]. *)
Lemma C5_bad_request_witness :
  exists res msg,
    BuildResponse lower StringCol StaticUpdate number_of_cell sort_none
      scenario_Query no_virtual_value fmt_none exact_fit sample_Tables
      three_peers ["A"; "B"; "C"] keep_response []
      (request_for ["name"; "foo"] [] [])
    = Ok (res, Some msg, [])
    /\ names_offender lower three_peers
         (expand_columns (request_for ["name"; "foo"] [] []) hosts_table)
         hosts_table msg
    /\ (exists rest, msg = "bad request: " +:+ rest)
    /\ Result res = NilSlice /\ ResultTotal res = 0 /\ Failed res = ∅.
Proof.
  apply (C5_bad_request_before_peers lower StringCol StaticUpdate
           number_of_cell sort_none scenario_Query no_virtual_value fmt_none
           exact_fit sample_Tables three_peers ["A"; "B"; "C"] keep_response
           [] (request_for ["name"; "foo"] [] [])).
  - exact hosts_table_wf.
  - left. exists "foo". split; [|vm_compute; reflexivity].
    right. left.
Defined.

(** The default columns of the sample table: the reference column with no
    update of its own is left out, the virtual one is kept. *)
Lemma C7_default_columns_witness :
  RColumns (expand_columns (request_for [] [] []) hosts_table)
    = ["name"; "state"; "last_update"]
  /\ SendColumnsHeader (expand_columns (request_for [] [] []) hosts_table)
     = true.
Proof.
  destruct (C7_default_columns lower StringCol StaticUpdate
              (request_for [] [] []) hosts_table eq_refl eq_refl)
    as [[Hc Hh] _].
  split; [rewrite Hc; reflexivity | exact Hh].
Defined.

(** ** What holds of the collector under every schedule *)

Section CollectorInvariants.

Variable Query : Peer -> Request -> list Row * option string.
Variable GetRowValue : Peer -> Z -> Row -> Z -> Table -> Z -> Cell.
Variable fmt_other : StatusValue -> string.
Variable spare : nat -> nat.
Variable DataStore : gmap string Peer.
Variable table : Table.
Variable columns : list Column.
Variable numPerRow : Z.

Local Abbreviation step :=
  (sched_step Query GetRowValue fmt_other spare DataStore table columns
     numPerRow).
Local Abbreviation run :=
  (run_sched Query GetRowValue fmt_other spare DataStore table columns
     numPerRow).

Definition unit_peers (st : PTState) : list Peer := u_peer <$> pt_units st.

Lemma alter_pc_peers (pc : PC) (k : nat) (units : list Unit) :
  u_peer <$> alter (fun u => mkUnit (u_peer u) pc) k units = u_peer <$> units.
Proof.
  revert k. induction units as [|u units IH]; intros [|k]; simpl;
    try reflexivity.
  f_equal. apply IH.
Qed.

Lemma pt_with_unit_peers (st : PTState) (k : nat) (pc : PC) :
  unit_peers (pt_with_unit st k pc) = unit_peers st.
Proof. apply alter_pc_peers. Qed.

(** What one step can do to the shared state. *)
Inductive moves (st : PTState) : PTState -> Prop :=
| moves_idle : moves st st
| moves_skip (id : string) (rest : list string) :
    pt_todo st = id :: rest ->
    status_PeerStatus (peer_of DataStore id) = Ok PeerStatusDown ->
    moves st
      {| pt_res :=
           set_Failed (pt_res st)
             (<[ID (peer_of DataStore id) :=
                  Sprintf_v fmt_other
                    (Status (peer_of DataStore id) !! "LastError")]>
                (Failed (pt_res st)));
         pt_err := pt_err st; pt_todo := rest; pt_units := pt_units st;
         pt_trace := pt_trace st |}
| moves_launch (id : string) (rest : list string) (s : PeerStatus) :
    pt_todo st = id :: rest ->
    status_PeerStatus (peer_of DataStore id) = Ok s ->
    s <> PeerStatusDown ->
    moves st
      {| pt_res := pt_res st; pt_err := pt_err st; pt_todo := rest;
         pt_units := pt_units st ++ [mkUnit (peer_of DataStore id) AtQuery];
         pt_trace := pt_trace st |}
| moves_query (k : nat) (u : Unit) (e : option string) (pc : PC) :
    pt_units st !! k = Some u ->
    moves st
      (pt_with_unit
         {| pt_res := pt_res st; pt_err := e; pt_todo := pt_todo st;
            pt_units := pt_units st;
            pt_trace := pt_trace st ++ [EvQuery (ID (u_peer u))] |}
         k pc)
| moves_on (k : nat) (pc : PC) : moves st (pt_with_unit st k pc)
| moves_fail (k : nat) (u : Unit) (msg : string) :
    pt_units st !! k = Some u ->
    moves st
      (pt_with_unit
         (pt_with_res st
            (set_Failed (pt_res st)
               (<[ID (u_peer u) := msg]> (Failed (pt_res st)))))
         k Finished)
| moves_merge (k : nat) (rows : slice Row) :
    moves st
      (pt_with_unit (pt_with_res st (set_Result (pt_res st) rows)) k Finished).

Lemma step_moves (st st' : PTState) (who : nat) :
  step st who = Ok st' -> moves st st'.
Proof.
  destruct who as [|k]; simpl.
  - unfold launcher_step. destruct (pt_todo st) as [|id rest] eqn:Et.
    + intros Heq; inversion Heq; subst. constructor.
    + destruct (status_PeerStatus (peer_of DataStore id)) as [s|] eqn:Es;
        simpl; [|discriminate].
      destruct (bool_decide (s = PeerStatusDown)) eqn:Ed;
        intros Heq; inversion Heq; subst; clear Heq.
      * apply bool_decide_eq_true in Ed. subst s.
        apply moves_skip; [exact Et | exact Es].
      * apply bool_decide_eq_false in Ed.
        eapply moves_launch; [exact Et | exact Es | exact Ed].
  - unfold unit_step. destruct (pt_units st !! k) as [u|] eqn:Eu;
      [|intros Heq; inversion Heq; subst; constructor].
    destruct (u_pc u) as [|result| |result|].
    + destruct (Query _ _) as [result e].
      intros Heq; inversion Heq; subst. apply moves_query. exact Eu.
    + destruct (pt_err st); intros Heq; inversion Heq; subst;
        apply moves_on.
    + destruct (pt_err st); intros Heq; inversion Heq; subst.
      apply moves_fail. exact Eu.
    + destruct (insert_virtual _ _ _ _ _ _) as [r|]; simpl;
        intros Heq; inversion Heq; subst. apply moves_merge.
    + intros Heq; inversion Heq; subst. constructor.
Qed.

(** An invariant of the steps holds when the collector returns. *)
Lemma collector_invariant (P : PTState -> Prop) :
  (forall st st', P st -> moves st st' -> P st') ->
  forall (sched : list nat) (res : Response) (peers : list string)
         (trace : list Event) (st : PTState),
    P {| pt_res := set_Result res make_empty; pt_err := None;
         pt_todo := peers; pt_units := []; pt_trace := trace |} ->
    BuildPassThroughResult Query GetRowValue fmt_other spare DataStore sched
      res peers table columns numPerRow trace = Ok st ->
    P st.
Proof.
  intros Hstep.
  assert (forall sched st st', P st -> run sched st = Ok st' -> P st') as Hrun.
  { induction sched as [|who sched IH]; intros st st' HP; simpl.
    - intros Heq; inversion Heq; subst. exact HP.
    - destruct (step st who) as [st1|] eqn:E; simpl; [|discriminate].
      apply IH. eapply Hstep; [exact HP|]. eapply step_moves. exact E. }
  intros sched res peers trace st HP. unfold BuildPassThroughResult.
  destruct (run_sched _ _ _ _ _ _ _ _ sched _) as [st1|] eqn:E; simpl;
    [|discriminate].
  intros Hd. eapply Hrun; [|exact Hd]. eapply Hrun; [|exact E]. exact HP.
Qed.

(** The fields of the response no step writes. *)
Definition collector_frame (r res : Response) : Prop :=
  Code r = Code res /\ ResultTotal r = ResultTotal res /\ Req r = Req res /\
  Error r = Error res /\ RespColumns r = RespColumns res.

Lemma moves_frame (res : Response) (st st' : PTState) :
  collector_frame (pt_res st) res -> moves st st' ->
  collector_frame (pt_res st') res.
Proof. intros H Hm. destruct Hm; exact H. Qed.

(** X3.  The collector writes [Result] and [Failed] and nothing else:
    under any schedule the code, the total, the request, the columns and
    [Response.Error] are as before, so no peer failure reaches the error
    of the response. *)
Theorem passthrough_writes_result_and_failed_only (sched : list nat)
    (res : Response) (peers : list string) (trace : list Event)
    (st : PTState) :
  BuildPassThroughResult Query GetRowValue fmt_other spare DataStore sched
    res peers table columns numPerRow trace = Ok st ->
  collector_frame (pt_res st) res.
Proof.
  apply (collector_invariant (fun st => collector_frame (pt_res st) res)).
  - intros st0 st1. apply moves_frame.
  - repeat split.
Qed.

(** A peer of the request that was not down when the loop met it. *)
Definition awake (peers : list string) (p : Peer) : Prop :=
  exists pid s, pid ∈ peers /\ p = peer_of DataStore pid /\
                status_PeerStatus p = Ok s /\ s <> PeerStatusDown.

(** The peers still to be visited are the request's, the units belong to
    peers that were awake, and only units issue queries. *)
Definition launched (peers : list string) (trace0 : list Event)
    (st : PTState) : Prop :=
  (forall pid, pid ∈ pt_todo st -> pid ∈ peers)
  /\ Forall (awake peers) (unit_peers st)
  /\ forall id, EvQuery id ∈ pt_trace st ->
                EvQuery id ∈ trace0 \/ id ∈ (ID <$> unit_peers st).

Lemma unit_peer_elem (st : PTState) (k : nat) (u : Unit) :
  pt_units st !! k = Some u -> u_peer u ∈ unit_peers st.
Proof.
  intros Eu. unfold unit_peers. apply list_elem_of_fmap. exists u.
  split; [reflexivity|]. eapply list_elem_of_lookup_2. exact Eu.
Qed.

Lemma moves_launched (peers : list string) (trace0 : list Event)
    (st st' : PTState) :
  launched peers trace0 st -> moves st st' -> launched peers trace0 st'.
Proof.
  intros (Htodo & Hup & Hq) Hm.
  destruct Hm as [|id rest Et Es|id rest s Et Es Hs|k u e pc Eu|k pc
                  |k u msg Eu|k rows];
    unfold launched; rewrite ?pt_with_unit_peers;
    try (split; [exact Htodo|split; [exact Hup|exact Hq]]).
  - split; [|split; [exact Hup|exact Hq]].
    simpl. intros pid Hp. apply Htodo. rewrite Et. right. exact Hp.
  - unfold unit_peers. simpl. rewrite fmap_app. split; [|split].
    + intros pid Hp. apply Htodo. rewrite Et. right. exact Hp.
    + apply Forall_app. split; [exact Hup|].
      constructor; [|constructor]. exists id, s.
      split; [apply Htodo; rewrite Et; left|]. auto.
    + intros i Hi. destruct (Hq i Hi) as [H|H]; [left; exact H|].
      right. rewrite fmap_app. apply elem_of_app. left. exact H.
  - pose proof (unit_peer_elem _ _ _ Eu) as Hu.
    unfold unit_peers. simpl. split; [exact Htodo|split; [exact Hup|]].
    intros i Hi. apply elem_of_app in Hi as [Hi|Hi]; [exact (Hq i Hi)|].
    apply list_elem_of_singleton in Hi. inversion Hi; subst.
    right. apply list_elem_of_fmap. exists (u_peer u). split; auto.
Qed.

(** X4.  No call is issued to a peer that is down or that the request
    does not address: under any schedule, every query the collector adds
    to the trace goes to one of [peers] whose status was read and was not
    [Down]. *)
Theorem passthrough_skips_down (sched : list nat) (res : Response)
    (peers : list string) (trace : list Event) (st : PTState) (id : string) :
  BuildPassThroughResult Query GetRowValue fmt_other spare DataStore sched
    res peers table columns numPerRow trace = Ok st ->
  EvQuery id ∈ pt_trace st ->
  EvQuery id ∈ trace \/
  exists pid s, pid ∈ peers /\ ID (peer_of DataStore pid) = id /\
                status_PeerStatus (peer_of DataStore pid) = Ok s /\
                s <> PeerStatusDown.
Proof.
  intros Hrun Hq.
  assert (launched peers trace st) as (_ & Hup & Hin).
  { revert Hrun. apply (collector_invariant (launched peers trace)).
    - intros st0 st1. apply moves_launched.
    - split; [auto|]. split; [constructor|]. intros i Hi. left. exact Hi. }
  destruct (Hin id Hq) as [H|H]; [left; exact H|right].
  apply list_elem_of_fmap in H as (p & -> & Hp).
  rewrite Forall_forall in Hup.
  destruct (Hup p Hp) as (pid & s & Hpid & -> & Hs & Hne).
  exists pid, s. auto.
Qed.

(** The peers already visited, with every one that was down recorded;
    what [Failed] held stays, and what it gains is named after a peer of
    the request. *)
Definition recorded (res : Response) (peers : list string) (st : PTState)
    : Prop :=
  (exists done, peers = done ++ pt_todo st /\
     forall pid, pid ∈ done ->
       status_PeerStatus (peer_of DataStore pid) = Ok PeerStatusDown ->
       is_Some (Failed (pt_res st) !! ID (peer_of DataStore pid)))
  /\ (forall k, is_Some (Failed res !! k) ->
                is_Some (Failed (pt_res st) !! k))
  /\ (forall k, is_Some (Failed (pt_res st) !! k) ->
                is_Some (Failed res !! k) \/
                exists pid, pid ∈ peers /\ ID (peer_of DataStore pid) = k)
  /\ Forall (awake peers) (unit_peers st).

Lemma moves_recorded (res : Response) (peers : list string)
    (st st' : PTState) :
  recorded res peers st -> moves st st' -> recorded res peers st'.
Proof.
  intros ((done & Hsplit & Hdown) & Hold & Hnew & Hup) Hm.
  destruct Hm as [|id rest Et Es|id rest s Et Es Hs|k u e pc Eu|k pc
                  |k u msg Eu|k rows];
    unfold recorded; rewrite ?pt_with_unit_peers;
    try (split; [exists done; split; [exact Hsplit|exact Hdown]|];
         split; [exact Hold|split; [exact Hnew|exact Hup]]).
  - simpl. split; [|split; [|split; [|exact Hup]]].
    + exists (done ++ [id]). split.
      * rewrite Hsplit, Et, <- app_assoc. reflexivity.
      * intros pid Hp Hd. apply lookup_insert_is_Some.
        apply elem_of_app in Hp as [Hp|Hp].
        -- destruct (decide (ID (peer_of DataStore id)
                             = ID (peer_of DataStore pid)));
             [left; assumption | right; split; [assumption|]].
           apply Hdown; assumption.
        -- apply list_elem_of_singleton in Hp. subst. left. reflexivity.
    + intros k Hk. apply lookup_insert_is_Some.
      destruct (decide (ID (peer_of DataStore id) = k));
        [left; assumption | right; split; [assumption|]]. apply Hold, Hk.
    + intros k Hk. apply lookup_insert_is_Some in Hk as [<-|[_ Hk]].
      * right. exists id. split; [|reflexivity].
        rewrite Hsplit, Et. apply elem_of_app. right. left.
      * apply Hnew, Hk.
  - unfold unit_peers. simpl. rewrite fmap_app.
    split; [|split; [exact Hold|split; [exact Hnew|]]].
    + exists (done ++ [id]). split.
      * rewrite Hsplit, Et, <- app_assoc. reflexivity.
      * intros pid Hp Hd. apply elem_of_app in Hp as [Hp|Hp].
        -- apply Hdown; assumption.
        -- apply list_elem_of_singleton in Hp. subst. congruence.
    + apply Forall_app. split; [exact Hup|].
      constructor; [|constructor]. exists id, s.
      split; [|auto]. rewrite Hsplit, Et. apply elem_of_app. right. left.
  - pose proof (unit_peer_elem _ _ _ Eu) as Hu.
    rewrite Forall_forall in Hup.
    destruct (Hup _ Hu) as (upid & s & Hupid & Hueq & _).
    simpl. split; [|split; [|split; [|apply Forall_forall; exact Hup]]].
    + exists done. split; [exact Hsplit|].
      intros pid Hp Hd. apply lookup_insert_is_Some.
      destruct (decide (ID (u_peer u) = ID (peer_of DataStore pid)));
        [left; assumption | right; split; [assumption|]].
      apply Hdown; assumption.
    + intros i Hi. apply lookup_insert_is_Some.
      destruct (decide (ID (u_peer u) = i));
        [left; assumption | right; split; [assumption|]]. apply Hold, Hi.
    + intros i Hi. apply lookup_insert_is_Some in Hi as [<-|[_ Hi]].
      * right. exists upid. split; [exact Hupid|]. rewrite Hueq. reflexivity.
      * apply Hnew, Hi.
Qed.

(** The caller's loop has visited every peer when the wait returns. *)
Lemma moves_todo (st st' : PTState) :
  moves st st' -> (length (pt_todo st') <= length (pt_todo st))%nat.
Proof.
  intros Hm.
  destruct Hm as [|id rest Et Es|id rest s Et Es Hs|k u e pc Eu|k pc
                  |k u msg Eu|k rows]; simpl; try rewrite Et; simpl; lia.
Qed.

Lemma launcher_runs_out (n : nat) :
  forall st st',
    run (replicate n O) st = Ok st' ->
    (length (pt_todo st') <= length (pt_todo st) - n)%nat.
Proof.
  induction n as [|n IH]; intros st st'; simpl.
  - intros Heq; inversion Heq; subst. lia.
  - destruct (launcher_step fmt_other DataStore st) as [st1|] eqn:E; simpl;
      [|discriminate].
    intros Hrun. apply IH in Hrun.
    assert (length (pt_todo st1) <= length (pt_todo st) - 1)%nat; [|lia].
    revert E. unfold launcher_step.
    destruct (pt_todo st) as [|id rest] eqn:Et.
    + intros Heq; inversion Heq; subst. rewrite Et. simpl. lia.
    + destruct (status_PeerStatus (peer_of DataStore id)) as [s|]; simpl;
        [|discriminate].
      destruct (bool_decide (s = PeerStatusDown));
        intros Heq; inversion Heq; subst; simpl; lia.
Qed.

Lemma run_todo (sched : list nat) :
  forall st st', run sched st = Ok st' ->
                 (length (pt_todo st') <= length (pt_todo st))%nat.
Proof.
  induction sched as [|who sched IH]; intros st st'; simpl.
  - intros Heq; inversion Heq; subst. lia.
  - destruct (step st who) as [st1|] eqn:E; simpl; [|discriminate].
    intros Hrun. apply IH in Hrun. apply step_moves, moves_todo in E. lia.
Qed.

Lemma run_app (s1 s2 : list nat) (st : PTState) :
  run (s1 ++ s2) st = (run s1 st ≫= run s2).
Proof.
  revert st. induction s1 as [|who s1 IH]; intros st; simpl; [reflexivity|].
  destruct (step st who) as [st1|]; simpl; [apply IH | reflexivity].
Qed.

Lemma passthrough_visits_all (sched : list nat) (res : Response)
    (peers : list string) (trace : list Event) (st : PTState) :
  BuildPassThroughResult Query GetRowValue fmt_other spare DataStore sched
    res peers table columns numPerRow trace = Ok st ->
  pt_todo st = [].
Proof.
  unfold BuildPassThroughResult.
  destruct (run_sched _ _ _ _ _ _ _ _ sched _) as [st1|] eqn:E; simpl;
    [|discriminate].
  unfold drain. rewrite run_app.
  destruct (run (replicate (length (pt_todo st1)) O) st1) as [st2|] eqn:E2;
    simpl; [|discriminate].
  intros Hrun. apply launcher_runs_out in E2. apply run_todo in Hrun.
  apply length_zero_iff_nil. lia.
Qed.

(** X11.  Under any schedule, when the collector returns every peer of
    the request that was down has an entry in [Failed]; the entries
    [Failed] held before are still there; and every new entry is named
    after a peer of the request. *)
Theorem passthrough_records_down_peers (sched : list nat) (res : Response)
    (peers : list string) (trace : list Event) (st : PTState) :
  BuildPassThroughResult Query GetRowValue fmt_other spare DataStore sched
    res peers table columns numPerRow trace = Ok st ->
  (forall pid, pid ∈ peers ->
     status_PeerStatus (peer_of DataStore pid) = Ok PeerStatusDown ->
     is_Some (Failed (pt_res st) !! ID (peer_of DataStore pid)))
  /\ (forall k, is_Some (Failed res !! k) ->
                is_Some (Failed (pt_res st) !! k))
  /\ (forall k, is_Some (Failed (pt_res st) !! k) ->
                is_Some (Failed res !! k) \/
                exists pid, pid ∈ peers /\ ID (peer_of DataStore pid) = k).
Proof.
  intros Hrun.
  assert (recorded res peers st)
    as ((done & Hsplit & Hdown) & Hold & Hnew & _).
  { revert Hrun. apply (collector_invariant (recorded res peers)).
    - intros st0 st1. apply moves_recorded.
    - split; [|split; [auto|split; [auto|constructor]]].
      exists []. split; [reflexivity|].
      intros pid Hp. apply elem_of_nil in Hp. contradiction. }
  rewrite (passthrough_visits_all _ _ _ _ _ Hrun), app_nil_r in Hsplit.
  subst done. auto.
Qed.

End CollectorInvariants.

(** ** Further properties of the post-processor *)

(** Five rows, from the second on, cut to two. *)
Lemma pagination_in_range_witness :
  exists r,
    BuildResponsePostProcessing number_of_cell sort_none
      (response_of (plain_request 2 1) (Slice five_rows 5)) = Ok r
    /\ elems (Result r) = [[VString "b"]; [VString "c"]]
    /\ slice_len (Result r) = 2.
Proof.
  destruct (pagination_in_range number_of_cell sort_none
              (response_of (plain_request 2 1) (Slice five_rows 5)))
    as (r & Hr & He & Hl).
  - simpl. lia.
  - reflexivity.
  - reflexivity.
  - left. reflexivity.
  - simpl. lia.
  - right. right. vm_compute. discriminate.
  - exists r. split; [exact Hr|].
    split; [rewrite He | rewrite Hl]; reflexivity.
Defined.

(** The counter and the average of [stats_request], no pagination. *)
Lemma stats_summary_after_pagination_witness :
  BuildResponsePostProcessing number_of_cell sort_none
    (response_of (stats_request 0 0) (Slice five_rows 5))
  = Ok (set_Result
          (set_ResultTotal (response_of (stats_request 0 0)
                              (Slice five_rows 5)) 5)
          (Slice [[VFloat 3%float; VFloat 3.5%float]] 1)).
Proof.
  rewrite (stats_summary_after_pagination number_of_cell sort_none
             (response_of (stats_request 0 0) (Slice five_rows 5))
             (set_ResultTotal (response_of (stats_request 0 0)
                                 (Slice five_rows 5)) 5)).
  - reflexivity.
  - discriminate.
  - repeat constructor; discriminate.
  - reflexivity.
Defined.

(** The fields post-processing leaves alone. *)
Definition same_meta (r res : Response) : Prop :=
  Code r = Code res /\ Req r = Req res /\ Error r = Error res /\
  Failed r = Failed res /\ RespColumns r = RespColumns res.

Lemma same_meta_refl (res : Response) : same_meta res res.
Proof. repeat split. Qed.

Lemma same_meta_trans (a b c : Response) :
  same_meta a b -> same_meta b c -> same_meta a c.
Proof.
  unfold same_meta. intros (H1 & H2 & H3 & H4 & H5) (K1 & K2 & K3 & K4 & K5).
  repeat split; congruence.
Qed.

Section PostProcessorFields.

Variable NumberToFloat : Cell -> float.
Variable sort_Sort :
  (list Row -> Z -> Z -> outcome bool) -> list Row -> outcome (list Row).

Lemma sort_step_meta (res r : Response) :
  sort_step NumberToFloat sort_Sort res = Ok r ->
  same_meta r res /\ ResultTotal r = ResultTotal res.
Proof.
  unfold sort_step. destruct (0 <? len (RSort (Req res))).
  - destruct (sort_Sort _ _); simpl; intros Heq; inversion Heq;
      repeat split.
  - intros Heq; inversion Heq; repeat split.
Qed.

Lemma total_step_meta (res : Response) : same_meta (total_step res) res.
Proof. unfold total_step. destruct (ResultTotal res =? 0); repeat split. Qed.

Lemma offset_step_meta (res r : Response) :
  offset_step res = Ok r ->
  same_meta r res /\ ResultTotal r = ResultTotal res.
Proof.
  unfold offset_step.
  destruct (0 <? ROffset (Req res)); [destruct (ResultTotal res <? _)|];
    try destruct (reslice_from _ _); simpl;
    intros Heq; inversion Heq; repeat split.
Qed.

Lemma limit_step_meta (res r : Response) :
  limit_step res = Ok r ->
  same_meta r res /\ ResultTotal r = ResultTotal res.
Proof.
  unfold limit_step.
  destruct (0 <? RLimit (Req res)); [destruct (RLimit (Req res) <? _)|];
    try destruct (reslice _ _ _); simpl;
    intros Heq; inversion Heq; repeat split.
Qed.

Lemma stats_step_meta (res r : Response) :
  stats_step res = Ok r ->
  same_meta r res /\ ResultTotal r = ResultTotal res.
Proof.
  unfold stats_step. destruct (0 <? len (RStats (Req res))).
  - destruct (stats_loop _ _ _); simpl; intros Heq; inversion Heq;
      repeat split.
  - intros Heq; inversion Heq; repeat split.
Qed.

Lemma post_meta (res r : Response) :
  BuildResponsePostProcessing NumberToFloat sort_Sort res = Ok r ->
  same_meta r res.
Proof.
  unfold BuildResponsePostProcessing.
  destruct (sort_step NumberToFloat sort_Sort res) as [r1|] eqn:E1;
    simpl; [|discriminate].
  destruct (offset_step (total_step r1)) as [r2|] eqn:E2;
    simpl; [|discriminate].
  destruct (limit_step r2) as [r3|] eqn:E3; simpl; [|discriminate].
  intros E4.
  apply sort_step_meta in E1 as [M1 _].
  apply offset_step_meta in E2 as [M2 _].
  apply limit_step_meta in E3 as [M3 _].
  apply stats_step_meta in E4 as [M4 _].
  pose proof (total_step_meta r1) as M0.
  eauto using same_meta_trans.
Qed.

(** X5.  Post-processing touches [Result] and [ResultTotal] only: the
    code, the request, the error, the failures and the columns are as
    before.  A [ResultTotal] that was already set is kept; an unset one
    becomes the number of rows found, here without a sort. *)
Theorem post_processing_fields (res r : Response) :
  BuildResponsePostProcessing NumberToFloat sort_Sort res = Ok r ->
  same_meta r res
  /\ (ResultTotal res <> 0 -> ResultTotal r = ResultTotal res)
  /\ (ResultTotal res = 0 -> RSort (Req res) = [] ->
      ResultTotal r = slice_len (Result res)).
Proof.
  intros Hpost. split; [exact (post_meta _ _ Hpost)|].
  revert Hpost. unfold BuildResponsePostProcessing.
  destruct (sort_step NumberToFloat sort_Sort res) as [r1|] eqn:E1;
    simpl; [|discriminate].
  destruct (offset_step (total_step r1)) as [r2|] eqn:E2;
    simpl; [|discriminate].
  destruct (limit_step r2) as [r3|] eqn:E3; simpl; [|discriminate].
  intros E4.
  pose proof (sort_step_meta _ _ E1) as [_ T1].
  apply offset_step_meta in E2 as [_ T2].
  apply limit_step_meta in E3 as [_ T3].
  apply stats_step_meta in E4 as [_ T4].
  rewrite T4, T3, T2. unfold total_step. split.
  - intros Hne. rewrite T1.
    destruct (ResultTotal res =? 0) eqn:E; [|exact T1].
    apply Z.eqb_eq in E. contradiction.
  - intros Hz Hsort. unfold sort_step in E1. rewrite Hsort in E1.
    simpl in E1. inversion E1; subst r1. rewrite Hz. reflexivity.
Qed.

End PostProcessorFields.

Lemma post_processing_fields_witness :
  exists r,
    BuildResponsePostProcessing number_of_cell sort_none
      (response_of (plain_request 2 1) (Slice five_rows 5)) = Ok r
    /\ same_meta r (response_of (plain_request 2 1) (Slice five_rows 5))
    /\ ResultTotal r = 5.
Proof.
  eexists. split; [reflexivity|].
  destruct (post_processing_fields number_of_cell sort_none
              (response_of (plain_request 2 1) (Slice five_rows 5)) _
              eq_refl) as (Hm & _ & Ht).
  split; [exact Hm|]. rewrite Ht; reflexivity.
Defined.

Lemma stats_loop_unrecognised (stats : list Filter) :
  Exists (fun s => StatsType_ s = NoStats) stats ->
  forall (i : nat) (row : Row),
    stats_loop i stats row = Panic "not implemented".
Proof.
  induction stats as [|s stats IH]; intros Hex i row.
  - inversion Hex.
  - simpl. unfold stats_cell.
    destruct (StatsType_ s) eqn:E; simpl; try reflexivity;
      try destruct (0 <? StatsCount s); simpl;
      (apply IH; inversion Hex as [? ? H|]; subst; [congruence|assumption]).
Qed.

(** X6.  A stats entry of a kind outside the five stops the request: once
    the earlier steps have completed, post-processing panics rather than
    return a row. *)
Theorem unrecognised_stats_kind_panics
    (NumberToFloat : Cell -> float)
    (sort_Sort : (list Row -> Z -> Z -> outcome bool) ->
                 list Row -> outcome (list Row))
    (res r0 : Response) :
  paginate NumberToFloat sort_Sort res = Ok r0 ->
  Exists (fun s => StatsType_ s = NoStats) (RStats (Req res)) ->
  BuildResponsePostProcessing NumberToFloat sort_Sort res
  = Panic "not implemented".
Proof.
  intros Hp Hex. rewrite post_paginate_stats, Hp. simpl.
  pose proof (paginate_Req _ _ _ _ Hp) as HQ.
  unfold stats_step. rewrite HQ.
  destruct (RStats (Req res)) as [|s stats] eqn:E; [inversion Hex|].
  assert ((0 <? len (s :: stats)) = true) as ->
    by (apply Z.ltb_lt; unfold len; simpl; lia).
  rewrite stats_loop_unrecognised by assumption. reflexivity.
Qed.

Definition broken_stats_request : Request :=
  {| RTable := "hosts"; RColumns := []; RFilter := [];
     RStats := [ {| StatsType_ := Sum; Stats := 1%float; StatsCount := 1 |};
                 {| StatsType_ := NoStats; Stats := 0%float;
                    StatsCount := 0 |} ];
     RLimit := 0; ROffset := 0; RSort := []; RBackends := [];
     OutputFormat := "json"; ResponseFixed16 := false;
     SendColumnsHeader := false |}.

Lemma unrecognised_stats_kind_panics_witness :
  BuildResponsePostProcessing number_of_cell sort_none
    (response_of broken_stats_request make_empty)
  = Panic "not implemented".
Proof.
  apply (unrecognised_stats_kind_panics number_of_cell sort_none
           (response_of broken_stats_request make_empty)
           (response_of broken_stats_request make_empty)).
  - reflexivity.
  - right. left. reflexivity.
Defined.

(** ** Further properties of the comparator *)

(** X7.  When the first sort key sits on a list-typed column the answer is
    the key's direction alone: the rows are not read, whatever the two
    positions are, so [Less i j] and [Less j i] agree. *)
Theorem less_list_column_ignores_rows
    (NumberToFloat : Cell -> float) (res : Response) (i j : Z)
    (s : SortField) (rest : list SortField) (col : Column) :
  RSort (Req res) = s :: rest ->
  index (RespColumns res) (SIndex s) = Ok col ->
  Type_ col = StringListCol \/ Type_ col = IntListCol ->
  Less NumberToFloat res i j = Ok (bool_decide (SDirection s = Asc))
  /\ Less NumberToFloat res j i = Less NumberToFloat res i j.
Proof.
  intros Hs Hc Hty.
  assert (forall a b, Less NumberToFloat res a b
                      = Ok (bool_decide (SDirection s = Asc))) as H.
  { intros a b. unfold Less, Less_rows. rewrite Hs. simpl. rewrite Hc.
    simpl. destruct Hty as [-> | ->]; reflexivity. }
  split; [apply H|]. rewrite !H. reflexivity.
Qed.

(** Positions far outside the one row of [list_sorted_response]. *)
Lemma less_list_column_ignores_rows_witness :
  Less number_of_cell list_sorted_response 7 9 = Ok false
  /\ Less number_of_cell list_sorted_response 9 7
     = Less number_of_cell list_sorted_response 7 9.
Proof.
  exact (less_list_column_ignores_rows number_of_cell list_sorted_response
           7 9 _ [] _ eq_refl eq_refl (or_introl eq_refl)).
Defined.

(** X8.  A sort key on a column of a type the comparator has no case for
    is fatal: reached after keys that tie, it panics. *)
Theorem less_unsupported_type_panics
    (NumberToFloat : Cell -> float) (res : Response) (i j : Z)
    (pre : list SortField) (s : SortField) (rest : list SortField)
    (col : Column) :
  RSort (Req res) = pre ++ s :: rest ->
  Forall (key_ties NumberToFloat (RespColumns res) (elems (Result res)) i j)
         pre ->
  index (RespColumns res) (SIndex s) = Ok col ->
  Type_ col = VirtCol ->
  Less NumberToFloat res i j = Panic "sorting not implemented for type".
Proof.
  intros Hs Hpre Hc Hty. unfold Less, Less_rows. rewrite Hs.
  rewrite less_keys_ties_prefix by assumption.
  simpl. rewrite Hc. simpl. rewrite Hty. reflexivity.
Qed.

Definition virt_sorted_response : Response :=
  {| Code := 200; Result := Slice [[VString "alpha"; VNil]] 1;
     ResultTotal := 0;
     Req := {| RTable := "hosts"; RColumns := ["name"; "unknown_virtual"];
               RFilter := []; RStats := []; RLimit := 0; ROffset := 0;
               RSort := [ by_name;
                          {| SName := "unknown_virtual"; SDirection := Asc;
                             SIndex := 1 |} ];
               RBackends := []; OutputFormat := "json";
               ResponseFixed16 := false; SendColumnsHeader := false |};
     Error := None; Failed := ∅;
     RespColumns :=
       [ {| Name := "name"; Type_ := StringCol; Index := 0; RefIndex := 0;
            Update := StaticUpdate |};
         {| Name := "unknown_virtual"; Type_ := VirtCol; Index := 1;
            RefIndex := 5; Update := StaticUpdate |} ] |}.

Lemma less_unsupported_type_panics_witness :
  Less number_of_cell virt_sorted_response 0 0
  = Panic "sorting not implemented for type".
Proof.
  eapply (less_unsupported_type_panics number_of_cell virt_sorted_response
            0 0 [by_name] _ [] _ eq_refl).
  - constructor; [|constructor].
    exists StringCol, (VString "alpha"), (VString "alpha").
    split; reflexivity.
  - reflexivity.
  - reflexivity.
Defined.

Lemma string_ltb_antisym (s1 s2 : string) :
  s1 <> s2 -> String.ltb s2 s1 = negb (String.ltb s1 s2).
Proof.
  intros Hne. unfold String.ltb. rewrite (String.compare_antisym s1 s2).
  destruct (String.compare s2 s1) eqn:E; simpl; try reflexivity.
  apply String.compare_eq_iff in E. congruence.
Qed.

(** X9.  On a String column holding two different strings the comparator
    is decisive: of [Less i j] and [Less j i] exactly one is true,
    whichever direction the key asks for. *)
Theorem less_distinct_strings_antisymmetric
    (NumberToFloat : Cell -> float) (res : Response) (i j : Z)
    (s : SortField) (rest : list SortField) (s1 s2 : string) :
  RSort (Req res) = s :: rest ->
  key_cells (RespColumns res) (elems (Result res)) i j s
    = Ok (StringCol, VString s1, VString s2) ->
  s1 <> s2 ->
  exists b, Less NumberToFloat res i j = Ok b
            /\ Less NumberToFloat res j i = Ok (negb b).
Proof.
  intros Hs Hk Hne.
  assert (key_cells (RespColumns res) (elems (Result res)) j i s
          = Ok (StringCol, VString s2, VString s1)) as Hk'.
  { apply key_cells_inv in Hk as (col & Hc & Hty & Ha & Hb).
    unfold key_cells. rewrite Hc. simpl. rewrite Hb. simpl. rewrite Ha.
    simpl. rewrite Hty. reflexivity. }
  assert (String.eqb s1 s2 = false) as E12 by (apply String.eqb_neq; exact Hne).
  assert (String.eqb s2 s1 = false) as E21
    by (apply String.eqb_neq; congruence).
  unfold Less, Less_rows. rewrite Hs.
  rewrite (less_keys_decides NumberToFloat _ _ _ _ _ _ _ _ _ Hk eq_refl E12).
  rewrite (less_keys_decides NumberToFloat _ _ _ _ _ _ _ _ _ Hk' eq_refl E21).
  simpl. eexists. split; [reflexivity|].
  destruct (SDirection s).
  - rewrite (string_ltb_antisym s1 s2 Hne). reflexivity.
  - rewrite (string_ltb_antisym s1 s2 Hne), negb_involutive. reflexivity.
Qed.

(** Rows 1 ([alpha]) and 2 ([beta]) under the name key. *)
Lemma less_distinct_strings_witness :
  exists b, Less number_of_cell (sorted_response [by_name]) 1 2 = Ok b
            /\ Less number_of_cell (sorted_response [by_name]) 2 1
               = Ok (negb b).
Proof.
  apply (less_distinct_strings_antisymmetric number_of_cell
           (sorted_response [by_name]) 1 2 by_name [] "alpha" "beta").
  - reflexivity.
  - reflexivity.
  - discriminate.
Defined.

(** ** [Len] and [Swap] *)

(** [Len]: the number of rows. *)
Definition Len (res : Response) : Z := slice_len (Result res).

(** [Swap]: [res.Result[i], res.Result[j] = res.Result[j], res.Result[i]].
    Both rows are read, then written, through the array the caller
    shares; a position outside the rows panics. *)
Definition Swap (res : Response) (i j : Z) : outcome Response :=
  let rows := elems (Result res) in
  rj ← index rows j;
  ri ← index rows i;
  Ok (set_Result res
        (with_elems (Result res)
           (<[Z.to_nat j := ri]> (<[Z.to_nat i := rj]> rows)))).

Lemma index_Ok {A} (l : list A) (i : Z) (a : A) :
  index l i = Ok a -> 0 <= i /\ l !! Z.to_nat i = Some a.
Proof.
  unfold index. destruct (i <? 0) eqn:E; [discriminate|].
  apply Z.ltb_ge in E.
  destruct (l !! Z.to_nat i) as [x|]; [|discriminate].
  intros Heq; inversion Heq. auto.
Qed.

Lemma elems_with_elems {A} (s : slice A) (rows : list A) :
  is_nil s = false -> elems (with_elems s rows) = rows.
Proof.
  destruct s as [|b n]; [discriminate|]. intros _. simpl.
  apply take_app_length.
Qed.

Lemma index_is_nil {A} (s : slice A) (i : Z) (a : A) :
  index (elems s) i = Ok a -> is_nil s = false.
Proof.
  destruct s; [|reflexivity]. unfold index. simpl.
  destruct (i <? 0); discriminate.
Qed.

(** X10.  [Swap] exchanges the two rows and nothing else: the rows after
    it are a permutation of the rows before, as many as before, with the
    rows at [i] and [j] traded; swapping again restores them. *)
Theorem swap_exchanges_rows (res r : Response) (i j : Z) :
  Swap res i j = Ok r ->
  elems (Result r) ≡ₚ elems (Result res)
  /\ Len r = Len res
  /\ elems (Result r) !! Z.to_nat i = elems (Result res) !! Z.to_nat j
  /\ elems (Result r) !! Z.to_nat j = elems (Result res) !! Z.to_nat i
  /\ exists r', Swap r i j = Ok r'
                /\ elems (Result r') = elems (Result res).
Proof.
  unfold Swap.
  destruct (index (elems (Result res)) j) as [rj|] eqn:Ej; simpl;
    [|discriminate].
  destruct (index (elems (Result res)) i) as [ri|] eqn:Ei; simpl;
    [|discriminate].
  intros Heq. inversion Heq; subst r; clear Heq.
  pose proof (index_is_nil _ _ _ Ei) as Hnil.
  apply index_Ok in Ei as [Hi0 Hi]. apply index_Ok in Ej as [Hj0 Hj].
  set (rows := elems (Result res)) in *.
  set (ni := Z.to_nat i) in *. set (nj := Z.to_nat j) in *.
  assert (ni < length rows)%nat as Hli by (eapply lookup_lt_Some; eauto).
  assert (nj < length rows)%nat as Hlj by (eapply lookup_lt_Some; eauto).
  unfold set_Result, Len, slice_len. cbn [Result].
  rewrite elems_with_elems by assumption.
  set (rows' := <[nj := ri]> (<[ni := rj]> rows)).
  assert (length rows' = length rows) as Hlen
    by (unfold rows'; rewrite !length_insert; reflexivity).
  assert (rows' !! ni = Some rj) as Hi'.
  { unfold rows'. destruct (decide (nj = ni)) as [e|n].
    - rewrite e in *. rewrite list_lookup_insert_eq
        by (rewrite length_insert; lia). congruence.
    - rewrite list_lookup_insert_ne by assumption.
      apply list_lookup_insert_eq. lia. }
  assert (rows' !! nj = Some ri) as Hj'.
  { unfold rows'. apply list_lookup_insert_eq. rewrite length_insert. lia. }
  split; [apply Permutation_insert_swap; assumption|].
  split; [unfold len; rewrite Hlen; reflexivity|].
  split; [congruence|]. split; [congruence|].
  assert (index rows' j = Ok ri) as ->.
  { unfold index. assert ((j <? 0) = false) as -> by (apply Z.ltb_ge; lia).
    fold nj. rewrite Hj'. reflexivity. }
  assert (index rows' i = Ok rj) as ->.
  { unfold index. assert ((i <? 0) = false) as -> by (apply Z.ltb_ge; lia).
    fold ni. rewrite Hi'. reflexivity. }
  simpl. eexists. split; [reflexivity|]. cbn [Result].
  rewrite elems_with_elems by (destruct (Result res); [discriminate|reflexivity]).
  fold ni nj. apply list_eq. intros k.
  unfold rows'. rewrite !list_lookup_insert, !length_insert.
  repeat case_decide; destruct_and?; subst; try congruence; try lia.
Qed.

Lemma swap_exchanges_rows_witness :
  exists r, Swap (sorted_response []) 0 2 = Ok r
            /\ elems (Result r)
               = [ [VString "beta"; VInt 1]; [VString "alpha"; VInt 1];
                   [VString "alpha"; VInt 2] ]
            /\ Len r = 3.
Proof.
  eexists. split; [reflexivity|].
  destruct (swap_exchanges_rows (sorted_response []) _ 0 2 eq_refl)
    as (_ & Hl & _).
  split; [reflexivity | exact Hl].
Defined.

(** ** Further properties of the collector *)

(** The schedule of the scenario in which C fails between A's call and
    A's test. *)
Lemma passthrough_writes_result_and_failed_only_witness :
  exists st, scenario [0; 0; 0; 1; 2; 1; 1]%nat = Ok st
             /\ collector_frame (pt_res st) log_response.
Proof.
  eexists. split; [vm_compute; reflexivity|].
  apply (passthrough_writes_result_and_failed_only scenario_Query
           no_virtual_value fmt_none exact_fit three_peers log_table
           log_columns 1 [0; 0; 0; 1; 2; 1; 1]%nat log_response
           ["A"; "B"; "C"] []).
  vm_compute. reflexivity.
Defined.

Lemma passthrough_skips_down_witness :
  exists st, scenario [0; 0; 0; 1; 2; 1; 1]%nat = Ok st
    /\ (EvQuery "A" ∈ ([] : list Event) \/
        exists pid s, pid ∈ ["A"; "B"; "C"]
                      /\ ID (peer_of three_peers pid) = "A"
                      /\ status_PeerStatus (peer_of three_peers pid) = Ok s
                      /\ s <> PeerStatusDown).
Proof.
  eexists. split; [vm_compute; reflexivity|].
  eapply (passthrough_skips_down scenario_Query no_virtual_value fmt_none
            exact_fit three_peers log_table log_columns 1
            [0; 0; 0; 1; 2; 1; 1]%nat log_response ["A"; "B"; "C"] [] _ "A").
  - vm_compute. reflexivity.
  - simpl. left.
Defined.

Lemma passthrough_records_down_peers_witness :
  exists st, scenario [0; 0; 0; 1; 2; 1; 1]%nat = Ok st
    /\ is_Some (Failed (pt_res st) !! "B").
Proof.
  eexists. split; [vm_compute; reflexivity|].
  refine (proj1 (passthrough_records_down_peers scenario_Query
                   no_virtual_value fmt_none exact_fit three_peers log_table
                   log_columns 1 [0; 0; 0; 1; 2; 1; 1]%nat log_response
                   ["A"; "B"; "C"] [] _ _) "B" _ _).
  - vm_compute. reflexivity.
  - right. left.
  - reflexivity.
Defined.

(** ** Further properties of the column resolver *)

Section ResolverShape.

Variable ToLower : string -> string.
Variable ColumnType_zero : ColumnType.
Variable UpdateType_zero : UpdateType.

Local Abbreviation vkey := (virt_key ColumnType_zero).

(** What the loop makes of the requested column [name] at output position
    [j]: the index handed to the peers and the output column. *)
Inductive column_resolved (table : Table) (j : Z) (name : string)
    : Z -> Column -> Prop :=
| resolved_plain (i : Z) (tcol : Column) :
    ColumnsIndex table !! ToLower name = Some i ->
    index (Columns table) i = Ok tcol ->
    Type_ tcol <> VirtCol ->
    column_resolved table j name i
      {| Name := ToLower name; Type_ := Type_ tcol; Index := j;
         RefIndex := 0; Update := UpdateType_zero |}
| resolved_virtual (i : Z) (tcol : Column) :
    ColumnsIndex table !! ToLower name = Some i ->
    index (Columns table) i = Ok tcol ->
    Type_ tcol = VirtCol ->
    column_resolved table j name (VIndex (vkey (ToLower name)))
      {| Name := ToLower name; Type_ := VType (vkey (ToLower name));
         Index := j; RefIndex := i; Update := UpdateType_zero |}.

Lemma resolve_loop_shape (tname : string) (table : Table) :
  forall (cols : list string) (j : Z) (acc acc' : Resolved),
    resolve_loop ToLower ColumnType_zero UpdateType_zero tname table j cols acc
      = Ok (acc', None) ->
    exists idxs cs,
      r_indexes acc' = r_indexes acc ++ idxs
      /\ r_columns acc' = r_columns acc ++ cs
      /\ length idxs = length cols /\ length cs = length cols
      /\ (forall k name, cols !! k = Some name ->
            exists i c, idxs !! k = Some i /\ cs !! k = Some c /\
                        column_resolved table (j + Z.of_nat k) name i c)
      /\ (forall n p, r_map acc' !! n = Some p ->
            r_map acc !! n = Some p \/
            exists k name, cols !! k = Some name /\ ToLower name = n /\
                           p = j + Z.of_nat k).
Proof.
  induction cols as [|col cols IH]; intros j acc acc'; simpl.
  - intros Heq; inversion Heq; subst. exists [], [].
    rewrite !app_nil_r. repeat split; auto.
    intros k name Hk. rewrite lookup_nil in Hk. discriminate.
  - destruct (ColumnsIndex table !! ToLower col) as [i|] eqn:Ei;
      [|discriminate].
    destruct (index (Columns table) i) as [tcol|] eqn:Et; simpl;
      [|discriminate].
    assert (forall i0 c0 acc1,
              column_resolved table j col i0 c0 ->
              r_indexes acc1 = r_indexes acc ++ [i0] ->
              r_columns acc1 = r_columns acc ++ [c0] ->
              r_map acc1 = <[ToLower col := j]> (r_map acc) ->
              resolve_loop ToLower ColumnType_zero UpdateType_zero tname
                table (j + 1) cols acc1 = Ok (acc', None) ->
              exists idxs cs,
                r_indexes acc' = r_indexes acc ++ idxs
                /\ r_columns acc' = r_columns acc ++ cs
                /\ length idxs = S (length cols)
                /\ length cs = S (length cols)
                /\ (forall k name, (col :: cols) !! k = Some name ->
                      exists i c, idxs !! k = Some i /\ cs !! k = Some c /\
                        column_resolved table (j + Z.of_nat k) name i c)
                /\ (forall n p, r_map acc' !! n = Some p ->
                      r_map acc !! n = Some p \/
                      exists k name, (col :: cols) !! k = Some name /\
                                     ToLower name = n /\
                                     p = j + Z.of_nat k)) as Hstep.
    { intros i0 c0 acc1 Hcol Hi0 Hc0 Hm0 Hloop.
      apply IH in Hloop as (idxs & cs & Hi & Hc & Hli & Hlc & Hk & Hm).
      rewrite Hi0, <- app_assoc in Hi. rewrite Hc0, <- app_assoc in Hc.
      exists (i0 :: idxs), (c0 :: cs).
      split; [exact Hi|]. split; [exact Hc|].
      split; [simpl; congruence|]. split; [simpl; congruence|]. split.
      - intros [|k] name Hn; simpl in Hn.
        + inversion Hn; subst name. exists i0, c0.
          split; [reflexivity|]. split; [reflexivity|].
          rewrite Z.add_0_r. exact Hcol.
        + destruct (Hk k name Hn) as (i' & c' & H1 & H2 & H3).
          exists i', c'. split; [exact H1|]. split; [exact H2|].
          replace (j + Z.of_nat (S k)) with (j + 1 + Z.of_nat k) by lia.
          exact H3.
      - intros n p Hn.
        destruct (Hm n p Hn) as [Hn'|(k & name & H1 & H2 & H3)].
        + rewrite Hm0 in Hn'.
          destruct (decide (ToLower col = n)) as [e|ne].
          * rewrite e, lookup_insert_eq in Hn'. inversion Hn'; subst p.
            right. exists 0%nat, col. simpl.
            split; [reflexivity|]. split; [exact e|lia].
          * rewrite lookup_insert_ne in Hn' by assumption. left. exact Hn'.
        + right. exists (S k), name. simpl. split; [exact H1|].
          split; [exact H2|lia]. }
    destruct (bool_decide (Type_ tcol = VirtCol)) eqn:Ev; intros Hloop.
    + apply bool_decide_eq_true in Ev.
      eapply Hstep; cycle 4;
        [exact Hloop | | reflexivity | reflexivity | reflexivity].
      eapply resolved_virtual; eassumption.
    + apply bool_decide_eq_false in Ev.
      eapply Hstep; cycle 4;
        [exact Hloop | | reflexivity | reflexivity | reflexivity].
      eapply resolved_plain; eassumption.
Qed.

Lemma sort_loop_shape (tname : string) (table : Table)
    (rmap : gmap string Z) :
  forall (sort done sort' : list SortField),
    sort_loop tname table rmap sort done = (sort', None) ->
    exists new,
      sort' = done ++ new
      /\ Forall2 (fun s s' => exists i, rmap !! SName s = Some i /\
                                        s' = set_SIndex s i) sort new.
Proof.
  induction sort as [|s sort IH]; intros done sort'; simpl.
  - intros Heq; inversion Heq; subst. exists []. rewrite app_nil_r.
    split; [reflexivity|constructor].
  - destruct (ColumnsIndex table !! SName s); [|discriminate].
    destruct (rmap !! SName s) as [i|] eqn:Ei; [|discriminate].
    intros Hloop. apply IH in Hloop as (new & -> & Hall).
    exists (set_SIndex s i :: new). rewrite <- app_assoc. split; [reflexivity|].
    constructor; [eauto | exact Hall].
Qed.

Local Abbreviation resolve :=
  (BuildResponseIndexes ToLower ColumnType_zero UpdateType_zero).

Lemma resolve_inv (req : Request) (table : Table) (req' : Request)
    (idx : list Z) (cols : list Column) :
  resolve req table = Ok (req', idx, cols, None) ->
  exists acc,
    resolve_loop ToLower ColumnType_zero UpdateType_zero
      (RTable (expand_columns req table)) table 0
      (RColumns (expand_columns req table)) (mkResolved [] [] ∅)
      = Ok (acc, None)
    /\ idx = r_indexes acc /\ cols = r_columns acc
    /\ req' = set_Sort (expand_columns req table) (RSort req')
    /\ sort_loop (RTable (expand_columns req table)) table (r_map acc)
         (RSort (expand_columns req table)) [] = (RSort req', None).
Proof.
  unfold BuildResponseIndexes.
  destruct (resolve_loop _ _ _ _ _ _ _ _) as [[acc [e|]]|]; simpl;
    try discriminate.
  destruct (sort_loop _ _ _ _ _) as [sort e] eqn:Es.
  intros Heq; inversion Heq; subst. exists acc. simpl. auto.
Qed.

(** X12.  When the resolver succeeds it gives every requested column one
    index and one output column, in the order of the request: the column
    at position [k] carries [Index k] and the lower-cased name; a plain
    column has the type and the index of the table's column and
    [RefIndex 0]; a virtual one has the index and the type listed for its
    name in [VirtKeyMap] and the table's index as [RefIndex]. *)
Theorem resolver_output_columns (req : Request) (table : Table)
    (req' : Request) (idx : list Z) (cols : list Column) :
  resolve req table = Ok (req', idx, cols, None) ->
  length idx = length (RColumns req')
  /\ length cols = length (RColumns req')
  /\ forall k name, RColumns req' !! k = Some name ->
       exists i c, idx !! k = Some i /\ cols !! k = Some c /\
                   column_resolved table (Z.of_nat k) name i c.
Proof.
  intros Hres.
  pose proof (BuildResponseIndexes_request _ _ _ _ _ _ _ _ _ Hres) as [HC _].
  apply resolve_inv in Hres as (acc & Hloop & -> & -> & _ & _).
  apply resolve_loop_shape in Hloop
    as (idxs & cs & Hi & Hc & Hli & Hlc & Hk & _).
  simpl in Hi, Hc. rewrite Hi, Hc, HC.
  split; [exact Hli|]. split; [exact Hlc|].
  intros k name Hn. destruct (Hk k name Hn) as (i & c & H1 & H2 & H3).
  exists i, c. rewrite Z.add_0_l in H3. auto.
Qed.

(** X13.  When the resolver succeeds every sort field keeps its name and
    direction and is given the position of an output column of that name,
    so the comparator finds its column. *)
Theorem resolver_sort_positions (req : Request) (table : Table)
    (req' : Request) (idx : list Z) (cols : list Column) :
  resolve req table = Ok (req', idx, cols, None) ->
  Forall2 (fun s s' =>
             SName s' = SName s /\ SDirection s' = SDirection s /\
             exists c, index cols (SIndex s') = Ok c /\ Name c = SName s)
          (RSort req) (RSort req').
Proof.
  intros Hres.
  apply resolve_inv in Hres as (acc & Hloop & _ & -> & _ & Hsort).
  destruct (expand_columns_fields req table) as (_ & HS & _).
  rewrite HS in Hsort.
  apply resolve_loop_shape in Hloop
    as (idxs & cs & _ & Hc & _ & _ & Hk & Hm).
  apply sort_loop_shape in Hsort as (new & -> & Hall). simpl in *.
  eapply Forall2_impl; [exact Hall|].
  intros s s' (p & Hp & ->). simpl. split; [reflexivity|].
  split; [reflexivity|].
  destruct (Hm _ _ Hp) as [Hn|(k & name & Hn & Hlow & ->)];
    [rewrite lookup_empty in Hn; discriminate|].
  destruct (Hk k name Hn) as (i & c & _ & Hck & Hcol).
  exists c. split.
  - unfold index. rewrite Z.add_0_l.
    assert ((Z.of_nat k <? 0) = false) as -> by (apply Z.ltb_ge; lia).
    rewrite Nat2Z.id, Hc. simpl. rewrite Hck. reflexivity.
  - destruct Hcol; simpl; exact Hlow.
Qed.

End ResolverShape.

(** The sample table, with a column in capitals and a virtual one. *)
Lemma resolver_output_columns_witness :
  exists req' idx cols,
    BuildResponseIndexes lower StringCol StaticUpdate
      (request_for ["State"; "last_update"] [] []) hosts_table
    = Ok (req', idx, cols, None)
    /\ idx = [1; -11]
    /\ (length idx = length (RColumns req')
        /\ length cols = length (RColumns req')
        /\ forall k name, RColumns req' !! k = Some name ->
             exists i c, idx !! k = Some i /\ cols !! k = Some c /\
                         column_resolved lower StringCol StaticUpdate
                           hosts_table (Z.of_nat k) name i c).
Proof.
  eexists _, _, _. split; [vm_compute; reflexivity|].
  split; [reflexivity|].
  apply (resolver_output_columns lower StringCol StaticUpdate
           (request_for ["State"; "last_update"] [] []) hosts_table).
  vm_compute. reflexivity.
Defined.

(** A sort field that arrives with a stale position. *)
Lemma resolver_sort_positions_witness :
  exists req' idx cols,
    BuildResponseIndexes lower StringCol StaticUpdate
      (request_for ["name"; "State"]
         [ {| SName := "state"; SDirection := Desc; SIndex := 7 |} ] [])
      hosts_table
    = Ok (req', idx, cols, None)
    /\ RSort req' = [by_state_desc]
    /\ Forall2 (fun s s' =>
                  SName s' = SName s /\ SDirection s' = SDirection s /\
                  exists c, index cols (SIndex s') = Ok c /\
                            Name c = SName s)
               [ {| SName := "state"; SDirection := Desc; SIndex := 7 |} ]
               (RSort req').
Proof.
  eexists _, _, _. split; [vm_compute; reflexivity|].
  split; [reflexivity|].
  apply (resolver_sort_positions lower StringCol StaticUpdate
           (request_for ["name"; "State"]
              [ {| SName := "state"; SDirection := Desc; SIndex := 7 |} ] [])
           hosts_table _ [0; 1]).
  vm_compute. reflexivity.
Defined.

(** ** The resolver and the collector together *)

Lemma elem_of_virtColumns (c : Column) (cols : list Column) :
  c ∈ virtColumns cols <-> 0 < RefIndex c /\ c ∈ cols.
Proof. unfold virtColumns. rewrite list_elem_of_filter. reflexivity. Qed.

Lemma elem_of_backendColumns (c : Column) (cols : list Column) :
  c ∈ cols -> ¬ 0 < RefIndex c -> Name c ∈ backendColumns cols.
Proof.
  intros Hc Hr. unfold backendColumns. apply list_elem_of_fmap.
  exists c. split; [reflexivity|]. rewrite list_elem_of_filter. auto.
Qed.

(** X14.  The collector takes an output column for virtual when its
    [RefIndex] is positive, and the resolver stores the table's index
    there.  So a requested column is filled in locally exactly when the
    table's column is virtual and does not come first in the table; every
    other column, a virtual one at table index 0 included, is asked of
    the backend. *)
Theorem passthrough_virtual_columns
    (ToLower : string -> string) (ColumnType_zero : ColumnType)
    (UpdateType_zero : UpdateType) (req : Request) (table : Table)
    (req' : Request) (idx : list Z) (cols : list Column)
    (k : nat) (name : string) :
  BuildResponseIndexes ToLower ColumnType_zero UpdateType_zero req table
    = Ok (req', idx, cols, None) ->
  RColumns req' !! k = Some name ->
  exists c i tcol,
    cols !! k = Some c
    /\ ColumnsIndex table !! ToLower name = Some i
    /\ index (Columns table) i = Ok tcol
    /\ (c ∈ virtColumns cols <-> Type_ tcol = VirtCol /\ i <> 0)
    /\ (Type_ tcol <> VirtCol \/ i = 0 ->
        ToLower name ∈ backendColumns cols).
Proof.
  intros Hres Hname.
  pose proof (BuildResponseIndexes_request _ _ _ _ _ _ _ _ _ Hres) as [HC _].
  apply resolve_inv in Hres as (acc & Hloop & _ & -> & _ & _).
  apply resolve_loop_shape in Hloop as (idxs & cs & _ & Hc & _ & _ & Hk & _).
  simpl in Hc. subst cs. rewrite HC in Hname.
  destruct (Hk k name Hname) as (i0 & c & _ & Hck & Hcol).
  assert (c ∈ r_columns acc) as Hin by (eapply list_elem_of_lookup_2; eauto).
  destruct Hcol as [i tcol Hi Ht Hty|i tcol Hi Ht Hty];
    eexists _, i, tcol; (split; [exact Hck|]); (split; [exact Hi|]);
    (split; [exact Ht|]).
  - split.
    + rewrite elem_of_virtColumns. simpl. split; [lia | tauto].
    + intros _.
      match goal with
      | Hin : ?c ∈ _ |- _ => apply (elem_of_backendColumns c); [exact Hin|]
      end.
      simpl. lia.
  - apply index_Ok in Ht as [Hi0 _]. split.
    + rewrite elem_of_virtColumns. simpl. split.
      * intros [Hpos _]. split; [exact Hty | lia].
      * intros [_ Hne]. split; [lia | exact Hin].
    + intros [Hne| ->]; [contradiction|].
      match goal with
      | Hin : ?c ∈ _ |- _ => apply (elem_of_backendColumns c); [exact Hin|]
      end.
      simpl. lia.
Qed.

(** A passthrough table whose first column is virtual. *)
Definition virtual_first_table : Table :=
  {| TName := "log";
     Columns :=
       [ {| Name := "name"; Type_ := VirtCol; Index := 0; RefIndex := 0;
            Update := VirtUpdate |};
         {| Name := "message"; Type_ := StringCol; Index := 1;
            RefIndex := 0; Update := DynamicUpdate |};
         {| Name := "key"; Type_ := VirtCol; Index := 2; RefIndex := 0;
            Update := VirtUpdate |} ];
     ColumnsIndex := {[ "name" := 0; "message" := 1; "key" := 2 ]};
     PassthroughOnly := true; DynamicColCacheIndexes := [] |}.

(** Of the two virtual columns only [key] is filled in locally; [name],
    the table's first column, is asked of the backend. *)
Lemma passthrough_virtual_columns_witness :
  exists req' idx cols,
    BuildResponseIndexes lower StringCol StaticUpdate
      (request_for ["name"; "message"; "key"] [] []) virtual_first_table
    = Ok (req', idx, cols, None)
    /\ backendColumns cols = ["name"; "message"]
    /\ exists c i tcol,
         cols !! 0%nat = Some c
         /\ ColumnsIndex virtual_first_table !! lower "name" = Some i
         /\ index (Columns virtual_first_table) i = Ok tcol
         /\ (c ∈ virtColumns cols <-> Type_ tcol = VirtCol /\ i <> 0)
         /\ (Type_ tcol <> VirtCol \/ i = 0 ->
             lower "name" ∈ backendColumns cols).
Proof.
  eexists _, _, _. split; [vm_compute; reflexivity|].
  split; [vm_compute; reflexivity|].
  eapply (passthrough_virtual_columns lower StringCol StaticUpdate
            (request_for ["name"; "message"; "key"] [] [])
            virtual_first_table _ [-2; 1; -1] _ 0%nat "name").
  - vm_compute. reflexivity.
  - reflexivity.
Defined.

(** ** Further properties of the backend selector *)

#[global] Instance outcome_eq_dec {A} `{EqDecision A} : EqDecision (outcome A).
Proof. solve_decision. Defined.

Section BackendSelection.

Variable DataStore : gmap string Peer.

Lemma backends_loop_map (backends : list string) :
  forall m m' : gmap string string,
    backends_loop DataStore backends m = (m', None) ->
    forall b v, m' !! b = Some v <->
      (b ∈ backends /\ v = b) \/ ((b ∉ backends) /\ m !! b = Some v).
Proof.
  induction backends as [|b0 rest IH]; intros m m'; simpl.
  - intros Heq; inversion Heq; subst. intros b v. split.
    + intros H. right. split; [apply not_elem_of_nil | exact H].
    + intros [[H _]|[_ H]]; [apply elem_of_nil in H; contradiction | exact H].
  - destruct (DataStore !! b0); [|discriminate].
    intros Hloop b v. rewrite (IH _ _ Hloop), not_elem_of_cons, elem_of_cons.
    destruct (decide (b = b0)) as [->|ne].
    + rewrite lookup_insert_eq. destruct (decide (b0 ∈ rest)); split.
      * intros [[H1 H2]|[H1 H2]]; [left; auto | contradiction].
      * intros [[_ H]|[[H _] _]]; [left; auto | congruence].
      * intros [[H1 H2]|[H1 H2]]; [contradiction | left; split; [auto|congruence]].
      * intros [[_ H]|[[H _] _]]; [right; split; [auto|congruence] | congruence].
    + rewrite lookup_insert_ne by congruence. split.
      * intros [[H1 H2]|[H1 H2]]; [left | right]; auto.
      * intros [[[H|H] H2]|[[_ H1] H2]]; [congruence | left | right]; auto.
Qed.

(** X15.  When every named backend is registered, [ExpandRequestBackends]
    returns their number and a map that sends each named backend to
    itself and holds nothing else; a request that names none gets no map
    at all. *)
Theorem expand_request_backends (req : Request)
    (bm : option (gmap string string)) (n : Z) :
  ExpandRequestBackends DataStore req = (bm, n, None) ->
  n = len (RBackends req)
  /\ (forall b, b ∈ RBackends req -> is_Some (DataStore !! b))
  /\ match bm with
     | None => RBackends req = []
     | Some m =>
         RBackends req <> [] /\
         forall b v, m !! b = Some v <-> b ∈ RBackends req /\ v = b
     end.
Proof.
  unfold ExpandRequestBackends.
  destruct (0 <? len (RBackends req)) eqn:En.
  - pose proof (backends_loop_result DataStore (RBackends req) ∅) as Hall.
    destruct (backends_loop DataStore (RBackends req) ∅) as [m e] eqn:El.
    intros Heq; inversion Heq; subst. simpl in Hall.
    split; [reflexivity|]. split; [exact Hall|]. split.
    + intros Hnil. rewrite Hnil in En. discriminate.
    + intros b v. rewrite (backends_loop_map _ _ _ El), lookup_empty.
      split; [intros [H|[_ H]]; [exact H | discriminate] | auto].
  - intros Heq; inversion Heq; subst. split; [reflexivity|].
    apply Z.ltb_ge in En. unfold len in En.
    destruct (RBackends req) as [|b rest]; [|simpl in En; lia].
    split; [|reflexivity].
    intros b Hb. apply elem_of_nil in Hb. contradiction.
Qed.

(** The peers a request addresses: all of them when it names no backend,
    otherwise those whose [ID] it names. *)
Definition addressed (backends : list string) (id : string) : Prop :=
  backends = [] \/ ID (peer_of DataStore id) ∈ backends.

#[global] Instance addressed_dec (backends : list string) (id : string) :
  Decision (addressed backends id).
Proof. unfold addressed. apply _. Defined.

(** The addressed peers that are idling, for a table with cached dynamic
    columns. *)
Definition wakes (table : Table) (id : string) : Prop :=
  spin_up_required table (peer_of DataStore id) = Ok true.

#[global] Instance wakes_dec (table : Table) (id : string) :
  Decision (wakes table id).
Proof. unfold wakes. apply _. Defined.

Lemma addressed_test (req : Request) (bm : option (gmap string string))
    (n : Z) (id : string) :
  ExpandRequestBackends DataStore req = (bm, n, None) ->
  (0 <? n) && negb (bool_decide
                      (is_Some (default ∅ bm !! ID (peer_of DataStore id))))
    = false
  <-> addressed (RBackends req) id.
Proof.
  unfold ExpandRequestBackends, addressed.
  destruct (0 <? len (RBackends req)) eqn:En.
  - destruct (backends_loop DataStore (RBackends req) ∅) as [m e] eqn:El.
    intros Heq; inversion Heq; subst. rewrite En. simpl.
    rewrite negb_false_iff, bool_decide_eq_true.
    assert (RBackends req <> []) as Hne
      by (intros Hnil; rewrite Hnil in En; discriminate).
    split.
    + intros [v Hv]. right.
      apply (backends_loop_map _ _ _ El) in Hv as [[H _]|[_ H]]; [exact H|].
      rewrite lookup_empty in H. discriminate.
    + intros [H|H]; [contradiction|].
      exists (ID (peer_of DataStore id)).
      apply (backends_loop_map _ _ _ El). left. auto.
  - intros Heq; inversion Heq; subst. rewrite En. simpl.
    apply Z.ltb_ge in En. unfold len in En.
    destruct (RBackends req) as [|b rest]; [|simpl in En; lia].
    split; auto.
Qed.

Lemma select_loop_filter (table : Table) (bm : option (gmap string string))
    (n : Z) (backends : list string) :
  (forall id,
     (0 <? n) && negb (bool_decide
                         (is_Some (default ∅ bm
                                     !! ID (peer_of DataStore id)))) = false
     <-> addressed backends id) ->
  forall order sel spin sel' spin',
    select_loop DataStore table bm n order sel spin = Ok (sel', spin') ->
    sel' = sel ++ filter (addressed backends) order
    /\ spin' = spin ++ filter (wakes table) (filter (addressed backends) order).
Proof.
  intros Htest. induction order as [|id order IH]; intros sel spin sel' spin';
    simpl.
  - intros Heq; inversion Heq; subst. rewrite !app_nil_r. auto.
  - rewrite filter_cons.
    destruct ((0 <? n) && negb _) eqn:Ec.
    + rewrite decide_False
        by (intros Ha; apply Htest in Ha; congruence).
      apply IH.
    + rewrite decide_True by (apply Htest; exact Ec).
      destruct (spin_up_required table (peer_of DataStore id)) as [w|] eqn:Ew;
        simpl; [|discriminate].
      intros Hloop. apply IH in Hloop as [-> ->].
      rewrite <- !app_assoc. split; [reflexivity|].
      rewrite filter_cons. destruct w.
      * rewrite decide_True by exact Ew. rewrite <- app_assoc. reflexivity.
      * rewrite decide_False by (unfold wakes; rewrite Ew; discriminate).
        reflexivity.
Qed.

End BackendSelection.

Lemma expand_request_backends_witness :
  exists m,
    ExpandRequestBackends three_peers (request_for [] [] ["C"; "A"])
    = (Some m, 2, None)
    /\ (2 = len ["C"; "A"]
        /\ (forall b, b ∈ ["C"; "A"] -> is_Some (three_peers !! b))
        /\ (["C"; "A"] <> [] /\
            forall b v, m !! b = Some v <-> b ∈ ["C"; "A"] /\ v = b)).
Proof.
  eexists. split; [vm_compute; reflexivity|].
  apply (expand_request_backends three_peers
           (request_for [] [] ["C"; "A"]) (Some _) 2).
  vm_compute. reflexivity.
Defined.

(** ** Further properties of the builder *)

(** The response [BuildResponse] starts from, once the request is
    resolved. *)
Definition fresh_response (req : Request) (cols : list Column) : Response :=
  {| Code := 200; Result := NilSlice; ResultTotal := 0; Req := req;
     Error := None; Failed := ∅; RespColumns := cols |}.

(** [if res.Result == nil { res.Result = make([][]interface{}, 0) }]. *)
Definition non_nil (res : Response) : Response :=
  if is_nil (Result res) then set_Result res make_empty else res.

(** The call of [SpinUpPeers], made when there is a peer to wake. *)
Definition wake_up (spin : list string) : list Event :=
  if 0 <? len spin then [EvSpinUp spin] else [].

(** The collector's trace gains queries and nothing else. *)
Definition only_queries (trace0 : list Event) (st : PTState) : Prop :=
  forall e, e ∈ pt_trace st -> e ∈ trace0 \/ exists id, e = EvQuery id.

Lemma moves_only_queries (fmt_other : StatusValue -> string)
    (DataStore : gmap string Peer) (trace0 : list Event) (st st' : PTState) :
  only_queries trace0 st -> moves fmt_other DataStore st st' ->
  only_queries trace0 st'.
Proof.
  intros Hq Hm. destruct Hm; try exact Hq.
  intros ev Hev. simpl in Hev. apply elem_of_app in Hev as [Hev|Hev].
  - apply Hq, Hev.
  - apply list_elem_of_singleton in Hev. right. eauto.
Qed.

Section BuilderFacts.

Variable ToLower : string -> string.
Variable ColumnType_zero : ColumnType.
Variable UpdateType_zero : UpdateType.
Variable NumberToFloat : Cell -> float.
Variable sort_Sort :
  (list Row -> Z -> Z -> outcome bool) -> list Row -> outcome (list Row).
Variable Query : Peer -> Request -> list Row * option string.
Variable GetRowValue : Peer -> Z -> Row -> Z -> Table -> Z -> Cell.
Variable fmt_other : StatusValue -> string.
Variable spare : nat -> nat.
Variable Tables : gmap string Table.
Variable DataStore : gmap string Peer.
Variable DataStoreOrder : list string.
Variable BuildLocalResponseData :
  Peer -> Response -> Z -> list Z -> Response.

Local Abbreviation build :=
  (BuildResponse ToLower ColumnType_zero UpdateType_zero NumberToFloat
     sort_Sort Query GetRowValue fmt_other spare Tables DataStore
     DataStoreOrder BuildLocalResponseData).
Local Abbreviation resolve :=
  (BuildResponseIndexes ToLower ColumnType_zero UpdateType_zero).
Local Abbreviation post :=
  (BuildResponsePostProcessing NumberToFloat sort_Sort).

(** The stages a successful [BuildResponse] has gone through. *)
Lemma BuildResponse_inv (sched : list nat) (req : Request) (res : Response)
    (trace : list Event) :
  build sched req = Ok (res, None, trace) ->
  exists req' idx cols bm n sel spin peers res1 trace1,
    resolve req (default zeroTable (Tables !! RTable req))
      = Ok (req', idx, cols, None)
    /\ ExpandRequestBackends DataStore req' = (bm, n, None)
    /\ select_loop DataStore (default zeroTable (Tables !! RTable req)) bm n
         DataStoreOrder [] [] = Ok (sel, spin)
    /\ meta_peers DataStoreOrder (default zeroTable (Tables !! RTable req))
         sel = Ok peers
    /\ collect Query GetRowValue fmt_other spare DataStore
         BuildLocalResponseData sched
         (default zeroTable (Tables !! RTable req)) idx cols (len idx) peers
         (fresh_response req' cols) (wake_up spin) = Ok (res1, trace1)
    /\ post (non_nil res1) = Ok res
    /\ trace = trace1 ++ [EvPostProcessing].
Proof.
  unfold BuildResponse.
  set (table := default zeroTable (Tables !! RTable req)).
  destruct (resolve req table) as [[[[req' idx] cols] [e|]]|] eqn:Er; simpl;
    try discriminate.
  destruct (ExpandRequestBackends DataStore req') as [[bm n] [e|]] eqn:Eb;
    simpl; try discriminate.
  destruct (select_loop DataStore table bm n DataStoreOrder [] [])
    as [[sel spin]|] eqn:Es; simpl; [|discriminate].
  destruct (meta_peers DataStoreOrder table sel) as [peers|] eqn:Em; simpl;
    [|discriminate].
  destruct (collect _ _ _ _ _ _ _ _ _ _ _ _ _ _) as [[res1 trace1]|] eqn:Ec;
    simpl; [|discriminate].
  destruct (BuildResponsePostProcessing _ _ _) as [r|] eqn:Ep; simpl;
    [|discriminate].
  intros Heq; inversion Heq; subst.
  exists req', idx, cols, bm, n, sel, spin, peers, res1, trace1.
  repeat split; assumption.
Qed.

Lemma resolve_backends (req : Request) (table : Table) (req' : Request)
    (idx : list Z) (cols : list Column) :
  resolve req table = Ok (req', idx, cols, None) ->
  RBackends req' = RBackends req.
Proof.
  intros Hres. apply resolve_inv in Hres as (_ & _ & _ & _ & -> & _).
  simpl. apply expand_columns_fields.
Qed.

Lemma select_addressed (req req' : Request) (table : Table) (idx : list Z)
    (cols : list Column) (bm : option (gmap string string)) (n : Z)
    (sel spin : list string) :
  resolve req table = Ok (req', idx, cols, None) ->
  ExpandRequestBackends DataStore req' = (bm, n, None) ->
  select_loop DataStore table bm n DataStoreOrder [] [] = Ok (sel, spin) ->
  sel = filter (addressed DataStore (RBackends req)) DataStoreOrder
  /\ spin = filter (wakes DataStore table) sel.
Proof.
  intros Hres Hb Hs. rewrite <- (resolve_backends _ _ _ _ _ Hres).
  apply (select_loop_filter DataStore table bm n (RBackends req')) in Hs
    as [-> ->]; [auto|].
  intros id. apply addressed_test. exact Hb.
Qed.

Lemma local_loop_all (table : Table) (n : Z) (idx : list Z) :
  is_meta table = false ->
  forall ids res trace,
    local_loop DataStore BuildLocalResponseData table n idx ids res trace
    = (foldl (fun r id => BuildLocalResponseData (peer_of DataStore id) r n idx)
             res ids,
       trace ++ (EvLocalData <$> ids)).
Proof.
  intros Hm. induction ids as [|id ids IH]; intros res trace; simpl.
  - rewrite app_nil_r. reflexivity.
  - rewrite Hm, IH, <- app_assoc. reflexivity.
Qed.

(** X16.  For a table served from the peers' caches (not a meta table):
    the addressed peers are those of the registry, in its order, that the
    request names, or all when it names none; the idling ones among them
    are woken in one call when the table has cached dynamic columns; then
    each addressed peer adds its rows once, in that order; then the
    result is post-processed. *)
Theorem build_cached_table (sched : list nat) (req : Request)
    (res : Response) (trace : list Event) :
  let table := default zeroTable (Tables !! RTable req) in
  let sel := filter (addressed DataStore (RBackends req)) DataStoreOrder in
  PassthroughOnly table = false -> is_meta table = false ->
  build sched req = Ok (res, None, trace) ->
  exists req' idx cols,
    resolve req table = Ok (req', idx, cols, None)
    /\ trace = wake_up (filter (wakes DataStore table) sel)
               ++ (EvLocalData <$> sel) ++ [EvPostProcessing]
    /\ post (non_nil
               (foldl (fun r id =>
                         BuildLocalResponseData (peer_of DataStore id) r
                           (len idx) idx)
                      (fresh_response req' cols) sel))
       = Ok res.
Proof.
  intros table sel Hpt Hmeta Hb.
  apply BuildResponse_inv in Hb
    as (req' & idx & cols & bm & n & sel0 & spin & peers & res1 & trace1
        & Hres & Hbk & Hsel & Hmp & Hcol & Hpost & ->).
  fold table in Hres, Hsel, Hmp, Hcol.
  destruct (select_addressed _ _ _ _ _ _ _ _ _ Hres Hbk Hsel) as [-> ->].
  fold sel in Hmp, Hcol |- *.
  unfold meta_peers in Hmp. rewrite Hmeta in Hmp. inversion Hmp; subst peers.
  unfold collect in Hcol. rewrite Hpt, (local_loop_all _ _ _ Hmeta) in Hcol.
  inversion Hcol; subst. exists req', idx, cols.
  split; [exact Hres|]. split; [rewrite <- app_assoc; reflexivity|].
  exact Hpost.
Qed.

(** X17.  The meta tables [tables] and [columns] are answered by the
    first peer of the registry alone, whichever backends the request
    names; a success therefore needs a registered peer. *)
Theorem build_meta_table (sched : list nat) (req : Request)
    (res : Response) (trace : list Event) :
  let table := default zeroTable (Tables !! RTable req) in
  let sel := filter (addressed DataStore (RBackends req)) DataStoreOrder in
  PassthroughOnly table = false -> is_meta table = true ->
  build sched req = Ok (res, None, trace) ->
  exists first req' idx cols,
    head DataStoreOrder = Some first
    /\ resolve req table = Ok (req', idx, cols, None)
    /\ trace = wake_up (filter (wakes DataStore table) sel)
               ++ [EvLocalData first; EvPostProcessing]
    /\ post (non_nil (BuildLocalResponseData (peer_of DataStore first)
                        (fresh_response req' cols) (len idx) idx))
       = Ok res.
Proof.
  intros table sel Hpt Hmeta Hb.
  apply BuildResponse_inv in Hb
    as (req' & idx & cols & bm & n & sel0 & spin & peers & res1 & trace1
        & Hres & Hbk & Hsel & Hmp & Hcol & Hpost & ->).
  fold table in Hres, Hsel, Hmp, Hcol.
  destruct (select_addressed _ _ _ _ _ _ _ _ _ Hres Hbk Hsel) as [-> ->].
  fold sel in Hmp, Hcol |- *.
  unfold meta_peers in Hmp. rewrite Hmeta in Hmp.
  destruct (index DataStoreOrder 0) as [first|] eqn:Ef; simpl in Hmp;
    [|discriminate].
  inversion Hmp; subst peers.
  apply index_Ok in Ef as [_ Ef].
  unfold collect in Hcol. rewrite Hpt in Hcol. simpl in Hcol.
  rewrite Hmeta in Hcol. inversion Hcol; subst.
  exists first, req', idx, cols.
  split; [rewrite head_lookup; exact Ef|]. split; [exact Hres|].
  split; [rewrite <- app_assoc; reflexivity|]. exact Hpost.
Qed.

Lemma post_non_nil (res r : Response) :
  post res = Ok r -> is_nil (Result res) = false ->
  is_nil (Result r) = false.
Proof.
  unfold BuildResponsePostProcessing.
  destruct (sort_step NumberToFloat sort_Sort res) as [r1|] eqn:E1;
    simpl; [|discriminate].
  destruct (offset_step (total_step r1)) as [r2|] eqn:E2;
    simpl; [|discriminate].
  destruct (limit_step r2) as [r3|] eqn:E3; simpl; [|discriminate].
  intros E4 Hn.
  assert (is_nil (Result r1) = false) as H1.
  { revert E1. unfold sort_step. destruct (0 <? len (RSort (Req res))).
    - destruct (sort_Sort _ _); simpl; [|discriminate].
      intros Heq; inversion Heq; subst. simpl.
      destruct (Result res); [discriminate|reflexivity].
    - intros Heq; inversion Heq; subst. exact Hn. }
  assert (is_nil (Result r2) = false) as H2.
  { revert E2. unfold offset_step, total_step, reslice_from, reslice.
    destruct (ResultTotal r1 =? 0); simpl;
      (destruct (0 <? ROffset (Req r1));
       [destruct (_ <? ROffset (Req r1))|]; simpl;
       [ intros Heq; inversion Heq; reflexivity
       | destruct (_ && _);
         [destruct (Result r1); [discriminate|]|]; simpl;
         intros Heq; inversion Heq; reflexivity
       | intros Heq; inversion Heq; subst; exact H1 ]). }
  assert (is_nil (Result r3) = false) as H3.
  { revert E3. unfold limit_step, reslice.
    destruct (0 <? RLimit (Req r2));
      [destruct (RLimit (Req r2) <? ResultTotal r2)|]; simpl;
      [ destruct (_ && _);
        [destruct (Result r2); [discriminate|]|]; simpl;
        intros Heq; inversion Heq; reflexivity
      | intros Heq; inversion Heq; subst; exact H2
      | intros Heq; inversion Heq; subst; exact H2 ]. }
  revert E4. unfold stats_step. destruct (0 <? len (RStats (Req r3))).
  - destruct (stats_loop _ _ _); simpl; [|discriminate].
    intros Heq; inversion Heq; reflexivity.
  - intros Heq; inversion Heq; subst. exact H3.
Qed.

Lemma passthrough_never_wakes (table : Table) (ids : list string) :
  PassthroughOnly table = true -> filter (wakes DataStore table) ids = [].
Proof.
  intros Hpt. induction ids as [|id ids IH]; [reflexivity|].
  rewrite filter_cons, IH, decide_False; [reflexivity|].
  unfold wakes, spin_up_required. rewrite Hpt. discriminate.
Qed.

(** X18.  For a passthrough table a response returned without an error
    carries code 200, no [Error], the resolved request and columns and a
    result that is not nil, under any schedule and whatever the peers
    answer.  No peer is woken and no cache is read: apart from the
    post-processing the trace holds queries only, each to a peer of the
    registry whose status was read and was not [Down], and, unless the
    table is a meta table, one the request addresses. *)
Theorem build_passthrough_table (sched : list nat) (req : Request)
    (res : Response) (trace : list Event) :
  let table := default zeroTable (Tables !! RTable req) in
  PassthroughOnly table = true ->
  build sched req = Ok (res, None, trace) ->
  (exists req' idx,
     resolve req table = Ok (req', idx, RespColumns res, None)
     /\ Req res = req')
  /\ Code res = 200 /\ Error res = None /\ is_nil (Result res) = false
  /\ (forall e, e ∈ trace -> e = EvPostProcessing \/ exists id, e = EvQuery id)
  /\ (forall id, EvQuery id ∈ trace ->
        exists pid s,
          pid ∈ DataStoreOrder /\ ID (peer_of DataStore pid) = id
          /\ status_PeerStatus (peer_of DataStore pid) = Ok s
          /\ s <> PeerStatusDown
          /\ (is_meta table = false ->
              addressed DataStore (RBackends req) pid)).
Proof.
  intros table Hpt Hb.
  apply BuildResponse_inv in Hb
    as (req' & idx & cols & bm & n & sel0 & spin & peers & res1 & trace1
        & Hres & Hbk & Hsel & Hmp & Hcol & Hpost & ->).
  fold table in Hres, Hsel, Hmp, Hcol.
  destruct (select_addressed _ _ _ _ _ _ _ _ _ Hres Hbk Hsel) as [-> ->].
  rewrite (passthrough_never_wakes _ _ Hpt) in Hcol.
  unfold collect in Hcol. rewrite Hpt in Hcol.
  destruct (BuildPassThroughResult _ _ _ _ _ _ _ _ _ _ _ _) as [st|] eqn:Ept;
    simpl in Hcol; [|discriminate].
  inversion Hcol; subst res1 trace1; clear Hcol.
  assert (collector_frame (pt_res st) (fresh_response req' cols))
    as (HC & _ & HQ & HE & HR).
  { revert Ept.
    apply (collector_invariant _ _ _ _ _ _ _ _
             (fun st => collector_frame (pt_res st)
                          (fresh_response req' cols))).
    - intros st0 st1. apply moves_frame.
    - repeat split. }
  assert (only_queries (wake_up []) st) as Hoq.
  { revert Ept. apply (collector_invariant _ _ _ _ _ _ _ _
                         (only_queries (wake_up []))).
    - intros st0 st1. apply moves_only_queries.
    - intros e He. left. exact He. }
  assert (launched DataStore peers (wake_up []) st) as (_ & Hup & Hin).
  { revert Ept. apply (collector_invariant _ _ _ _ _ _ _ _
                         (launched DataStore peers (wake_up []))).
    - intros st0 st1. apply moves_launched.
    - split; [auto|]. split; [constructor|]. intros i Hi. left. exact Hi. }
  assert (same_meta res (pt_res st)) as (MC & MQ & ME & _ & MR).
  { eapply same_meta_trans; [exact (post_meta _ _ _ _ Hpost)|].
    unfold non_nil. destruct (is_nil (Result (pt_res st))); repeat split. }
  split; [exists req', idx; rewrite MR, HR, MQ, HQ; simpl; auto|].
  split; [rewrite MC, HC; reflexivity|].
  split; [rewrite ME, HE; reflexivity|].
  split.
  { apply (post_non_nil _ _ Hpost). unfold non_nil.
    destruct (is_nil (Result (pt_res st))) eqn:E; [reflexivity | exact E]. }
  split.
  - intros e He. apply elem_of_app in He as [He|He].
    + destruct (Hoq e He) as [Hn|Hq]; [|right; exact Hq].
      apply elem_of_nil in Hn. contradiction.
    + apply list_elem_of_singleton in He. left. exact He.
  - intros id Hid. apply elem_of_app in Hid as [Hid|Hid];
      [|apply list_elem_of_singleton in Hid; discriminate].
    destruct (Hin id Hid) as [Hn|Hu];
      [apply elem_of_nil in Hn; contradiction|].
    apply list_elem_of_fmap in Hu as (p & -> & Hp).
    rewrite Forall_forall in Hup.
    destruct (Hup p Hp) as (pid & s & Hpid & -> & Hs & Hne).
    exists pid, s.
    assert (pid ∈ DataStoreOrder
            /\ (is_meta table = false ->
                addressed DataStore (RBackends req) pid)) as [H1 H2].
    { unfold meta_peers in Hmp. destruct (is_meta table).
      - destruct (index DataStoreOrder 0) as [first|] eqn:Ef;
          simpl in Hmp; [|discriminate].
        inversion Hmp; subst peers.
        apply list_elem_of_singleton in Hpid. subst pid.
        apply index_Ok in Ef as [_ Ef].
        split; [eapply list_elem_of_lookup_2; exact Ef | discriminate].
      - inversion Hmp; subst peers.
        apply list_elem_of_filter in Hpid as [Ha Ho]. auto. }
    auto.
Qed.

(** X19.  Whatever the table, a response returned without an error holds
    a result that is not nil, and post-processing was the last thing
    done. *)
Theorem build_result_never_nil (sched : list nat) (req : Request)
    (res : Response) (trace : list Event) :
  build sched req = Ok (res, None, trace) ->
  is_nil (Result res) = false /\ last trace = Some EvPostProcessing.
Proof.
  intros Hb.
  apply BuildResponse_inv in Hb
    as (req' & idx & cols & bm & n & sel0 & spin & peers & res1 & trace1
        & _ & _ & _ & _ & _ & Hpost & ->).
  split; [|apply last_snoc].
  apply (post_non_nil _ _ Hpost). unfold non_nil.
  destruct (is_nil (Result res1)) eqn:E; [reflexivity | exact E].
Qed.

End BuilderFacts.

(** A peer layer whose cache holds one row per peer, the peer's id. *)
Definition cache_rows (p : Peer) (res : Response) (n : Z) (indexes : list Z)
    : Response :=
  set_Result res (append_slice exact_fit [] (Result res) [[VString (ID p)]]).

Definition meta_table : Table :=
  {| TName := "tables";
     Columns := [ {| Name := "name"; Type_ := StringCol; Index := 0;
                     RefIndex := 0; Update := StaticUpdate |} ];
     ColumnsIndex := {[ "name" := 0 ]};
     PassthroughOnly := false; DynamicColCacheIndexes := [] |}.

Definition all_Tables : gmap string Table :=
  {[ "hosts" := hosts_table; "log" := log_table; "tables" := meta_table ]}.

Definition request_on (table : string) (columns backends : list string)
    : Request :=
  {| RTable := table; RColumns := columns; RFilter := []; RStats := [];
     RLimit := 0; ROffset := 0; RSort := []; RBackends := backends;
     OutputFormat := "json"; ResponseFixed16 := true;
     SendColumnsHeader := false |}.

Definition sample_build (sched : list nat) (req : Request)
    : outcome (Response * option string * list Event) :=
  BuildResponse lower StringCol StaticUpdate number_of_cell sort_none
    scenario_Query no_virtual_value fmt_none exact_fit all_Tables three_peers
    ["A"; "B"; "C"] cache_rows sched req.

(** Backends named out of order: the registry's order decides. *)
Lemma build_cached_table_witness :
  exists res trace,
    sample_build [] (request_on "hosts" ["name"] ["C"; "A"])
      = Ok (res, None, trace)
    /\ elems (Result res) = [[VString "A"]; [VString "C"]]
    /\ exists req' idx cols,
         BuildResponseIndexes lower StringCol StaticUpdate
           (request_on "hosts" ["name"] ["C"; "A"]) hosts_table
           = Ok (req', idx, cols, None)
         /\ trace = wake_up (filter (wakes three_peers hosts_table)
                               (filter (addressed three_peers ["C"; "A"])
                                       ["A"; "B"; "C"]))
                    ++ (EvLocalData <$> filter (addressed three_peers
                                                  ["C"; "A"])
                                               ["A"; "B"; "C"])
                    ++ [EvPostProcessing]
         /\ BuildResponsePostProcessing number_of_cell sort_none
              (non_nil
                 (foldl (fun r id =>
                           cache_rows (peer_of three_peers id) r (len idx) idx)
                        (fresh_response req' cols)
                        (filter (addressed three_peers ["C"; "A"])
                                ["A"; "B"; "C"])))
            = Ok res.
Proof.
  eexists _, _. split; [vm_compute; reflexivity|].
  split; [reflexivity|].
  apply (build_cached_table lower StringCol StaticUpdate number_of_cell
           sort_none scenario_Query no_virtual_value fmt_none exact_fit
           all_Tables three_peers ["A"; "B"; "C"] cache_rows []
           (request_on "hosts" ["name"] ["C"; "A"])).
  - reflexivity.
  - reflexivity.
  - vm_compute. reflexivity.
Defined.

(** Only C is named, and A, the first peer, answers. *)
Lemma build_meta_table_witness :
  exists res trace,
    sample_build [] (request_on "tables" ["name"] ["C"])
      = Ok (res, None, trace)
    /\ elems (Result res) = [[VString "A"]]
    /\ exists first req' idx cols,
         head ["A"; "B"; "C"] = Some first
         /\ BuildResponseIndexes lower StringCol StaticUpdate
              (request_on "tables" ["name"] ["C"]) meta_table
              = Ok (req', idx, cols, None)
         /\ trace = wake_up (filter (wakes three_peers meta_table)
                               (filter (addressed three_peers ["C"])
                                       ["A"; "B"; "C"]))
                    ++ [EvLocalData first; EvPostProcessing]
         /\ BuildResponsePostProcessing number_of_cell sort_none
              (non_nil (cache_rows (peer_of three_peers first)
                          (fresh_response req' cols) (len idx) idx))
            = Ok res.
Proof.
  eexists _, _. split; [vm_compute; reflexivity|].
  split; [reflexivity|].
  apply (build_meta_table lower StringCol StaticUpdate number_of_cell
           sort_none scenario_Query no_virtual_value fmt_none exact_fit
           all_Tables three_peers ["A"; "B"; "C"] cache_rows []
           (request_on "tables" ["name"] ["C"])).
  - reflexivity.
  - reflexivity.
  - vm_compute. reflexivity.
Defined.

(** The log table under the schedule in which A picks up C's error. *)
Lemma build_passthrough_table_witness :
  exists res trace,
    sample_build [0; 0; 0; 1; 2; 1; 1]%nat (request_on "log" ["message"] [])
      = Ok (res, None, trace)
    /\ trace = [EvQuery "A"; EvQuery "C"; EvPostProcessing]
    /\ Code res = 200 /\ Error res = None /\ is_nil (Result res) = false.
Proof.
  eexists _, _. split; [vm_compute; reflexivity|].
  split; [reflexivity|].
  edestruct (build_passthrough_table lower StringCol StaticUpdate
               number_of_cell sort_none scenario_Query no_virtual_value
               fmt_none exact_fit all_Tables three_peers ["A"; "B"; "C"]
               cache_rows [0; 0; 0; 1; 2; 1; 1]%nat
               (request_on "log" ["message"] []))
    as (_ & HC & HE & HN & _).
  - reflexivity.
  - vm_compute. reflexivity.
  - split; [exact HC|]. split; [exact HE | exact HN].
Defined.

Lemma build_result_never_nil_witness :
  exists res trace,
    sample_build [] (request_on "hosts" ["name"] ["B"])
      = Ok (res, None, trace)
    /\ is_nil (Result res) = false /\ last trace = Some EvPostProcessing.
Proof.
  eexists _, _. split; [vm_compute; reflexivity|].
  apply (build_result_never_nil lower StringCol StaticUpdate number_of_cell
           sort_none scenario_Query no_virtual_value fmt_none exact_fit
           all_Tables three_peers ["A"; "B"; "C"] cache_rows []
           (request_on "hosts" ["name"] ["B"])).
  vm_compute. reflexivity.
Defined.

(** ** Further properties of the wire encoder *)

Lemma string_app_assoc (s1 s2 s3 : string) :
  (s1 +:+ s2) +:+ s3 = s1 +:+ s2 +:+ s3.
Proof.
  induction s1 as [|c s1 IH]; [reflexivity|].
  change (String c ((s1 +:+ s2) +:+ s3) = String c (s1 +:+ s2 +:+ s3)).
  f_equal. exact IH.
Qed.

Lemma string_app_nil_r (s : string) : s +:+ "" = s.
Proof.
  induction s as [|c s IH]; [reflexivity|].
  change (String c (s +:+ "") = String c s). f_equal. exact IH.
Qed.

(** The separator between two rows. *)
Definition row_sep : string := "," +:+ nl.

(** The rows after the first, each behind a separator. *)
Definition tail_rows (encs : list string) : string :=
  fold_right (fun e s => row_sep +:+ e +:+ s) "" encs.

Lemma concat_tail_rows (e : string) (encs : list string) :
  String.concat row_sep (e :: encs) = e +:+ tail_rows encs.
Proof.
  revert e. induction encs as [|e' encs IH]; intros e.
  - simpl. rewrite string_app_nil_r. reflexivity.
  - change (String.concat row_sep (e :: e' :: encs))
      with (e +:+ row_sep +:+ String.concat row_sep (e' :: encs)).
    rewrite IH. reflexivity.
Qed.

(** The envelope of the wrapped format around the rows. *)
Definition wrapped_open : string := "{" +:+ dq +:+ "data" +:+ dq +:+ ":[".

Definition wrapped_close (failed : string) (total : Z) : string :=
  "]" +:+ nl +:+ "," +:+ dq +:+ "failed" +:+ dq +:+ ":" +:+ failed +:+
  nl +:+ "," +:+ dq +:+ "total" +:+ dq +:+ ":" +:+ itoa total +:+ "}".

Section SenderFacts.

Variable json_Marshal : Row -> string + string.
Variable json_Marshal_map : gmap string string -> string.
Variable spare : nat -> nat.
Variable Conn : Type.
Variable Write : Conn -> string -> Conn * (Z * option string).

Local Abbreviation send := (Send json_Marshal json_Marshal_map spare Conn Write).
Local Abbreviation body_of := (body json_Marshal json_Marshal_map).

(** A row and its encoding. *)
Definition encodes (row : Row) (e : string) : Prop := json_Marshal row = inl e.

Lemma marshal_rows_tail (rows : list Row) (encs : list string) :
  Forall2 encodes rows encs ->
  forall (i : nat) (acc : string),
    marshal_rows json_Marshal (S i) rows acc = inl (acc +:+ tail_rows encs).
Proof.
  induction 1 as [|row e rows encs He _ IH]; intros i acc; simpl.
  - rewrite string_app_nil_r. reflexivity.
  - rewrite He, IH. f_equal. fold row_sep. rewrite !string_app_assoc.
    reflexivity.
Qed.

Lemma marshal_rows_all (rows : list Row) (encs : list string) (acc : string) :
  Forall2 encodes rows encs ->
  marshal_rows json_Marshal 0 rows acc
  = inl (acc +:+ String.concat row_sep encs).
Proof.
  intros Hall. destruct Hall as [|row e rows encs He Hall].
  - simpl. rewrite string_app_nil_r. reflexivity.
  - simpl marshal_rows. rewrite He, (marshal_rows_tail _ _ Hall).
    rewrite concat_tail_rows, string_app_assoc. reflexivity.
Qed.

Lemma marshal_rows_stops (pre : list Row) (row : Row) (post : list Row)
    (e : string) :
  Forall (fun r => exists t, encodes r t) pre ->
  json_Marshal row = inr e ->
  forall (i : nat) (acc : string),
    marshal_rows json_Marshal i (pre ++ row :: post) acc = inr e.
Proof.
  intros Hpre Hrow. induction Hpre as [|r pre [t Ht] _ IH]; intros i acc; simpl.
  - rewrite Hrow. reflexivity.
  - rewrite Ht. apply IH.
Qed.

(** The rows [Send] encodes: the header row, when asked for, then the
    result. *)
Definition sent_rows (res : Response) : list Row :=
  (if SendColumnsHeader (Req res) then [header_row (Req res)] else [])
  ++ elems (Result res).

Lemma add_header_rows (res : Response) :
  elems (Result (add_header spare res)) = sent_rows res
  /\ is_nil (Result (add_header spare res))
     = (if SendColumnsHeader (Req res) then false else is_nil (Result res))
  /\ Error (add_header spare res) = Error res
  /\ Failed (add_header spare res) = Failed res
  /\ ResultTotal (add_header spare res) = ResultTotal res.
Proof.
  unfold add_header, sent_rows.
  destruct (SendColumnsHeader (Req res)); [|repeat split].
  unfold set_Result. cbn [Result Error Failed ResultTotal].
  destruct (elems_append_slice spare ([] : Row) NilSlice
              [header_row (Req res)] I) as [He Hwf].
  destruct (elems_append_slice spare ([] : Row) _ (elems (Result res)) Hwf)
    as [-> _].
  rewrite He. split; [reflexivity|]. split; [|repeat split].
  simpl. destruct (_ <=? _)%nat; reflexivity.
Qed.

Lemma Send_res (res : Response) (c : Conn) :
  s_res (send res c) = add_header spare res.
Proof.
  unfold Send. destruct (body _ _ _) as [b|e]; [|reflexivity].
  destruct (ResponseFixed16 _); simpl;
    repeat match goal with
           | |- context [Write ?c ?s] => destruct (Write c s) as [? [? ?]]
           end; reflexivity.
Qed.

Lemma Send_size (res : Response) (c : Conn) (b : string) :
  body_of (add_header spare res) = inl b ->
  s_size (send res c) = Z.of_nat (String.length b) + 1
  /\ s_counted (send res c) = Some (Z.of_nat (String.length b)).
Proof.
  intros Hb. unfold Send. rewrite Hb.
  destruct (ResponseFixed16 _); simpl;
    repeat match goal with
           | |- context [Write ?c ?s] => destruct (Write c s) as [? [? ?]]
           end; split; reflexivity.
Qed.

(** The status line in front of a body, when fixed framing is asked
    for. *)
Definition frame (res : Response) (b : string) : list string :=
  if ResponseFixed16 (Req res)
  then [status_line (Code res) (Z.of_nat (String.length b) + 1)]
  else [].

Lemma is_wrapped_not_json (fmt : string) :
  is_wrapped fmt = true -> is_json fmt = false.
Proof.
  unfold is_wrapped. intros H. apply String.eqb_eq in H. subst. reflexivity.
Qed.

(** The body of a response without error, in either JSON format. *)
Definition json_layout (res : Response) (encs : list string) : string :=
  if is_wrapped (OutputFormat (Req res))
  then wrapped_open +:+ String.concat row_sep encs +:+
       wrapped_close (json_Marshal_map (Failed res)) (ResultTotal res)
  else "[" +:+ String.concat row_sep encs +:+ "]".

(** X20.  A response without error in a JSON format goes out as one
    body: an opening bracket, the encoded rows (the header row first when
    asked for) separated by a comma and a line feed, a closing bracket;
    the wrapped format puts this under [data] and adds the failure map and
    the total.  An empty result gives the brackets alone. *)
Theorem send_json_layout (res : Response) (c : Conn) (encs : list string) :
  Error res = None ->
  SendColumnsHeader (Req res) = true \/ is_nil (Result res) = false ->
  is_json (OutputFormat (Req res)) || is_wrapped (OutputFormat (Req res))
    = true ->
  Forall2 encodes (sent_rows res) encs ->
  body_of (add_header spare res) = inl (json_layout res encs)
  /\ s_writes (send res c)
     = frame res (json_layout res encs) ++ [json_layout res encs; nl]
  /\ s_size (send res c)
     = Z.of_nat (String.length (json_layout res encs)) + 1.
Proof.
  intros Herr Hnn Hfmt Hall.
  destruct (add_header_rows res) as (Hrows & Hnil & HE & HF & HT).
  assert (body_of (add_header spare res) = inl (json_layout res encs)) as Hb.
  { unfold body, json_layout.
    rewrite HE, Herr, Hnil, Hrows, HF, HT, add_header_Req.
    assert ((if SendColumnsHeader (Req res) then false
             else is_nil (Result res)) = false) as ->
      by (destruct Hnn as [-> | ->];
          [reflexivity | destruct (SendColumnsHeader _); reflexivity]).
    destruct (is_wrapped (OutputFormat (Req res))) eqn:Ew.
    - rewrite (is_wrapped_not_json _ Ew). simpl orb. cbv iota.
      rewrite (marshal_rows_all _ _ _ Hall).
      unfold wrapped_close. rewrite !string_app_assoc. reflexivity.
    - rewrite orb_false_r in Hfmt. rewrite Hfmt. simpl orb. cbv iota.
      rewrite (marshal_rows_all _ _ _ Hall).
      rewrite !string_app_assoc. reflexivity. }
  split; [exact Hb|]. split.
  - apply Send_writes. exact Hb.
  - apply Send_size. exact Hb.
Qed.

(** X21.  The first row that cannot be encoded stops [Send]: nothing is
    written, not even the status line, the encoder's error is returned
    with size 0, and nothing is added to the bytes-sent counter. *)
Theorem send_unencodable_row (res : Response) (c : Conn)
    (pre : list Row) (row : Row) (post : list Row) (e : string) :
  Error res = None ->
  is_json (OutputFormat (Req res)) || is_wrapped (OutputFormat (Req res))
    = true ->
  sent_rows res = pre ++ row :: post ->
  Forall (fun r => exists t, encodes r t) pre ->
  json_Marshal row = inr e ->
  s_writes (send res c) = [] /\ s_err (send res c) = Some e
  /\ s_size (send res c) = 0 /\ s_counted (send res c) = None
  /\ s_conn (send res c) = c.
Proof.
  intros Herr Hfmt Hsplit Hpre Hrow.
  destruct (add_header_rows res) as (Hrows & Hnil & HE & HF & HT).
  assert (body_of (add_header spare res) = inr e) as Hb.
  { unfold body. rewrite HE, Herr, Hnil, Hrows, add_header_Req, Hsplit.
    assert ((if SendColumnsHeader (Req res) then false
             else is_nil (Result res)) = false) as ->.
    { destruct (SendColumnsHeader (Req res)) eqn:Eh; [reflexivity|].
      unfold sent_rows in Hsplit. rewrite Eh in Hsplit. simpl in Hsplit.
      destruct (Result res); [|reflexivity].
      destruct pre; discriminate. }
    rewrite orb_comm in Hfmt. rewrite Hfmt.
    rewrite (marshal_rows_stops _ _ _ _ Hpre Hrow). reflexivity. }
  unfold Send. rewrite Hb. repeat split.
Qed.

(** X22.  A response with an error goes out as the error text and
    nothing else: the rows are not encoded, whatever they are and
    whatever the format, and the status line carries the response's code
    and the length of the text plus one. *)
Theorem send_error_text (res : Response) (c : Conn) (e : string) :
  Error res = Some e ->
  s_writes (send res c) = frame res e ++ [e; nl]
  /\ s_size (send res c) = Z.of_nat (String.length e) + 1.
Proof.
  intros Herr.
  destruct (add_header_rows res) as (_ & _ & HE & _ & _).
  assert (body_of (add_header spare res) = inl e) as Hb
    by (unfold body; rewrite HE, Herr; reflexivity).
  split; [apply Send_writes | apply Send_size]; exact Hb.
Qed.

(** X23.  Without an error, a nil result with no header asked for, or an
    output format other than [json], the empty one and [wrapped_json],
    gives an empty body: a status line announcing one byte, when framing
    is on, and a line feed.  No row is encoded. *)
Theorem send_empty_body (res : Response) (c : Conn) :
  Error res = None ->
  (SendColumnsHeader (Req res) = false /\ is_nil (Result res) = true)
  \/ is_json (OutputFormat (Req res)) || is_wrapped (OutputFormat (Req res))
     = false ->
  s_writes (send res c) = frame res "" ++ [""; nl]
  /\ s_size (send res c) = 1.
Proof.
  intros Herr Hcase.
  destruct (add_header_rows res) as (_ & Hnil & HE & _ & _).
  assert (body_of (add_header spare res) = inl "") as Hb.
  { unfold body. rewrite HE, Herr, Hnil, add_header_Req.
    destruct Hcase as [[-> ->]|Hfmt]; [reflexivity|].
    apply orb_false_iff in Hfmt as [-> ->].
    destruct (if SendColumnsHeader (Req res) then false else _); reflexivity. }
  split; [apply Send_writes; exact Hb|].
  exact (proj1 (Send_size _ _ _ Hb)).
Qed.

(** X24.  [Send] leaves the header row in the response: sending the same
    response again puts a second header row in front of the first. *)
Theorem send_twice_duplicates_header (res : Response) (c c' : Conn) :
  SendColumnsHeader (Req res) = true ->
  elems (Result (s_res (send (s_res (send res c)) c')))
  = header_row (Req res) :: header_row (Req res) :: elems (Result res).
Proof.
  intros Hflag. rewrite !Send_res.
  destruct (add_header_rows (add_header spare res)) as (-> & _).
  destruct (add_header_rows res) as (Hrows & _).
  unfold sent_rows. rewrite Hrows, add_header_Req, Hflag.
  unfold sent_rows. rewrite Hflag. reflexivity.
Qed.

(** X25.  The error [Send] returns is that of its last write, the closing
    line feed: what the writes of the status line and of the body
    returned is not passed on. *)
Theorem send_reports_last_write_only (res : Response) (c : Conn)
    (b : string) (err : option string) :
  body_of (add_header spare res) = inl b ->
  (forall c', snd (snd (Write c' nl)) = err) ->
  s_err (send res c) = err.
Proof.
  intros Hb Hnl. unfold Send. rewrite Hb.
  destruct (ResponseFixed16 _); simpl.
  - destruct (Write (fst (Write c _)) b) as [c1 r1].
    specialize (Hnl c1). destruct (Write c1 nl) as [c2 [n2 e2]]. exact Hnl.
  - destruct (Write c b) as [c1 r1].
    specialize (Hnl c1). destruct (Write c1 nl) as [c2 [n2 e2]]. exact Hnl.
Qed.

End SenderFacts.

(** A stand-in for the encoder: strings, integers and nil are encoded,
    anything else is refused. *)
Definition sample_cell (c : Cell) : option string :=
  match c with
  | VString s => Some (dq +:+ s +:+ dq)
  | VInt z => Some (itoa z)
  | VNil => Some "null"
  | _ => None
  end.

Definition sample_Marshal (row : Row) : string + string :=
  match mapM sample_cell row with
  | Some cells => inl ("[" +:+ String.concat "," cells +:+ "]")
  | None => inr "json: unsupported value"
  end.

Definition sample_send (Write : list string -> string ->
                                list string * (Z * option string))
    (res : Response) : Sent (list string) :=
  Send sample_Marshal no_map_Marshal exact_fit (list string) Write res [].

Definition sample_encodings : list string :=
  [ "[" +:+ dq +:+ "alpha" +:+ dq +:+ ",2]";
    "[" +:+ dq +:+ "alpha" +:+ dq +:+ ",1]";
    "[" +:+ dq +:+ "beta" +:+ dq +:+ ",1]" ].

(** Three rows in the plain format. *)
Lemma send_json_layout_witness :
  body sample_Marshal no_map_Marshal (add_header exact_fit (sorted_response []))
    = inl (json_layout no_map_Marshal (sorted_response []) sample_encodings)
  /\ s_writes (sample_send record_Write (sorted_response []))
     = frame (sorted_response [])
         (json_layout no_map_Marshal (sorted_response []) sample_encodings)
       ++ [json_layout no_map_Marshal (sorted_response []) sample_encodings;
           nl]
  /\ s_size (sample_send record_Write (sorted_response []))
     = Z.of_nat (String.length
                   (json_layout no_map_Marshal (sorted_response [])
                      sample_encodings)) + 1.
Proof.
  apply (send_json_layout sample_Marshal no_map_Marshal exact_fit
           (list string) record_Write (sorted_response []) []
           sample_encodings).
  - reflexivity.
  - right. reflexivity.
  - reflexivity.
  - repeat (constructor; [reflexivity|]). constructor.
Defined.

(** A float in the second row, which the stand-in refuses. *)
Definition unencodable_response : Response :=
  response_of (request_on "hosts" ["name"] [])
    (Slice [[VString "alpha"]; [VFloat 1%float]; [VString "beta"]] 3).

Lemma send_unencodable_row_witness :
  s_writes (sample_send record_Write unencodable_response) = []
  /\ s_err (sample_send record_Write unencodable_response)
     = Some "json: unsupported value"
  /\ s_size (sample_send record_Write unencodable_response) = 0
  /\ s_counted (sample_send record_Write unencodable_response) = None
  /\ s_conn (sample_send record_Write unencodable_response) = [].
Proof.
  apply (send_unencodable_row sample_Marshal no_map_Marshal exact_fit
           (list string) record_Write unencodable_response []
           [[VString "alpha"]] [VFloat 1%float] [[VString "beta"]]).
  - reflexivity.
  - reflexivity.
  - reflexivity.
  - constructor; [|constructor]. eexists. reflexivity.
  - reflexivity.
Defined.

Lemma send_error_text_witness :
  s_writes (sample_send record_Write error_response)
  = frame error_response "bad request: table hosts has no column foo"
    ++ ["bad request: table hosts has no column foo"; nl]
  /\ s_size (sample_send record_Write error_response)
     = Z.of_nat (String.length "bad request: table hosts has no column foo")
       + 1.
Proof.
  apply (send_error_text sample_Marshal no_map_Marshal exact_fit
           (list string) record_Write error_response []).
  reflexivity.
Defined.

(** Rows asked for in a format the encoder does not know. *)
Definition csv_response : Response :=
  {| Code := 200; Result := Slice sorted_rows 3; ResultTotal := 3;
     Req := {| RTable := "hosts"; RColumns := ["name"; "state"];
               RFilter := []; RStats := []; RLimit := 0; ROffset := 0;
               RSort := []; RBackends := []; OutputFormat := "csv";
               ResponseFixed16 := true; SendColumnsHeader := false |};
     Error := None; Failed := ∅; RespColumns := sorted_columns |}.

Lemma send_empty_body_witness :
  s_writes (sample_send record_Write csv_response)
  = frame csv_response "" ++ [""; nl]
  /\ s_size (sample_send record_Write csv_response) = 1.
Proof.
  apply (send_empty_body sample_Marshal no_map_Marshal exact_fit
           (list string) record_Write csv_response []).
  - reflexivity.
  - right. reflexivity.
Defined.

Lemma send_twice_duplicates_header_witness :
  elems (Result (s_res (sample_send record_Write
                          (s_res (sample_send record_Write
                                    header_stats_response)))))
  = header_row (Req header_stats_response)
    :: header_row (Req header_stats_response)
    :: elems (Result header_stats_response).
Proof.
  apply (send_twice_duplicates_header sample_Marshal no_map_Marshal
           exact_fit (list string) record_Write header_stats_response [] []).
  reflexivity.
Defined.

(** A connection on which every write fails but that of a lone line
    feed. *)
Definition flaky_Write (c : list string) (s : string)
    : list string * (Z * option string) :=
  (c ++ [s], (0, if String.eqb s nl then None else Some "broken pipe")).

Lemma send_reports_last_write_only_witness :
  snd (snd (flaky_Write [] "[]")) = Some "broken pipe"
  /\ s_err (sample_send flaky_Write (sorted_response [])) = None.
Proof.
  split; [reflexivity|].
  eapply (send_reports_last_write_only sample_Marshal no_map_Marshal
            exact_fit (list string) flaky_Write (sorted_response []) []).
  - vm_compute. reflexivity.
  - intros c'. reflexivity.
Defined.

(** ** The collector when the units run one after another *)

#[global] Instance option_string_is_Some_dec (o : option string) :
  Decision (is_Some o).
Proof. apply _. Defined.

Section OneAfterAnother.

Variable Query : Peer -> Request -> list Row * option string.
Variable GetRowValue : Peer -> Z -> Row -> Z -> Table -> Z -> Cell.
Variable fmt_other : StatusValue -> string.
Variable spare : nat -> nat.
Variable DataStore : gmap string Peer.
Variable table : Table.
Variable columns : list Column.
Variable numPerRow : Z.

Local Abbreviation run :=
  (run_sched Query GetRowValue fmt_other spare DataStore table columns
     numPerRow).

(** A peer found down by the caller's loop. *)
Definition is_down (pid : string) : Prop :=
  status_PeerStatus (peer_of DataStore pid) = Ok PeerStatusDown.

#[global] Instance is_down_dec (pid : string) : Decision (is_down pid).
Proof. unfold is_down. apply _. Defined.

(** What a peer answers to the request passed through. *)
Definition answer (req : Request) (pid : string) : list Row * option string :=
  Query (peer_of DataStore pid) (passthroughRequest req columns).

(** The rows a peer contributes: none when its call fails, otherwise its
    answer with the virtual columns filled in. *)
Definition rows_of (req : Request) (pid : string) : outcome (list Row) :=
  match answer req pid with
  | (_, Some _) => Ok []
  | (rows, None) =>
      insert_virtual GetRowValue (peer_of DataStore pid) table numPerRow
        (virtColumns columns) rows
  end.

(** The entries of [Failed]: a down peer's last error, a failed call's
    error. *)
Definition skip (m : gmap string string) (pid : string) : gmap string string :=
  <[ID (peer_of DataStore pid) :=
      Sprintf_v fmt_other (Status (peer_of DataStore pid) !! "LastError")]> m.

Definition fail (req : Request) (m : gmap string string) (pid : string)
    : gmap string string :=
  match snd (answer req pid) with
  | Some msg => <[ID (peer_of DataStore pid) := msg]> m
  | None => m
  end.

Definition unit_of (pid : string) : Unit :=
  mkUnit (peer_of DataStore pid) AtQuery.

Definition three_steps (k : nat) : list nat := [S k; S k; S k].

Lemma set_Failed_same (res : Response) : set_Failed res (Failed res) = res.
Proof. destruct res; reflexivity. Qed.

(** The caller's loop, run to its end before any unit moves. *)
Lemma launch_all (peers : list string) :
  Forall (fun pid => exists s, status_PeerStatus (peer_of DataStore pid) = Ok s)
         peers ->
  forall (res : Response) (err : option string) (units : list Unit)
         (trace : list Event),
    run (replicate (length peers) O) (mkPT res err peers units trace)
    = Ok (mkPT (set_Failed res (foldl skip (Failed res) (filter is_down peers)))
               err [] (units ++ (unit_of <$> filter (fun pid => ¬ is_down pid)
                                             peers))
               trace).
Proof.
  induction 1 as [|pid peers [s Hs] _ IH]; intros res err units trace.
  - simpl. rewrite set_Failed_same, app_nil_r. reflexivity.
  - simpl. unfold launcher_step. simpl. rewrite Hs. simpl.
    rewrite !filter_cons.
    destruct (decide (s = PeerStatusDown)) as [->|Hne].
    + rewrite bool_decide_eq_true_2 by reflexivity. simpl.
      rewrite decide_True by exact Hs.
      rewrite decide_False by (intros Hn; apply Hn; exact Hs).
      rewrite IH. reflexivity.
    + rewrite bool_decide_eq_false_2 by assumption. simpl.
      assert (¬ is_down pid) as Hnd
        by (unfold is_down; rewrite Hs; congruence).
      rewrite decide_False by exact Hnd.
      rewrite decide_True by exact Hnd.
      rewrite IH, fmap_cons, <- app_assoc. reflexivity.
Qed.

(** The units, each run from its call to its end before the next
    moves. *)
Fixpoint one_by_one (pids : list string) (res : Response)
    (err : option string) (trace : list Event)
    : outcome (Response * option string * list Event) :=
  match pids with
  | [] => Ok (res, err, trace)
  | pid :: rest =>
      let p := peer_of DataStore pid in
      let trace := trace ++ [EvQuery (ID p)] in
      match answer (Req res) pid with
      | (_, Some msg) =>
          one_by_one rest
            (set_Failed res (<[ID p := msg]> (Failed res))) (Some msg) trace
      | (result, None) =>
          rows ← insert_virtual GetRowValue p table numPerRow
                   (virtColumns columns) result;
          one_by_one rest
            (set_Result res (append_slice spare [] (Result res) rows))
            None trace
      end
  end.

Local Abbreviation step :=
  (sched_step Query GetRowValue fmt_other spare DataStore table columns
     numPerRow).

Definition at_pc (pc : PC) (k : nat) (units : list Unit) : list Unit :=
  alter (fun u => mkUnit (u_peer u) pc) k units.

Lemma run_cons_Ok (who : nat) (rest : list nat) (st st1 : PTState) :
  step st who = Ok st1 -> run (who :: rest) st = run rest st1.
Proof. intros H. simpl. rewrite H. reflexivity. Qed.

Lemma step_query (k : nat) (p : Peer) (res : Response) (err : option string)
    (todo : list string) (units : list Unit) (trace : list Event)
    (result : list Row) (e : option string) :
  units !! k = Some (mkUnit p AtQuery) ->
  Query p (passthroughRequest (Req res) columns) = (result, e) ->
  step (mkPT res err todo units trace) (S k)
  = Ok (mkPT res e todo (at_pc (AtCheck result) k units)
             (trace ++ [EvQuery (ID p)])).
Proof.
  intros Hk Hq. simpl. unfold unit_step. simpl. rewrite Hk. simpl.
  rewrite Hq. reflexivity.
Qed.

Lemma step_check (k : nat) (p : Peer) (res : Response) (err : option string)
    (todo : list string) (units : list Unit) (trace : list Event)
    (result : list Row) :
  units !! k = Some (mkUnit p (AtCheck result)) ->
  step (mkPT res err todo units trace) (S k)
  = Ok (mkPT res err todo
             (at_pc (match err with Some _ => AtFail | None => AtMerge result end)
                    k units)
             trace).
Proof.
  intros Hk. simpl. unfold unit_step. simpl. rewrite Hk. simpl.
  destruct err; reflexivity.
Qed.

Lemma step_fail (k : nat) (p : Peer) (res : Response) (msg : string)
    (todo : list string) (units : list Unit) (trace : list Event) :
  units !! k = Some (mkUnit p AtFail) ->
  step (mkPT res (Some msg) todo units trace) (S k)
  = Ok (mkPT (set_Failed res (<[ID p := msg]> (Failed res))) (Some msg) todo
             (at_pc Finished k units) trace).
Proof.
  intros Hk. simpl. unfold unit_step. simpl. rewrite Hk. reflexivity.
Qed.

Lemma step_merge (k : nat) (p : Peer) (res : Response) (err : option string)
    (todo : list string) (units : list Unit) (trace : list Event)
    (result rows : list Row) :
  units !! k = Some (mkUnit p (AtMerge result)) ->
  insert_virtual GetRowValue p table numPerRow (virtColumns columns) result
    = Ok rows ->
  step (mkPT res err todo units trace) (S k)
  = Ok (mkPT (set_Result res (append_slice spare [] (Result res) rows)) err
             todo (at_pc Finished k units) trace).
Proof.
  intros Hk Hi. simpl. unfold unit_step. simpl. rewrite Hk. simpl.
  rewrite Hi. reflexivity.
Qed.

Lemma at_pc_lookup (pc : PC) (k : nat) (units : list Unit) (u : Unit) :
  units !! k = Some u -> at_pc pc k units !! k = Some (mkUnit (u_peer u) pc).
Proof. intros Hk. unfold at_pc. rewrite list_lookup_alter_eq, Hk. reflexivity. Qed.

Lemma unit_three_steps (k : nat) (pid : string) (res : Response)
    (err : option string) (todo : list string) (units : list Unit)
    (trace : list Event) (out : Response * option string * list Event) :
  units !! k = Some (unit_of pid) ->
  one_by_one [pid] res err trace = Ok out ->
  exists units',
    run (three_steps k) (mkPT res err todo units trace)
    = Ok (mkPT out.1.1 out.1.2 todo units' out.2)
    /\ length units' = length units
    /\ forall j, j <> k -> units' !! j = units !! j.
Proof.
  intros Hk. simpl one_by_one. unfold answer. unfold three_steps.
  destruct (Query (peer_of DataStore pid) (passthroughRequest (Req res) columns))
    as [result [msg|]] eqn:Eq.
  - intros Heq; inversion Heq; subst out; clear Heq. cbn [fst snd].
    rewrite (run_cons_Ok _ _ _ _ (step_query _ _ _ _ _ _ _ _ _ Hk Eq)).
    pose proof (at_pc_lookup (AtCheck result) _ _ _ Hk) as Hk1.
    rewrite (run_cons_Ok _ _ _ _ (step_check _ _ _ _ _ _ _ _ Hk1)).
    pose proof (at_pc_lookup AtFail _ _ _ Hk1) as Hk2.
    rewrite (run_cons_Ok _ _ _ _ (step_fail _ _ _ _ _ _ _ Hk2)).
    eexists. split; [reflexivity|]. unfold at_pc. split.
    + rewrite !length_alter. reflexivity.
    + intros j Hj. rewrite !list_lookup_alter_ne by congruence. reflexivity.
  - destruct (insert_virtual GetRowValue (peer_of DataStore pid) table
                numPerRow (virtColumns columns) result) as [rows|] eqn:Ei;
      intros Heq; simpl in Heq; [|discriminate].
    inversion Heq; subst out; clear Heq. cbn [fst snd].
    rewrite (run_cons_Ok _ _ _ _ (step_query _ _ _ _ _ _ _ _ _ Hk Eq)).
    pose proof (at_pc_lookup (AtCheck result) _ _ _ Hk) as Hk1.
    rewrite (run_cons_Ok _ _ _ _ (step_check _ _ _ _ _ _ _ _ Hk1)).
    pose proof (at_pc_lookup (AtMerge result) _ _ _ Hk1) as Hk2.
    rewrite (run_cons_Ok _ _ _ _ (step_merge _ _ _ _ _ _ _ _ _ Hk2 Ei)).
    eexists. split; [reflexivity|]. unfold at_pc. split.
    + rewrite !length_alter. reflexivity.
    + intros j Hj. rewrite !list_lookup_alter_ne by congruence. reflexivity.
Qed.

Lemma one_by_one_cons (pid : string) (rest : list string) (res : Response)
    (err : option string) (trace : list Event) :
  one_by_one (pid :: rest) res err trace
  = (one_by_one [pid] res err trace ≫= fun out =>
     one_by_one rest out.1.1 out.1.2 out.2).
Proof.
  simpl. destruct (answer (Req res) pid) as [result [msg|]]; [reflexivity|].
  destruct (insert_virtual _ _ _ _ _ _); reflexivity.
Qed.

Lemma units_in_turn (pids : list string) :
  forall (k : nat) (res : Response) (err : option string)
         (todo : list string) (units : list Unit) (trace : list Event)
         (out : Response * option string * list Event),
    (forall j pid, pids !! j = Some pid ->
                   units !! (k + j)%nat = Some (unit_of pid)) ->
    one_by_one pids res err trace = Ok out ->
    exists units',
      run (flat_map three_steps (seq k (length pids)))
          (mkPT res err todo units trace)
      = Ok (mkPT out.1.1 out.1.2 todo units' out.2)
      /\ length units' = length units.
Proof.
  induction pids as [|pid pids IH];
    intros k res err todo units trace out Hu Hrun.
  - simpl in *. inversion Hrun; subst out. simpl. eauto.
  - rewrite one_by_one_cons in Hrun.
    destruct (one_by_one [pid] res err trace) as [out1|] eqn:E1;
      simpl in Hrun; [|discriminate].
    destruct (unit_three_steps k pid res err todo units trace out1)
      as (units1 & Hstep & Hlen & Hsame); [|exact E1|].
    { specialize (Hu 0%nat pid eq_refl). rewrite Nat.add_0_r in Hu. exact Hu. }
    destruct (IH (S k) out1.1.1 out1.1.2 todo units1 out1.2 out)
      as (units' & Hrest & Hlen'); [|exact Hrun|].
    { intros j p Hj. rewrite Hsame by lia.
      replace (S k + j)%nat with (k + S j)%nat by lia.
      apply Hu. exact Hj. }
    exists units'. split; [|congruence].
    change (flat_map three_steps (seq k (length (pid :: pids))))
      with (three_steps k ++ flat_map three_steps (seq (S k) (length pids))).
    rewrite run_app, Hstep. simpl. exact Hrest.
Qed.

(** Steps of units that were never launched change nothing. *)
Lemma idle_units (m : nat) :
  forall (k : nat) (st : PTState),
    (length (pt_units st) <= k)%nat ->
    run (flat_map three_steps (seq k m)) st = Ok st.
Proof.
  induction m as [|m IH]; intros k st Hk; [reflexivity|].
  change (flat_map three_steps (seq k (S m)))
    with (three_steps k ++ flat_map three_steps (seq (S k) m)).
  rewrite run_app.
  assert (step st (S k) = Ok st) as Hidle.
  { simpl. unfold unit_step. rewrite (lookup_ge_None_2 _ _ Hk). reflexivity. }
  unfold three_steps. rewrite !(run_cons_Ok _ _ _ _ Hidle).
  simpl. apply IH. lia.
Qed.

(** What the units leave behind when each contributes its rows. *)
Lemma one_by_one_result (pids : list string) (rss : list (list Row)) :
  forall (res : Response) (err : option string) (trace : list Event),
    slice_wf (Result res) ->
    Forall2 (fun pid rows => rows_of (Req res) pid = Ok rows) pids rss ->
    exists res' err',
      one_by_one pids res err trace
      = Ok (res', err',
            trace ++ ((fun pid => EvQuery (ID (peer_of DataStore pid)))
                        <$> pids))
      /\ elems (Result res') = elems (Result res) ++ concat rss
      /\ Failed res' = foldl (fail (Req res)) (Failed res) pids.
Proof.
  intros res err trace Hwf Hall. revert res err trace Hwf Hall.
  induction pids as [|pid pids IH] in rss |- *;
    intros res err trace Hwf Hall; inversion Hall as [|? rows ? rss' Hrow Hrest];
    subst.
  - exists res, err. simpl. rewrite !app_nil_r. auto.
  - simpl one_by_one. unfold rows_of in Hrow.
    change (foldl (fail (Req res)) (Failed res) (pid :: pids))
      with (foldl (fail (Req res)) (fail (Req res) (Failed res) pid) pids).
    destruct (answer (Req res) pid) as [result [msg|]] eqn:Ea.
    + assert (fail (Req res) (Failed res) pid
              = <[ID (peer_of DataStore pid) := msg]> (Failed res)) as ->
        by (unfold fail; rewrite Ea; reflexivity).
      inversion Hrow; subst rows.
      destruct (IH rss' (set_Failed res
                           (<[ID (peer_of DataStore pid) := msg]> (Failed res)))
                  (Some msg)
                  (trace ++ [EvQuery (ID (peer_of DataStore pid))]) Hwf Hrest)
        as (res' & err' & -> & He & Hf).
      exists res', err'. rewrite <- app_assoc.
      split; [reflexivity|]. split; [exact He | exact Hf].
    + assert (fail (Req res) (Failed res) pid = Failed res) as ->
        by (unfold fail; rewrite Ea; reflexivity).
      rewrite Hrow. simpl mbind.
      destruct (elems_append_slice spare ([] : Row) (Result res) rows Hwf)
        as [Happ Hwf'].
      destruct (IH rss' (set_Result res
                           (append_slice spare [] (Result res) rows))
                  None
                  (trace ++ [EvQuery (ID (peer_of DataStore pid))]) Hwf' Hrest)
        as (res' & err' & -> & He & Hf).
      exists res', err'. rewrite <- app_assoc.
      split; [reflexivity|]. split; [|exact Hf].
      rewrite He. unfold set_Result. cbn [Result].
      rewrite Happ, <- app_assoc. reflexivity.
Qed.

(** X26.  When every unit runs from its call to its end before the next
    one moves, the collector does what it is meant to: the result holds
    the rows of the peers that were not down, in the order of [peers];
    [Failed] gains the last error of every peer that was down and then
    the error of every failed call; and each peer that was not down is
    queried once, in order. *)
Theorem passthrough_one_after_another (res : Response)
    (peers : list string) (trace : list Event) (rss : list (list Row)) :
  let awake := filter (fun pid => ¬ is_down pid) peers in
  Forall (fun pid => exists s, status_PeerStatus (peer_of DataStore pid) = Ok s)
         peers ->
  Forall2 (fun pid rows => rows_of (Req res) pid = Ok rows) awake rss ->
  exists st,
    BuildPassThroughResult Query GetRowValue fmt_other spare DataStore []
      res peers table columns numPerRow trace = Ok st
    /\ elems (Result (pt_res st)) = concat rss
    /\ Failed (pt_res st)
       = foldl (fail (Req res))
               (foldl skip (Failed res) (filter is_down peers)) awake
    /\ pt_trace st
       = trace ++ ((fun pid => EvQuery (ID (peer_of DataStore pid)))
                     <$> awake).
Proof.
  intros awake Hread Hrows.
  unfold BuildPassThroughResult. simpl run_sched at 2. simpl mbind.
  unfold drain. simpl pt_todo. simpl pt_units. simpl length at 2.
  rewrite run_app, (launch_all _ Hread). simpl mbind. simpl app.
  fold awake.
  set (res1 := set_Failed (set_Result res make_empty)
                 (foldl skip (Failed res) (filter is_down peers))).
  destruct (one_by_one_result awake rss res1 None trace)
    as (res' & err' & Hone & He & Hf); [simpl; lia | exact Hrows|].
  assert (length awake <= length peers)%nat as Hlen
    by (apply length_filter).
  change (fun k : nat => [S k; S k; S k]) with three_steps.
  replace (seq 0 (length peers))
    with (seq 0 (length awake + (length peers - length awake)))
    by (f_equal; lia).
  rewrite seq_app, flat_map_app, run_app.
  destruct (units_in_turn awake 0 res1 None [] (unit_of <$> awake) trace _
              ltac:(intros j pid Hj; simpl; rewrite list_lookup_fmap, Hj;
                    reflexivity) Hone)
    as (units' & Hrun & Hul).
  rewrite Hrun. simpl mbind.
  rewrite idle_units by (simpl; rewrite Hul, length_fmap; lia).
  eexists. split; [reflexivity|]. simpl.
  split; [exact He|]. split; [exact Hf | reflexivity].
Qed.

End OneAfterAnother.

(** The scenario with the units in turn: A's two rows arrive, B and C are
    recorded with their own errors. *)
Lemma passthrough_one_after_another_witness :
  exists st,
    scenario [] = Ok st
    /\ elems (Result (pt_res st)) = concat [rows_of_A; []]
    /\ Failed (pt_res st)
       = foldl (fail scenario_Query three_peers log_columns log_request)
               (foldl (skip fmt_none three_peers) ∅
                      (filter (is_down three_peers) ["A"; "B"; "C"]))
               (filter (fun pid => ¬ is_down three_peers pid)
                       ["A"; "B"; "C"])
    /\ pt_trace st
       = [] ++ ((fun pid => EvQuery (ID (peer_of three_peers pid)))
                  <$> filter (fun pid => ¬ is_down three_peers pid)
                             ["A"; "B"; "C"]).
Proof.
  apply (passthrough_one_after_another scenario_Query no_virtual_value
           fmt_none exact_fit three_peers log_table log_columns 1
           log_response ["A"; "B"; "C"] [] [rows_of_A; []]).
  - repeat constructor; eexists; reflexivity.
  - repeat constructor.
Defined.
